(** * Wallet ledger and payment reconciliation: a shallow embedding

    The server-side handlers of the wallet (Cloud Functions over a document
    store) are embedded as pure functions over an explicit [Store].

    - Collections of the document store are finite maps ([gmap]) from document
      ids to records.
    - A store transaction ([db.runTransaction]) is a function that reads the
      store it is started on, buffers its writes, and commits them together;
      a thrown error or a failed commit leaves the store as it was.
    - Numbers: amounts and balances are the numbers of JavaScript, IEEE-754
      binary64 doubles, here the primitive floats: sums, differences and
      products round as in the program, and [NaN], the infinities and the
      two zeros are values.
    - Values supplied by the environment of a handler (the clock, the
      auto-generated document ids, the gateway's answers) are arguments.
    - Built-ins of the JavaScript runtime and of the crypto library
      (MD5, [encodeURIComponent], [trim], [toUpperCase], ...) are
      parameters of the development. *)

From Stdlib Require Import ZArith NArith Lia Ascii String Floats Uint63.
From stdpp Require Import base option list gmap strings sorting.

Local Open Scope string_scope.
#[local] Set Warnings "-inexact-float".

(** ** Errors and results *)

(** The codes of [HttpsError] that the handlers throw. *)
Inductive ErrorCode :=
| invalid_argument
| unauthenticated
| permission_denied
| failed_precondition
| not_found
| internal.

Inductive Result (A : Type) :=
| Ok (a : A)
| Err (code : ErrorCode) (msg : string).
Arguments Ok {A} a.
Arguments Err {A} code msg.

Definition is_Err {A} (r : Result A) : bool :=
  match r with Ok _ => false | Err _ _ => true end.

Definition err_code {A} (r : Result A) : option ErrorCode :=
  match r with Ok _ => None | Err c _ => Some c end.

(** ** JavaScript idioms *)

(** Truthiness of a string: [''] is falsy. *)
Definition truthy (s : string) : bool := negb (String.eqb s "").

(** [x || d] on an optional string: [undefined] and [''] give [d]. *)
Definition str_or (x : option string) (d : string) : string :=
  match x with
  | Some s => if truthy s then s else d
  | None => d
  end.

(** [x || y] on two optional strings ([None] is a falsy result). *)
Definition str_or_else (x y : option string) : option string :=
  match x with
  | Some s => if truthy s then Some s else y
  | None => y
  end.

(** [x || null] on an optional string. *)
Definition str_or_null (x : option string) : option string :=
  match x with
  | Some s => if truthy s then Some s else None
  | None => None
  end.

(** ** Numbers *)

(** [!x] on a number: [0], [-0] and [NaN] are falsy. *)
Definition num_falsy (x : float) : bool := (x =? 0)%float || is_nan x.

(** [x || d] on a number. *)
Definition num_or (x d : float) : float := if num_falsy x then d else x.

(** [Number(x)] for an optional number: [undefined] gives [NaN]. *)
Definition Number_of (x : option float) : float := from_option id nan x.

(** The number with the integer value [z], for [|z| < 2^63]. *)
Definition Z2F (z : Z) : float :=
  match z with
  | Z0 => 0%float
  | Zpos _ => of_uint63 (Uint63.of_Z z)
  | Zneg p => (- of_uint63 (Uint63.of_Z (Zpos p)))%float
  end.

(** [Math.round]: the nearest integer, a tie goes towards +infinity; the
    argument is decomposed into sign, mantissa and exponent and the integer
    [floor(x + 1/2)] is computed exactly.  A result of zero has the sign of
    the argument. *)
Definition Math_round (x : float) : float :=
  match Prim2SF x with
  | S754_finite s m e =>
      if (0 <=? e)%Z then x
      else
        let n := ((cond_Zopp s (Z.pos m) * 2 + 2 ^ (- e)) / 2 ^ (1 - e))%Z in
        if (n =? 0)%Z then (if s then (-0)%float else 0%float) else Z2F n
  | _ => x
  end.

(** [Math.min(a, b)] and [Math.max(a, b)]: [NaN] when an argument is
    [NaN]; [-0] is below [+0]. *)
Definition Math_min (a b : float) : float :=
  if is_nan a || is_nan b then nan
  else if (a <? b)%float then a
  else if (b <? a)%float then b
  else if get_sign a then a else b.

Definition Math_max (a b : float) : float :=
  if is_nan a || is_nan b then nan
  else if (a <? b)%float then b
  else if (b <? a)%float then a
  else if get_sign a then b else a.

(** [x >= 0] *)
Definition nonneg (x : float) : Prop := (0 <=? x)%float = true.

(** The same on a decoded number. *)
Definition SFnonneg (x : spec_float) : Prop := SFleb (S754_zero false) x = true.

(** The value of a finite number in units of [2^-1074], an integer; 0 for
    the zeros, the infinities and [NaN]. *)
Definition SF2Z (x : spec_float) : Z :=
  match x with
  | S754_finite s m e => cond_Zopp s (Z.pos m * 2 ^ (e + 1074))
  | _ => 0%Z
  end.

Definition F2Z (x : float) : Z := SF2Z (Prim2SF x).

(** Is the decoded number a zero or finite? *)
Definition SFfinite (x : spec_float) : bool :=
  match x with
  | S754_zero _ | S754_finite _ _ _ => true
  | _ => false
  end.

(** Is it that, and not negative? *)
Definition SFfinite_nonneg (x : spec_float) : bool :=
  match x with
  | S754_zero _ => true
  | S754_finite s _ _ => negb s
  | _ => false
  end.

(** A value, in units of [2^-1074], that a finite number can have: a
    mantissa below [2^53] at an exponent of the format. *)
Definition representable (T : Z) : Prop :=
  ∃ K g : Z, (-1074 ≤ g ≤ 971)%Z ∧ (Z.abs K < 2 ^ 53)%Z ∧ T = (K * 2 ^ (g + 1074))%Z.

Definition Timestamp := Z.

(** ** Data model: the documents of each collection *)

(** [wallets/{uid}] *)
Record WalletDoc := {
  w_uid : string;
  w_balance : float;
  w_currency : option string;
  w_updatedAt : Timestamp;
  w_createdAt : option Timestamp;
}.

(** [wallets/{uid}/transactions/{id}]; every entry is written with
    [status: 'SUCCESS']. *)
Inductive TxDoc :=
| TOP_UP (paymentMethod : string) (amount : float) (currency : string)
    (pf_payment_id payment_status : option string) (createdAt : Timestamp)
| TRANSFER_OUT (counterparty : string) (amount : float) (currency : string)
    (note : option string) (createdAt : Timestamp)
| TRANSFER_IN (counterparty : string) (amount : float) (currency : string)
    (note : option string) (createdAt : Timestamp)
| ADMIN_ADJUST (amount : float) (currency : string) (reason : option string)
    (createdAt : Timestamp) (adminUid : string)
| RIDE_PAYMENT (rideId counterparty : string) (amount : float) (currency : string)
    (platformFee payoutToDriver : float) (createdAt : Timestamp)
| RIDE_EARN (rideId counterparty : string) (amount : float) (currency : string)
    (platformFee : float) (createdAt : Timestamp).

Definition is_TOP_UP (d : TxDoc) : bool :=
  match d with TOP_UP _ _ _ _ _ _ => true | _ => false end.

(** [pending_payments/{paymentId}] *)
Inductive PendingStatus := PENDING | COMPLETED.

Record PendingDoc := {
  pp_uid : string;
  pp_amount : float;
  pp_currency : string;
  pp_status : PendingStatus;
  pp_createdAt : Timestamp;
  pp_completedAt : option Timestamp;
  pp_pfPaymentId : option string;
  pp_paymentMethod : option string;
  (* [payfastData.pf_payment_id]: read by the verify handler, written by
     no handler *)
  pp_payfastData_pf_payment_id : option string;
  pp_paymentData : list (string * string);
}.

(** [rides/{rideId}] *)
Record RideDoc := {
  r_userId : string;
  r_status : string;
  r_paymentStatus : option string;
  r_driverId : option string;
  (* [None]: the field is absent *)
  r_estimatedFareZAR : option float;
  r_updatedAt : Timestamp;
}.

(** [drivers_live/{driverId}], the fields the settlement writes *)
Record DriverLiveDoc := {
  dl_occupied : bool;
  dl_updatedAt : Timestamp;
}.

(** [orders/{orderId}] *)
Record OrderDoc := {
  o_businessId : string;
  o_ownerId : string;
  o_userId : string;
  o_items : list string;
  o_subtotal : float;
  o_total : float;
  o_deliveryAddress : option string;
  o_status : string;
  o_createdAt : Timestamp;
  o_updatedAt : Timestamp;
}.

(** [groupWallets/{groupId}] *)
Record GroupWalletDoc := {
  gw_balance : float;
  gw_updatedAt : Timestamp;
  gw_createdBy : string;
  gw_createdAt : Timestamp;
  gw_currency : string;
}.

(** [groupWallets/{groupId}/transactions/{id}] *)
Record GroupTxDoc := {
  gt_userId : string;
  gt_username : string;
  gt_amount : float;
  gt_createdAt : Timestamp;
  gt_currency : string;
}.

(** [users/{uid}], the fields the deposit reads *)
Record UserDoc := {
  u_username : option string;
  u_displayName : option string;
}.

(** The document store. *)
Record Store := {
  wallets : gmap string WalletDoc;
  transactions : gmap (string * string) TxDoc;
  pending_payments : gmap string PendingDoc;
  rides : gmap string RideDoc;
  drivers_live : gmap string DriverLiveDoc;
  orders : gmap string OrderDoc;
  businesses : gmap string (option string);   (* the [ownerId] field *)
  groupWallets : gmap string GroupWalletDoc;
  groupTransactions : gmap (string * string) GroupTxDoc;
  users : gmap string UserDoc;
}.

Definition with_wallets (f : gmap string WalletDoc → gmap string WalletDoc) (s : Store) : Store :=
  {| wallets := f (wallets s); transactions := transactions s;
     pending_payments := pending_payments s; rides := rides s;
     drivers_live := drivers_live s; orders := orders s;
     businesses := businesses s; groupWallets := groupWallets s;
     groupTransactions := groupTransactions s; users := users s |}.

Definition with_transactions (f : gmap (string * string) TxDoc → gmap (string * string) TxDoc) (s : Store) : Store :=
  {| wallets := wallets s; transactions := f (transactions s);
     pending_payments := pending_payments s; rides := rides s;
     drivers_live := drivers_live s; orders := orders s;
     businesses := businesses s; groupWallets := groupWallets s;
     groupTransactions := groupTransactions s; users := users s |}.

Definition with_pending (f : gmap string PendingDoc → gmap string PendingDoc) (s : Store) : Store :=
  {| wallets := wallets s; transactions := transactions s;
     pending_payments := f (pending_payments s); rides := rides s;
     drivers_live := drivers_live s; orders := orders s;
     businesses := businesses s; groupWallets := groupWallets s;
     groupTransactions := groupTransactions s; users := users s |}.

Definition with_rides (f : gmap string RideDoc → gmap string RideDoc) (s : Store) : Store :=
  {| wallets := wallets s; transactions := transactions s;
     pending_payments := pending_payments s; rides := f (rides s);
     drivers_live := drivers_live s; orders := orders s;
     businesses := businesses s; groupWallets := groupWallets s;
     groupTransactions := groupTransactions s; users := users s |}.

Definition with_drivers_live (f : gmap string DriverLiveDoc → gmap string DriverLiveDoc) (s : Store) : Store :=
  {| wallets := wallets s; transactions := transactions s;
     pending_payments := pending_payments s; rides := rides s;
     drivers_live := f (drivers_live s); orders := orders s;
     businesses := businesses s; groupWallets := groupWallets s;
     groupTransactions := groupTransactions s; users := users s |}.

Definition with_orders (f : gmap string OrderDoc → gmap string OrderDoc) (s : Store) : Store :=
  {| wallets := wallets s; transactions := transactions s;
     pending_payments := pending_payments s; rides := rides s;
     drivers_live := drivers_live s; orders := f (orders s);
     businesses := businesses s; groupWallets := groupWallets s;
     groupTransactions := groupTransactions s; users := users s |}.

Definition with_groupWallets (f : gmap string GroupWalletDoc → gmap string GroupWalletDoc) (s : Store) : Store :=
  {| wallets := wallets s; transactions := transactions s;
     pending_payments := pending_payments s; rides := rides s;
     drivers_live := drivers_live s; orders := orders s;
     businesses := businesses s; groupWallets := f (groupWallets s);
     groupTransactions := groupTransactions s; users := users s |}.

Definition with_groupTransactions (f : gmap (string * string) GroupTxDoc → gmap (string * string) GroupTxDoc) (s : Store) : Store :=
  {| wallets := wallets s; transactions := transactions s;
     pending_payments := pending_payments s; rides := rides s;
     drivers_live := drivers_live s; orders := orders s;
     businesses := businesses s; groupWallets := groupWallets s;
     groupTransactions := f (groupTransactions s); users := users s |}.

(** ** Buffered writes of a transaction *)

(** The [balance] field of a wallet write: a value, or
    [FieldValue.increment]. *)
Inductive BalanceOp :=
| BalSet (q : float)
| BalIncrement (q : float).

(** The fields of a [t.set(walletRef, {...}, { merge: true })]: fields that
    are not written keep their stored value; an increment of a balance that
    does not exist yet stores the operand. *)
Record WalletPatch := {
  p_uid : string;
  p_balance : BalanceOp;
  p_currency : option string;
  p_updatedAt : Timestamp;
  p_createdAt : option Timestamp;
}.

Definition merge_wallet (p : WalletPatch) (old : option WalletDoc) : WalletDoc :=
  {| w_uid := p_uid p;
     w_balance :=
       match p_balance p with
       | BalSet q => q
       | BalIncrement q =>
           match old with
           | Some w => (w_balance w + q)%float
           | None => q
           end
       end;
     w_currency :=
       match p_currency p with
       | Some c => Some c
       | None => old ≫= w_currency
       end;
     w_updatedAt := p_updatedAt p;
     w_createdAt :=
       match p_createdAt p with
       | Some c => Some c
       | None => old ≫= w_createdAt
       end |}.

(** The fields of the [t.update(pendingRef, {...})] of the credit. *)
Record PendingPatch := {
  up_completedAt : Timestamp;
  (* [Some v]: the field is written with [v] ([None] is [null]) *)
  up_pfPaymentId : option (option string);
  up_paymentMethod : option string;
}.

Definition update_pending (p : PendingPatch) (d : PendingDoc) : PendingDoc :=
  {| pp_uid := pp_uid d;
     pp_amount := pp_amount d;
     pp_currency := pp_currency d;
     pp_status := COMPLETED;
     pp_createdAt := pp_createdAt d;
     pp_completedAt := Some (up_completedAt p);
     pp_pfPaymentId := from_option id (pp_pfPaymentId d) (up_pfPaymentId p);
     pp_paymentMethod :=
       match up_paymentMethod p with
       | Some m => Some m
       | None => pp_paymentMethod d
       end;
     pp_payfastData_pf_payment_id := pp_payfastData_pf_payment_id d;
     pp_paymentData := pp_paymentData d |}.

(** [t.update(rideRef, { status: 'completed', payment: { status:
    'authorized', lastError: null }, updatedAt })] *)
Definition complete_ride (now : Timestamp) (r : RideDoc) : RideDoc :=
  {| r_userId := r_userId r;
     r_status := "completed";
     r_paymentStatus := Some "authorized";
     r_driverId := r_driverId r;
     r_estimatedFareZAR := r_estimatedFareZAR r;
     r_updatedAt := now |}.

Inductive Write :=
| W_SetWallet (uid : string) (p : WalletPatch)
| W_SetTx (uid id : string) (d : TxDoc)
| W_UpdatePending (paymentId : string) (p : PendingPatch)
| W_UpdateRide (rideId : string) (now : Timestamp)
| W_FreeDriver (driverId : string) (now : Timestamp)
| W_SetOrder (orderId : string) (d : OrderDoc)
| W_SetGroupWallet (groupId : string) (d : GroupWalletDoc)
| W_SetGroupTx (groupId id : string) (d : GroupTxDoc).

(** One write applied to the store; [t.update] of a document that does not
    exist fails ([None]). *)
Definition apply_write (w : Write) (s : Store) : option Store :=
  match w with
  | W_SetWallet uid p =>
      Some (with_wallets (λ m, <[uid := merge_wallet p (m !! uid)]> m) s)
  | W_SetTx uid i d =>
      Some (with_transactions (λ m, <[(uid, i) := d]> m) s)
  | W_UpdatePending pid p =>
      match pending_payments s !! pid with
      | Some d => Some (with_pending (λ m, <[pid := update_pending p d]> m) s)
      | None => None
      end
  | W_UpdateRide rid now =>
      match rides s !! rid with
      | Some r => Some (with_rides (λ m, <[rid := complete_ride now r]> m) s)
      | None => None
      end
  | W_FreeDriver did now =>
      Some (with_drivers_live
              (λ m, <[did := {| dl_occupied := false; dl_updatedAt := now |}]> m) s)
  | W_SetOrder oid d =>
      Some (with_orders (λ m, <[oid := d]> m) s)
  | W_SetGroupWallet gid d =>
      Some (with_groupWallets (λ m, <[gid := d]> m) s)
  | W_SetGroupTx gid i d =>
      Some (with_groupTransactions (λ m, <[(gid, i) := d]> m) s)
  end.

Fixpoint commit (ws : list Write) (s : Store) : option Store :=
  match ws with
  | [] => Some s
  | w :: ws' =>
      match apply_write w s with
      | Some s' => commit ws' s'
      | None => None
      end
  end.

(** [db.runTransaction(body)]: the body reads the store and returns its
    buffered writes or throws; the writes are committed together, and when
    the body throws or the commit fails the store is left as it was. *)
Definition runTransaction (body : Store → Result (list Write)) (s : Store)
  : Result unit * Store :=
  match body s with
  | Err c m => (Err c m, s)
  | Ok ws =>
      match commit ws s with
      | Some s' => (Ok tt, s')
      | None => (Err not_found "No document to update", s)
      end
  end.

(** [snap.exists ? Number(snap.get('balance') || 0) : 0] *)
Definition balanceOf (snap : option WalletDoc) : float :=
  match snap with
  | Some w => num_or (w_balance w) 0
  | None => 0%float
  end.

(** [snap.exists ? (snap.get('createdAt') || now) : now] *)
Definition createdAtOr (snap : option WalletDoc) (now : Timestamp) : Timestamp :=
  match snap with
  | Some w => from_option id now (w_createdAt w)
  | None => now
  end.

(** ** Environment of the functions ([process.env]) *)
Record Env := {
  APP_BASE_CURRENCY : option string;
  APP_PLATFORM_FEE_RATE : option string;
  PAYFAST_MERCHANT_ID : option string;
  PAYFAST_MERCHANT_KEY : option string;
  PAYFAST_PASSPHRASE : option string;
  PAYFAST_ENV : option string;
}.

Definition APP_DEFAULT_CCY : string := "ZAR".

(** [uidOrThrow] *)
Definition uidOrThrow (auth : option string) : Result string :=
  match auth with
  | Some uid => if truthy uid then Ok uid else Err unauthenticated "Not signed in."
  | None => Err unauthenticated "Not signed in."
  end.

(** ** Strings and objects *)

(** A JavaScript object with string keys, as the list of its entries in
    enumeration order ([Object.entries]); the keys of an object are
    pairwise distinct. *)
Definition obj_keys {V} (o : list (string * V)) : list string := o.*1.

Definition obj_wf {V} (o : list (string * V)) : Prop := NoDup (obj_keys o).

(** [o[k]] *)
Fixpoint obj_get {V} (o : list (string * V)) (k : string) : option V :=
  match o with
  | [] => None
  | (k', v) :: o' => if String.eqb k' k then Some v else obj_get o' k
  end.

(** [o[k] = v]: an existing key keeps its place, a new key goes last. *)
Fixpoint obj_set {V} (k : string) (v : V) (o : list (string * V)) : list (string * V) :=
  match o with
  | [] => [(k, v)]
  | (k', v') :: o' =>
      if String.eqb k' k then (k, v) :: o' else (k', v') :: obj_set k v o'
  end.

(** [delete o[k]] *)
Definition obj_delete {V} (k : string) (o : list (string * V)) : list (string * V) :=
  filter (λ kv, kv.1 ≠ k) o.

(** [Object.assign(target, source)] *)
Definition obj_assign {V} (target source : list (string * V)) : list (string * V) :=
  foldl (λ acc kv, obj_set kv.1 kv.2 acc) target source.

(** [parts.join(sep)] *)
Definition join (sep : string) (parts : list string) : string :=
  String.concat sep parts.

(** [keys.sort()]: ascending order of the code units, here of the bytes. *)
Definition sort_keys (keys : list string) : list string :=
  merge_sort String.le keys.

(** [s.replace(/%20/g, '+')] *)
Fixpoint replace_pct20 (s : string) : string :=
  match s with
  | String "%"%char (String "2"%char (String "0"%char r)) =>
      String "+"%char (replace_pct20 r)
  | String c r => String c (replace_pct20 r)
  | EmptyString => EmptyString
  end.

Definition ascii_lower (c : ascii) : ascii :=
  let n := Ascii.nat_of_ascii c in
  if (65 <=? n)%nat && (n <=? 90)%nat then Ascii.ascii_of_nat (n + 32) else c.

Definition ascii_upper (c : ascii) : ascii :=
  let n := Ascii.nat_of_ascii c in
  if (97 <=? n)%nat && (n <=? 122)%nat then Ascii.ascii_of_nat (n - 32) else c.

(** Does [s] start with [p], ignoring the case of ASCII letters? *)
Fixpoint has_prefix_ci (p s : string) : bool :=
  match p, s with
  | EmptyString, _ => true
  | String a p', String b s' =>
      Ascii.eqb (ascii_lower a) (ascii_lower b) && has_prefix_ci p' s'
  | String _ _, EmptyString => false
  end.

Fixpoint string_drop (n : nat) (s : string) : string :=
  match n, s with
  | O, _ => s
  | S n', String _ s' => string_drop n' s'
  | S _, EmptyString => EmptyString
  end.

(** What is left of [s] after the longest prefix matching [[^&]*]. *)
Fixpoint skip_to_amp (s : string) : string :=
  match s with
  | String "&"%char _ => s
  | String _ r => skip_to_amp r
  | EmptyString => EmptyString
  end.

(** The first match of [/&signature=[^&]*/i] removed. *)
Fixpoint remove_amp_signature (s : string) : string :=
  match s with
  | EmptyString => EmptyString
  | String c r =>
      if Ascii.eqb c "&"%char && has_prefix_ci "signature=" r
      then skip_to_amp (string_drop 10 r)
      else String c (remove_amp_signature r)
  end.

(** [s.replace(/(^|&)signature=[^&]*/i, '')] *)
Definition remove_signature_param (s : string) : string :=
  if has_prefix_ci "signature=" s then skip_to_amp (string_drop 10 s)
  else remove_amp_signature s.

(** [s.replace(/^&/, '')] *)
Definition strip_leading_amp (s : string) : string :=
  match s with
  | String "&"%char r => r
  | _ => s
  end.

(** [s.replace(/&$/, '')] *)
Fixpoint strip_trailing_amp (s : string) : string :=
  match s with
  | EmptyString => EmptyString
  | String "&"%char EmptyString => EmptyString
  | String c r => String c (strip_trailing_amp r)
  end.

(** [s.split(sep)] for a one-character separator *)
Fixpoint split_on_go (sep : ascii) (cur : string) (s : string) : list string :=
  match s with
  | EmptyString => [String.rev cur]
  | String c r =>
      if Ascii.eqb c sep then String.rev cur :: split_on_go sep EmptyString r
      else split_on_go sep (String c cur) r
  end.

Definition split_on (sep : ascii) (s : string) : list string :=
  split_on_go sep EmptyString s.


(** ** Shapes of strings *)

(** Does [s] contain [&signature=], in any letter case? *)
Fixpoint has_amp_signature (s : string) : bool :=
  match s with
  | EmptyString => false
  | String c r =>
      Ascii.eqb c "&"%char && has_prefix_ci "signature=" r || has_amp_signature r
  end.

(** Does a signature parameter stand in [s], at its start or after an
    [&]? *)
Definition mentions_signature (s : string) : bool :=
  has_prefix_ci "signature=" s || has_amp_signature s.

(** Is [s] free of [&]? *)
Fixpoint no_amp (s : string) : bool :=
  match s with
  | EmptyString => true
  | String c r => negb (Ascii.eqb c "&"%char) && no_amp r
  end.

(** Is [s] empty or does it start with [&]? *)
Definition at_param_boundary (s : string) : bool :=
  match s with
  | EmptyString => true
  | String c _ => Ascii.eqb c "&"%char
  end.
(** ** The JavaScript runtime

    Built-ins of the platform that the handlers call. *)
Class JsRuntime := {
  (* [crypto.createHash('md5').update(s).digest('hex')] *)
  md5hex : string → string;
  encodeURIComponent : string → string;
  (* [None]: throws [URIError] *)
  decodeURIComponent : string → option string;
  (* the (key, value) pairs of [new URLSearchParams(s)], in order *)
  URLSearchParams : string → list (string * string);
  trim : string → string;
  toUpperCase : string → string;
  toLowerCase : string → string;
  (* [Number(s)] for a string [s] *)
  Number : string → float;
  localeCompare : string → string → Z;
}.

(** *** A runtime for running the handlers on byte strings

    These functions agree with the built-ins on printable ASCII text and
    on plain decimal literals of up to 15 digits; the digest is MD5.  They
    are used to evaluate the handlers on sample inputs; every general
    statement below is about an arbitrary runtime. *)

Fixpoint string_map (f : ascii → ascii) (s : string) : string :=
  match s with
  | EmptyString => EmptyString
  | String c r => String (f c) (string_map f r)
  end.

Fixpoint trim_left (s : string) : string :=
  match s with
  | String c r => if Ascii.is_space c then trim_left r else s
  | EmptyString => EmptyString
  end.

Definition sample_trim (s : string) : string :=
  String.rev (trim_left (String.rev (trim_left s))).

Definition hex_digit (n : nat) : ascii :=
  if (n <? 10)%nat then Ascii.ascii_of_nat (48 + n) else Ascii.ascii_of_nat (55 + n).

Definition is_unreserved (c : ascii) : bool :=
  let n := Ascii.nat_of_ascii c in
  ((65 <=? n) && (n <=? 90) || (97 <=? n) && (n <=? 122) || (48 <=? n) && (n <=? 57))%nat
  || bool_decide (c ∈ ["-"; "_"; "."; "!"; "~"; "*"; "'"; "("; ")"]%char).

Fixpoint sample_encodeURIComponent (s : string) : string :=
  match s with
  | EmptyString => EmptyString
  | String c r =>
      if is_unreserved c then String c (sample_encodeURIComponent r)
      else
        let n := Ascii.nat_of_ascii c in
        String "%" (String (hex_digit (n / 16)) (String (hex_digit (n mod 16))
          (sample_encodeURIComponent r)))
  end.

Definition hex_value (c : ascii) : option nat :=
  let n := Ascii.nat_of_ascii c in
  if (48 <=? n)%nat && (n <=? 57)%nat then Some (n - 48)%nat
  else if (65 <=? n)%nat && (n <=? 70)%nat then Some (n - 55)%nat
  else if (97 <=? n)%nat && (n <=? 102)%nat then Some (n - 87)%nat
  else None.

Fixpoint sample_decodeURIComponent (s : string) : option string :=
  match s with
  | EmptyString => Some EmptyString
  | String "%"%char (String h (String l r)) =>
      match hex_value h, hex_value l, sample_decodeURIComponent r with
      | Some a, Some b, Some r' => Some (String (Ascii.ascii_of_nat (16 * a + b)) r')
      | _, _, _ => None
      end
  | String "%"%char _ => None
  | String c r => String c <$> sample_decodeURIComponent r
  end.

Fixpoint split_first_eq (cur : string) (s : string) : string * string :=
  match s with
  | EmptyString => (String.rev cur, EmptyString)
  | String "="%char r => (String.rev cur, r)
  | String c r => split_first_eq (String c cur) r
  end.

Definition form_decode (s : string) : string :=
  let t := string_map (λ c, if Ascii.eqb c "+" then " "%char else c) s in
  from_option id t (sample_decodeURIComponent t).

Definition sample_URLSearchParams (s : string) : list (string * string) :=
  (λ seg, let kv := split_first_eq EmptyString seg in
          (form_decode kv.1, form_decode kv.2))
    <$> filter (λ seg, seg ≠ EmptyString) (split_on "&" s).

Definition digit_value (c : ascii) : option Z :=
  let n := Ascii.nat_of_ascii c in
  if (48 <=? n)%nat && (n <=? 57)%nat then Some (Z.of_nat n - 48)%Z else None.

(** The digits of a decimal literal as an integer and a power of ten. *)
Fixpoint decimal_go (s : string) (num scale : Z) (dot digits : bool) : option (Z * Z) :=
  match s with
  | EmptyString => if digits then Some (num, scale) else None
  | String c r =>
      if Ascii.eqb c "." then
        if dot then None else decimal_go r num scale true digits
      else
        match digit_value c with
        | Some d =>
            decimal_go r (10 * num + d)%Z (if dot then (10 * scale)%Z else scale) dot true
        | None => None
        end
  end.

(** The quotient of two integers that are doubles is the double nearest
    to the value of the literal. *)
Definition decimal_value (s : string) : float :=
  match decimal_go s 0 1 false false with
  | Some (num, scale) => (Z2F num / Z2F scale)%float
  | None => nan
  end.

Definition sample_Number (s : string) : float :=
  match sample_trim s with
  | EmptyString => 0%float
  | String "-"%char r => (- decimal_value r)%float
  | String "+"%char r => decimal_value r
  | t => decimal_value t
  end.

Definition sample_localeCompare (a b : string) : Z :=
  match String.compare a b with
  | Lt => (-1)%Z
  | Eq => 0%Z
  | Gt => 1%Z
  end.

(** MD5 (RFC 1321) over the bytes of a string, printed as 32 hexadecimal
    digits. *)
Definition md5_K : list N :=
  [3614090360; 3905402710; 606105819; 3250441966;
   4118548399; 1200080426; 2821735955; 4249261313;
   1770035416; 2336552879; 4294925233; 2304563134;
   1804603682; 4254626195; 2792965006; 1236535329;
   4129170786; 3225465664; 643717713; 3921069994;
   3593408605; 38016083; 3634488961; 3889429448;
   568446438; 3275163606; 4107603335; 1163531501;
   2850285829; 4243563512; 1735328473; 2368359562;
   4294588738; 2272392833; 1839030562; 4259657740;
   2763975236; 1272893353; 4139469664; 3200236656;
   681279174; 3936430074; 3572445317; 76029189;
   3654602809; 3873151461; 530742520; 3299628645;
   4096336452; 1126891415; 2878612391; 4237533241;
   1700485571; 2399980690; 4293915773; 2240044497;
   1873313359; 4264355552; 2734768916; 1309151649;
   4149444226; 3174756917; 718787259; 3951481745]%N.

Definition md5_shifts : list N :=
  [7; 12; 17; 22; 7; 12; 17; 22; 7; 12; 17; 22; 7; 12; 17; 22;
   5; 9; 14; 20; 5; 9; 14; 20; 5; 9; 14; 20; 5; 9; 14; 20;
   4; 11; 16; 23; 4; 11; 16; 23; 4; 11; 16; 23; 4; 11; 16; 23;
   6; 10; 15; 21; 6; 10; 15; 21; 6; 10; 15; 21; 6; 10; 15; 21]%N.

Definition w32 (n : N) : N := (n mod 4294967296)%N.
Definition not32 (n : N) : N := (4294967295 - w32 n)%N.
Definition rotl32 (n k : N) : N :=
  w32 (N.lor (N.shiftl (w32 n) k) (N.shiftr (w32 n) (32 - k))).

(** The padded message: the bytes, [0x80], zeros up to 56 modulo 64, and
    the length in bits as eight little-endian bytes. *)
Definition md5_pad (bytes : list N) : list N :=
  let len := N.of_nat (length bytes) in
  let zeros := N.to_nat ((119 - len mod 64) mod 64)%N in
  let bits := (len * 8)%N in
  bytes ++ [128%N] ++ replicate zeros 0%N
  ++ ((λ i, (N.shiftr bits (8 * N.of_nat i)) mod 256)%N <$> seq 0 8).

Fixpoint le_words (bytes : list N) (fuel : nat) : list N :=
  match fuel, bytes with
  | S fuel', b0 :: b1 :: b2 :: b3 :: rest =>
      (b0 + 256 * b1 + 65536 * b2 + 16777216 * b3)%N :: le_words rest fuel'
  | _, _ => []
  end.

Definition md5_round (M : list N) (st : N * N * N * N) (i : nat) : N * N * N * N :=
  let '(A, B, C, D) := st in
  let '(F, g) :=
    if (i <? 16)%nat then (N.lor (N.land B C) (N.land (not32 B) D), i)
    else if (i <? 32)%nat then
      (N.lor (N.land D B) (N.land (not32 D) C), ((5 * i + 1) mod 16)%nat)
    else if (i <? 48)%nat then (N.lxor B (N.lxor C D), ((3 * i + 5) mod 16)%nat)
    else (N.lxor C (N.lor B (not32 D)), ((7 * i) mod 16)%nat) in
  let F := w32 (F + A + default 0%N (md5_K !! i) + default 0%N (M !! g)) in
  (D, w32 (B + rotl32 F (default 0%N (md5_shifts !! i))), B, C).

Definition md5_block (st : N * N * N * N) (M : list N) : N * N * N * N :=
  let '(a0, b0, c0, d0) := st in
  let '(A, B, C, D) := foldl (md5_round M) st (seq 0 64) in
  (w32 (a0 + A), w32 (b0 + B), w32 (c0 + C), w32 (d0 + D)).

Fixpoint chunks16 (ws : list N) (fuel : nat) : list (list N) :=
  match fuel with
  | O => []
  | S fuel' =>
      match ws with
      | [] => []
      | _ => take 16 ws :: chunks16 (drop 16 ws) fuel'
      end
  end.

Definition hex_nibble (n : N) : ascii :=
  if (n <? 10)%N then Ascii.ascii_of_N (48 + n) else Ascii.ascii_of_N (87 + n).

Definition hex_le32 (w : N) : string :=
  foldr (λ i acc,
           let b := ((N.shiftr w (8 * N.of_nat i)) mod 256)%N in
           String (hex_nibble (b / 16)) (String (hex_nibble (b mod 16)) acc))
        EmptyString (seq 0 4).

Definition sample_md5hex (s : string) : string :=
  let bytes := (λ c, Ascii.N_of_ascii c) <$> list_ascii_of_string s in
  let padded := md5_pad bytes in
  let ws := le_words padded (length padded) in
  let '(a, b, c, d) :=
    foldl md5_block (1732584193, 4023233417, 2562383102, 271733878)%N
      (chunks16 ws (length ws)) in
  hex_le32 a ++ hex_le32 b ++ hex_le32 c ++ hex_le32 d.

Definition sample_runtime : JsRuntime := {|
  md5hex := sample_md5hex;
  encodeURIComponent := sample_encodeURIComponent;
  decodeURIComponent := sample_decodeURIComponent;
  URLSearchParams := sample_URLSearchParams;
  trim := sample_trim;
  toUpperCase := string_map ascii_upper;
  toLowerCase := string_map ascii_lower;
  Number := sample_Number;
  localeCompare := sample_localeCompare;
|}.
(** ** Request payloads and replies *)

Record P2PTransferPayload := {
  tp_toUid : option string;     (* [None]: absent or not a string *)
  tp_amount : option float;     (* [None]: absent *)
  tp_note : option string;
}.

Record AdminAdjustPayload := {
  aa_uid : option string;
  aa_delta : option float;      (* [None]: [null] or absent *)
  aa_reason : option string;
}.

Record OrderPayload := {
  op_businessId : option string;
  op_items : option (list string);   (* [None]: not an array *)
  op_address : option string;
  op_total : option float;           (* [None]: absent *)
}.

Record DepositPayload := {
  dp_groupId : option string;
  dp_amount : option float;
  dp_method : string;
}.

Record PayFastSignatureOpts := {
  includeEmpty : option bool;
  excludeKeys : option (list string);
}.

(** An HTTP response: status and body. *)
Definition HttpResponse : Type := Z * string.

(** The webhook request: its method, the text of the raw body (from
    [rawBody], a string body or a Buffer body) and the body when it is an
    already parsed object. *)
Record ITNRequest := {
  req_method : string;
  req_raw : option string;
  req_body : option (list (string * string));
}.

(** The reply of the verify handler. *)
Inductive VerifyReply :=
| VR_SUCCESS (credited : float) (currency : string) (paymentMethod : option string)
| VR_PENDING (message : string).

(** ** The handlers *)

Section Handlers.
Context `{rt : JsRuntime}.

(** [String(x)] inside a template literal or a built-in call. *)
Definition js_String (x : option string) : string := from_option id "undefined" x.

Definition getBaseCurrency (env : Env) : string :=
  toUpperCase (str_or (APP_BASE_CURRENCY env) APP_DEFAULT_CCY).

Definition getPayFastBaseUrl (env : Env) : string :=
  if String.eqb (toLowerCase (str_or (PAYFAST_ENV env) "sandbox")) "live"
  then "https://www.payfast.co.za"
  else "https://sandbox.payfast.co.za".

(** *** Signature codec *)

Definition cleanPf (v : option string) : string :=
  match v with
  | None => ""
  | Some s => trim s
  end.

Definition encodePf (v : string) : string := replace_pct20 (encodeURIComponent v).

(** The loop of [buildPayFastQueryString] over [Object.entries(data)]; a
    value [None] is [null] or [undefined]. *)
Definition pf_filter_step (includeEmpty : bool) (exclude : list string)
    (filtered : list (string * string)) (entry : string * option string)
  : list (string * string) :=
  let '(key, value) := entry in
  if bool_decide (key ∈ exclude) then filtered
  else
    match value with
    | None => filtered
    | Some v =>
        let cleaned := cleanPf (Some v) in
        if negb includeEmpty && String.eqb cleaned "" then filtered
        else obj_set key cleaned filtered
    end.

Definition pf_filtered (data : list (string * option string)) (opts : PayFastSignatureOpts)
  : list (string * string) :=
  let includeEmpty := bool_decide (includeEmpty opts = Some true) in
  let exclude := from_option id ["signature"] (excludeKeys opts) in
  foldl (pf_filter_step includeEmpty exclude) [] data.

Definition buildPayFastQueryString (data : list (string * option string))
    (opts : PayFastSignatureOpts) : string * list string :=
  let filtered := pf_filtered data opts in
  let sortedKeys := sort_keys (obj_keys filtered) in
  let queryString :=
    join "&" ((λ key, key ++ "=" ++ encodePf (js_String (obj_get filtered key)))
                <$> sortedKeys) in
  (queryString, sortedKeys).

Definition generatePayFastSignature (data : list (string * option string))
    (passphrase : string) (opts : PayFastSignatureOpts) : string :=
  let queryString := (buildPayFastQueryString data opts).1 in
  let pf := cleanPf (Some passphrase) in
  let fullString :=
    if truthy pf then queryString ++ "&passphrase=" ++ pf else queryString in
  md5hex fullString.

(** *** Wallet balance *)


Definition getWalletBalance (env : Env) (auth : option string) (s : Store)
  : Result (float * string) * Store :=
  match uidOrThrow auth with
  | Err c m => (Err c m, s)
  | Ok uid =>
      match wallets s !! uid with
      | None => (Ok (0%float, getBaseCurrency env), s)
      | Some w =>
          (Ok (num_or (w_balance w) 0,
               toUpperCase (str_or (w_currency w) (getBaseCurrency env))), s)
      end
  end.

(** *** Peer-to-peer transfer *)

(** The body of the transaction of [transferFunds]. *)
Definition transferFunds_txn (fromUid toUid : string) (amt : float) (note : option string)
    (now : Timestamp) (base debitId creditId : string) (s : Store)
  : Result (list Write) :=
  let fromSnap := wallets s !! fromUid in
  let toSnap := wallets s !! toUid in
  let fromBal := balanceOf fromSnap in
  if (fromBal <? amt)%float then Err failed_precondition "Insufficient balance"
  else
    let toBal := balanceOf toSnap in
    Ok [ W_SetWallet fromUid
           {| p_uid := fromUid; p_balance := BalSet (fromBal - amt)%float;
              p_currency := Some base; p_updatedAt := now;
              p_createdAt := Some (createdAtOr fromSnap now) |};
         W_SetWallet toUid
           {| p_uid := toUid; p_balance := BalSet (toBal + amt)%float;
              p_currency := Some base; p_updatedAt := now;
              p_createdAt := Some (createdAtOr toSnap now) |};
         W_SetTx fromUid debitId
           (TRANSFER_OUT toUid amt base (str_or_null note) now);
         W_SetTx toUid creditId
           (TRANSFER_IN fromUid amt base (str_or_null note) now) ].

(** [debitId] and [creditId] are the auto-generated ids of the two log
    documents.  The amount is checked with
    [!amount || isNaN(Number(amount)) || Number(amount) <= 0]. *)
Definition transferFunds (env : Env) (auth : option string) (data : P2PTransferPayload)
    (now : Timestamp) (debitId creditId : string) (s : Store)
  : Result string * Store :=
  match uidOrThrow auth with
  | Err c m => (Err c m, s)
  | Ok fromUid =>
      match tp_toUid data with
      | None => (Err invalid_argument "toUid required", s)
      | Some toUid =>
          if negb (truthy toUid) then (Err invalid_argument "toUid required", s)
          else if String.eqb toUid fromUid
          then (Err invalid_argument "Cannot send to yourself", s)
          else
            match tp_amount data with
            | None => (Err invalid_argument "amount must be > 0", s)
            | Some amt =>
                if num_falsy amt || is_nan amt || (amt <=? 0)%float
                then (Err invalid_argument "amount must be > 0", s)
                else
                  let base := getBaseCurrency env in
                  match runTransaction
                          (transferFunds_txn fromUid toUid amt (tp_note data)
                             now base debitId creditId) s with
                  | (Ok _, s') => (Ok "SUCCESS", s')
                  | (Err c m, s') => (Err c m, s')
                  end
            end
      end
  end.

(** *** Admin adjustment *)

Definition adminAdjustBalance_txn (caller uid : string) (delta : float)
    (reason : option string) (now : Timestamp) (base txId : string) (s : Store)
  : Result (list Write) :=
  let wSnap := wallets s !! uid in
  let bal := balanceOf wSnap in
  Ok [ W_SetWallet uid
         {| p_uid := uid; p_balance := BalSet (bal + delta)%float;
            p_currency := Some base; p_updatedAt := now;
            p_createdAt := Some (createdAtOr wSnap now) |};
       W_SetTx uid txId (ADMIN_ADJUST delta base (str_or_null reason) now caller) ].

(** [isAdmin]: the [admin] custom claim of the caller, as the auth service
    reports it. *)
Definition adminAdjustBalance (env : Env) (auth : option string)
    (isAdmin : string → bool) (data : AdminAdjustPayload)
    (now : Timestamp) (txId : string) (s : Store) : Result string * Store :=
  match uidOrThrow auth with
  | Err c m => (Err c m, s)
  | Ok caller =>
      if negb (isAdmin caller) then (Err permission_denied "Admin only", s)
      else
        match aa_uid data with
        | None => (Err invalid_argument "uid required", s)
        | Some uid =>
            if negb (truthy uid) then (Err invalid_argument "uid required", s)
            else
              match aa_delta data with
              | None => (Err invalid_argument "delta must be a number", s)
              | Some delta =>
                  if is_nan delta then (Err invalid_argument "delta must be a number", s)
                  else
                  let base := getBaseCurrency env in
                  match runTransaction
                          (adminAdjustBalance_txn caller uid delta (aa_reason data)
                             now base txId) s with
                  | (Ok _, s') => (Ok "SUCCESS", s')
                  | (Err c m, s') => (Err c m, s')
                  end
              end
        end
  end.

(** *** Webhook (ITN) handler *)

(** [entries.sort(([a], [b]) => a.localeCompare(b))] orders by this. *)
Definition locale_le (a b : string * string) : Prop :=
  (localeCompare a.1 b.1 ≤ 0)%Z.

#[local] Instance locale_le_dec : RelDecision locale_le.
Proof. intros a b. unfold locale_le. apply _. Defined.

(** Parsing of the request into the [data] object and [rawBodyString];
    [None] when [decodeURIComponent] throws (the handler's outer [catch]). *)
Definition itn_parse (req : ITNRequest) : option (list (string * string) * string) :=
  let rawBodyString := from_option id "" (req_raw req) in
  if truthy rawBodyString then
    data ← foldl (λ acc kv,
                    data ← acc;
                    v ← decodeURIComponent kv.2;
                    Some (obj_set kv.1 v data))
                 (Some []) (URLSearchParams rawBodyString);
    Some (data, rawBodyString)
  else
    match req_body req with
    | Some body =>
        let data := obj_assign [] body in
        let entries :=
          merge_sort locale_le (filter (λ kv, kv.1 ≠ "signature") data) in
        Some (data, join "&" ((λ kv, kv.1 ++ "=" ++ encodeURIComponent kv.2) <$> entries))
    | None => Some ([], "")
    end.

(** The string over which the webhook recomputes the signature. *)
Definition itn_signing_string (data : list (string * string)) (rawBodyString : string)
  : string :=
  if truthy rawBodyString then
    strip_trailing_amp (strip_leading_amp (remove_signature_param rawBodyString))
  else
    let signingData := obj_delete "signature" data in
    let sortedKeys := sort_keys (obj_keys signingData) in
    join "&" ((λ key, key ++ "=" ++
                 replace_pct20 (encodeURIComponent (js_String (obj_get signingData key))))
                <$> sortedKeys).

Definition itn_signature_check (env : Env) (data : list (string * string))
    (rawBodyString received : string) : bool :=
  let passphrase := cleanPf (Some (str_or (PAYFAST_PASSPHRASE env) "")) in
  let signingString := itn_signing_string data rawBodyString in
  let finalString :=
    if truthy passphrase then signingString ++ "&passphrase=" ++ passphrase
    else signingString in
  String.eqb received (md5hex finalString).

Inductive ITNFront :=
| ITN_Reply (r : HttpResponse)
| ITN_Verified (data : list (string * string)).

(** The handler up to and including the signature check. *)
Definition payfastITN_front (env : Env) (req : ITNRequest) : ITNFront :=
  if negb (String.eqb (req_method req) "POST") then ITN_Reply (405%Z, "Method not allowed")
  else
    match itn_parse req with
    | None => ITN_Reply (200%Z, "OK")
    | Some (data, rawBodyString) =>
        if negb (truthy (cleanPf (PAYFAST_MERCHANT_KEY env)))
        then ITN_Reply (500%Z, "Configuration error")
        else
          match obj_get data "signature" with
          | None => ITN_Reply (400%Z, "Missing signature")
          | Some received =>
              if negb (truthy received) then ITN_Reply (400%Z, "Missing signature")
              else if negb (itn_signature_check env data rawBodyString received)
              then ITN_Reply (400%Z, "Invalid signature")
              else ITN_Verified data
          end
    end.

(** What the credit of the webhook needs from the verified [data]. *)
Record ITNCredit := {
  ic_paymentId : string;
  ic_uid : string;
  ic_amount : float;
  ic_pfPaymentId : option string;
  ic_payment_method : option string;
  ic_payment_status : option string;
}.

Inductive ITNGate :=
| ITN_Respond (r : HttpResponse)
| ITN_Proceed (c : ITNCredit).

(** From the status check to the look-up of the Pending Payment, which is
    read with [pendingRef.get()] before the transaction is started. *)
Definition payfastITN_gate (data : list (string * string)) (s : Store) : ITNGate :=
  if negb (bool_decide (obj_get data "payment_status" = Some "COMPLETE"))
  then ITN_Respond (200%Z, "OK")
  else
    let amount := from_option Number nan (obj_get data "amount_gross") in
    match obj_get data "m_payment_id", obj_get data "custom_str1" with
    | Some paymentId, Some uid =>
        if negb (truthy paymentId) || negb (truthy uid) || num_falsy amount
           || is_nan amount
        then ITN_Respond (400%Z, "Missing required fields")
        else
          match pending_payments s !! paymentId with
          | None => ITN_Respond (200%Z, "OK")
          | Some pending =>
              match pp_status pending with
              | COMPLETED => ITN_Respond (200%Z, "OK")
              | PENDING =>
                  ITN_Proceed
                    {| ic_paymentId := paymentId; ic_uid := uid; ic_amount := amount;
                       ic_pfPaymentId := obj_get data "pf_payment_id";
                       ic_payment_method := obj_get data "payment_method";
                       ic_payment_status := obj_get data "payment_status" |}
              end
          end
    | _, _ => ITN_Respond (400%Z, "Missing required fields")
    end.

(** The body of the credit transaction of the webhook. *)
Definition payfastITN_txn (c : ITNCredit) (now : Timestamp) (base : string) (s : Store)
  : Result (list Write) :=
  let uid := ic_uid c in
  let wSnap := wallets s !! uid in
  let prevBalance := balanceOf wSnap in
  let newBalance := (prevBalance + ic_amount c)%float in
  let paymentMethod := str_or (ic_payment_method c) "UNKNOWN" in
  Ok [ W_SetWallet uid
         {| p_uid := uid; p_balance := BalSet newBalance;
            p_currency := Some base; p_updatedAt := now;
            p_createdAt := Some (createdAtOr wSnap now) |};
       W_SetTx uid (ic_paymentId c)
         (TOP_UP paymentMethod (ic_amount c) base
            (str_or_null (ic_pfPaymentId c)) (str_or_null (ic_payment_status c)) now);
       W_UpdatePending (ic_paymentId c)
         {| up_completedAt := now;
            up_pfPaymentId := Some (str_or_null (ic_pfPaymentId c));
            up_paymentMethod := Some paymentMethod |} ].

(** The transaction and the reply; an error of the transaction is caught
    and acknowledged. *)
Definition payfastITN_credit (env : Env) (c : ITNCredit) (now : Timestamp) (s : Store)
  : HttpResponse * Store :=
  match runTransaction (payfastITN_txn c now (getBaseCurrency env)) s with
  | (Ok _, s') => ((200%Z, "OK"), s')
  | (Err _ _, s') => ((200%Z, "OK"), s')
  end.

(** The handler after the signature check. *)
Definition payfastITN_process (env : Env) (data : list (string * string))
    (now : Timestamp) (s : Store) : HttpResponse * Store :=
  match payfastITN_gate data s with
  | ITN_Respond r => (r, s)
  | ITN_Proceed c => payfastITN_credit env c now s
  end.

Definition payfastITN (env : Env) (req : ITNRequest) (now : Timestamp) (s : Store)
  : HttpResponse * Store :=
  match payfastITN_front env req with
  | ITN_Reply r => (r, s)
  | ITN_Verified data => payfastITN_process env data now s
  end.

(** *** Client verify handler *)

(** Parsing of the gateway's [key=value&...] answer; [None] when
    [decodeURIComponent] throws. *)
Definition parse_details (detailsText : string) : option (list (string * string)) :=
  foldl (λ acc pair,
           details ← acc;
           let parts := split_on "=" pair in
           match parts !! 0%nat, parts !! 1%nat with
           | Some key, Some value =>
               if truthy key && truthy value then
                 k ← decodeURIComponent key;
                 v ← decodeURIComponent value;
                 Some (obj_set k v details)
               else Some details
           | _, _ => Some details
           end)
        (Some []) (split_on "&" detailsText).

(** What the credit of the verify handler needs. *)
Record VerifyCredit := {
  vc_uid : string;             (* the caller *)
  vc_paymentId : string;
  vc_amount : float;
  vc_details : list (string * string);
}.

Inductive VerifyGate :=
| VG_Return (r : Result VerifyReply)
| VG_Proceed (c : VerifyCredit).

(** The handler up to the transaction.  [fetch url] is the text of the
    gateway's answer, or the message of the error that [fetch] throws.  The
    Pending Payment is read once, with [pendingRef.get()], before the
    gateway is queried. *)
Definition verifyPayFastPayment_gate (env : Env) (auth : option string)
    (paymentId : option string) (fetch : string → string + string) (s : Store)
  : VerifyGate :=
  match uidOrThrow auth with
  | Err c m => VG_Return (Err c m)
  | Ok uid =>
  match str_or_null paymentId with
  | None => VG_Return (Err invalid_argument "paymentId required")
  | Some paymentId =>
  let merchantId := cleanPf (PAYFAST_MERCHANT_ID env) in
  let merchantKey := cleanPf (PAYFAST_MERCHANT_KEY env) in
  let passphrase := cleanPf (Some (str_or (PAYFAST_PASSPHRASE env) "")) in
  if negb (truthy merchantId) || negb (truthy merchantKey)
  then VG_Return (Err failed_precondition "PayFast credentials not configured")
  else
  match pending_payments s !! paymentId with
  | None => VG_Return (Err not_found "Payment not found")
  | Some pending =>
  match pp_status pending with
  | COMPLETED =>
      VG_Return (Ok (VR_SUCCESS (num_or (pp_amount pending) 0)
                       (str_or (Some (pp_currency pending)) (getBaseCurrency env))
                       (Some (str_or (pp_paymentMethod pending) "UNKNOWN"))))
  | PENDING =>
  match str_or_null
          (str_or_else (pp_pfPaymentId pending) (pp_payfastData_pf_payment_id pending)) with
  | None => VG_Return (Ok (VR_PENDING "Payment processing, please wait a moment"))
  | Some pfPaymentId =>
  let queryData : list (string * option string) :=
    [("merchant_id", Some merchantId); ("merchant_key", Some merchantKey);
     ("pf_payment_id", Some pfPaymentId)] in
  let signature :=
    generatePayFastSignature queryData passphrase
      {| includeEmpty := Some true; excludeKeys := None |} in
  let queryData := obj_set "signature" (Some signature) queryData in
  let queryString :=
    (buildPayFastQueryString queryData {| includeEmpty := None; excludeKeys := None |}).1 in
  let baseUrl := getPayFastBaseUrl env in
  let failed m := VG_Return (Err internal ("PayFast verification failed: " ++ m)) in
  match fetch (baseUrl ++ "/eng/query/validate?" ++ queryString) with
  | inr m => failed m
  | inl result =>
  if negb (String.eqb result "VALID")
  then VG_Return (Ok (VR_PENDING "Payment not yet complete"))
  else
  match fetch (baseUrl ++ "/eng/query/get?" ++ queryString) with
  | inr m => failed m
  | inl detailsText =>
  match parse_details detailsText with
  | None => failed "URI malformed"
  | Some details =>
  if negb (bool_decide (obj_get details "payment_status" = Some "COMPLETE"))
  then VG_Return (Ok (VR_PENDING "Payment not yet complete"))
  else
  (* [Number(details.amount_gross || 0)] *)
  let amount :=
    match str_or_null (obj_get details "amount_gross") with
    | None => 0%float
    | Some a => Number a
    end in
  (* [pendingSnap.get('status') !== 'COMPLETED'] holds here: the same
     snapshot was tested above *)
  VG_Proceed {| vc_uid := uid; vc_paymentId := paymentId;
                vc_amount := amount; vc_details := details |}
  end end end end end end end end.

(** The body of the credit transaction of the verify handler. *)
Definition verifyPayFastPayment_txn (c : VerifyCredit) (now : Timestamp) (base : string)
    (s : Store) : Result (list Write) :=
  let uid := vc_uid c in
  let details := vc_details c in
  let wSnap := wallets s !! uid in
  let prevBalance := balanceOf wSnap in
  Ok [ W_SetWallet uid
         {| p_uid := uid; p_balance := BalSet (prevBalance + vc_amount c)%float;
            p_currency := Some base; p_updatedAt := now;
            p_createdAt := Some (createdAtOr wSnap now) |};
       W_SetTx uid (vc_paymentId c)
         (TOP_UP (str_or (obj_get details "payment_method") "UNKNOWN")
            (vc_amount c) base
            (str_or_null (obj_get details "pf_payment_id"))
            (str_or_null (obj_get details "payment_status")) now);
       W_UpdatePending (vc_paymentId c)
         {| up_completedAt := now; up_pfPaymentId := None; up_paymentMethod := None |} ].

Definition verifyPayFastPayment_credit (env : Env) (c : VerifyCredit) (now : Timestamp)
    (s : Store) : Result VerifyReply * Store :=
  let base := getBaseCurrency env in
  match runTransaction (verifyPayFastPayment_txn c now base) s with
  | (Ok _, s') =>
      (Ok (VR_SUCCESS (vc_amount c) base (obj_get (vc_details c) "payment_method")), s')
  | (Err _ m, s') => (Err internal ("PayFast verification failed: " ++ m), s')
  end.

Definition verifyPayFastPayment (env : Env) (auth : option string)
    (paymentId : option string) (fetch : string → string + string)
    (now : Timestamp) (s : Store) : Result VerifyReply * Store :=
  match verifyPayFastPayment_gate env auth paymentId fetch s with
  | VG_Return r => (r, s)
  | VG_Proceed c => verifyPayFastPayment_credit env c now s
  end.

(** *** Concurrent invocations of the credit path

    A handler reads the Pending Payment with one round-trip to the store
    and runs its transaction with another; the store serialises these
    round-trips, and other invocations may run in between.  A thread is an
    invocation, a schedule names the thread that takes the next step. *)

Inductive Call :=
(* a webhook delivery whose signature has been verified *)
| CallWebhook (data : list (string * string)) (now : Timestamp)
| CallVerify (auth paymentId : option string) (fetch : string → string + string)
    (now : Timestamp).

Inductive Thread :=
| T_Start (c : Call)
| T_ITNCredit (c : ITNCredit) (now : Timestamp)
| T_VerifyCredit (c : VerifyCredit) (now : Timestamp)
| T_Done.

Definition thread_step (env : Env) (t : Thread) (s : Store) : Thread * Store :=
  match t with
  | T_Start (CallWebhook data now) =>
      match payfastITN_gate data s with
      | ITN_Respond _ => (T_Done, s)
      | ITN_Proceed c => (T_ITNCredit c now, s)
      end
  | T_Start (CallVerify auth paymentId fetch now) =>
      match verifyPayFastPayment_gate env auth paymentId fetch s with
      | VG_Proceed c => (T_VerifyCredit c now, s)
      | VG_Return _ => (T_Done, s)
      end
  | T_ITNCredit c now => (T_Done, (payfastITN_credit env c now s).2)
  | T_VerifyCredit c now => (T_Done, (verifyPayFastPayment_credit env c now s).2)
  | T_Done => (T_Done, s)
  end.

Fixpoint run_schedule (env : Env) (sched : list nat) (ts : list Thread) (s : Store)
  : list Thread * Store :=
  match sched with
  | [] => (ts, s)
  | i :: sched' =>
      match ts !! i with
      | None => run_schedule env sched' ts s
      | Some t =>
          let '(t', s') := thread_step env t s in
          run_schedule env sched' (<[i := t']> ts) s'
      end
  end.

(** One invocation run to its end without interruption. *)
Definition run_call (env : Env) (c : Call) (s : Store) : Store :=
  let '(t, s1) := thread_step env (T_Start c) s in
  (thread_step env t s1).2.

(** *** Ride settlement *)

(** The platform fee rate: [APP_PLATFORM_FEE_RATE], default 20%, clamped to
    [0, 0.95]. *)
Definition feeRate (env : Env) : float :=
  let feeRateEnv := Number (str_or (APP_PLATFORM_FEE_RATE env) "0.20") in
  if is_finite feeRateEnv then Math_max 0 (Math_min 0.95 feeRateEnv)
  else 0.20%float.

Definition platformFee (env : Env) (amount : float) : float :=
  Math_round (amount * feeRate env).

Definition payout (env : Env) (amount : float) : float :=
  (amount - platformFee env amount)%float.

Definition payDriverOnComplete_txn (env : Env) (riderUid rideId : string)
    (now : Timestamp) (debitId creditId : string) (s : Store) : Result (list Write) :=
  match rides s !! rideId with
  | None => Err not_found "Ride not found."
  | Some ride =>
      if bool_decide (r_paymentStatus ride = Some "authorized")
         || String.eqb (r_status ride) "completed"
      then
        (* already settled: only the driver is freed *)
        match str_or_null (r_driverId ride) with
        | Some driverId => Ok [W_FreeDriver driverId now]
        | None => Ok []
        end
      else if negb (String.eqb (r_userId ride) riderUid)
      then Err permission_denied "Not your ride."
      else if negb (String.eqb (r_status ride) "on_trip")
      then Err failed_precondition
             ("Ride must be on_trip to complete (current: " ++ r_status ride ++ ").")
      else
        match str_or_null (r_driverId ride) with
        | None => Err failed_precondition "No assigned driver."
        | Some driverId =>
            (* [Number(ride.estimatedFareZAR || 0)] *)
            let amount := num_or (Number_of (r_estimatedFareZAR ride)) 0 in
            if negb (is_finite amount) || (amount <=? 0)%float
            then Err failed_precondition "Invalid fare amount."
            else
              let riderW := wallets s !! riderUid in
              let driverW := wallets s !! driverId in
              let base := getBaseCurrency env in
              let riderBal := balanceOf riderW in
              if (riderBal <? amount)%float
              then Err failed_precondition "Insufficient rider balance."
              else
                let driverBal := balanceOf driverW in
                let platformFee := platformFee env amount in
                let payout := payout env amount in
                Ok [ W_SetWallet riderUid
                       {| p_uid := riderUid; p_balance := BalSet (riderBal - amount)%float;
                          p_currency := Some base; p_updatedAt := now;
                          p_createdAt := Some (createdAtOr riderW now) |};
                     W_SetWallet driverId
                       {| p_uid := driverId; p_balance := BalSet (driverBal + payout)%float;
                          p_currency := Some base; p_updatedAt := now;
                          p_createdAt := Some (createdAtOr driverW now) |};
                     W_SetTx riderUid debitId
                       (RIDE_PAYMENT rideId driverId amount base platformFee payout now);
                     W_SetTx driverId creditId
                       (RIDE_EARN rideId riderUid payout base platformFee now);
                     W_UpdateRide rideId now;
                     W_FreeDriver driverId now ]
        end
  end.

Definition payDriverOnComplete (env : Env) (auth : option string)
    (rideId : option string) (now : Timestamp) (debitId creditId : string) (s : Store)
  : Result bool * Store :=
  match uidOrThrow auth with
  | Err c m => (Err c m, s)
  | Ok riderUid =>
      match str_or_null rideId with
      | None => (Err invalid_argument "rideId required", s)
      | Some rideId =>
          match runTransaction
                  (payDriverOnComplete_txn env riderUid rideId now debitId creditId) s with
          | (Ok _, s') => (Ok true, s')
          | (Err c m, s') => (Err c m, s')
          end
      end
  end.

(** *** Order settlement *)

Definition payAndPlaceOrder_txn (uid businessId : string) (items : list string)
    (address : option string) (total : option float) (now : Timestamp) (orderId : string)
    (s : Store) : Result (list Write) :=
  match businesses s !! businessId with
  | None => Err not_found "Business not found."
  | Some owner =>
      match str_or_null owner with
      | None => Err failed_precondition "Business owner not set."
      | Some ownerId =>
          let buyerBal := balanceOf (wallets s !! uid) in
          let amount := Number_of total in
              if negb (is_finite amount) || (amount <=? 0)%float
              then Err invalid_argument "Invalid total."
              else if negb (is_finite buyerBal)
              then Err failed_precondition "Bad wallet state."
              else if (buyerBal <? amount)%float
              then Err failed_precondition "Insufficient funds."
              else
                Ok [ W_SetWallet uid
                       {| p_uid := uid; p_balance := BalIncrement (- amount)%float;
                          p_currency := None; p_updatedAt := now; p_createdAt := None |};
                     W_SetWallet ownerId
                       {| p_uid := ownerId; p_balance := BalIncrement amount;
                          p_currency := None; p_updatedAt := now; p_createdAt := None |};
                     W_SetOrder orderId
                       {| o_businessId := businessId; o_ownerId := ownerId;
                          o_userId := uid; o_items := items;
                          o_subtotal := amount; o_total := amount;
                          o_deliveryAddress := str_or_null address;
                          o_status := "paid"; o_createdAt := now; o_updatedAt := now |} ]
      end
  end.

(** The reply carries the id of the order and ["paid"]; the push
    notification sent after the transaction does not touch the ledger. *)
Definition payAndPlaceOrder (auth : option string) (data : OrderPayload)
    (now : Timestamp) (orderId : string) (s : Store) : Result (string * string) * Store :=
  match str_or_null auth with
  | None => (Err unauthenticated "Sign in required.", s)
  | Some uid =>
      match str_or_null (op_businessId data), op_items data with
      | Some businessId, Some (item :: items) =>
          match runTransaction
                  (payAndPlaceOrder_txn uid businessId (item :: items)
                     (op_address data) (op_total data) now orderId) s with
          | (Ok _, s') => (Ok (orderId, "paid"), s')
          | (Err c m, s') => (Err c m, s')
          end
      | _, _ => (Err invalid_argument "Missing order fields.", s)
      end
  end.

(** *** Group wallet deposit *)

Definition depositToGroupWallet_txn (uid groupId : string) (numericAmount : float)
    (now : Timestamp) (baseCurrency txId : string) (s : Store) : Result (list Write) :=
  let userWalletSnap := wallets s !! uid in
  let groupWalletSnap := groupWallets s !! groupId in
  let userSnap := users s !! uid in
  let username :=
    str_or (str_or_else (userSnap ≫= u_username) (userSnap ≫= u_displayName))
           "Unknown User" in
  match userWalletSnap with
  | None => Err failed_precondition "User wallet not found"
  | Some userWallet =>
      let userBalance := num_or (w_balance userWallet) 0 in
      if (userBalance <? numericAmount)%float
      then Err failed_precondition "Insufficient balance"
      else
        let groupBalance :=
          match groupWalletSnap with
          | Some g => num_or (gw_balance g) 0
          | None => 0%float
          end in
        Ok [ W_SetWallet uid
               {| p_uid := uid; p_balance := BalSet (userBalance - numericAmount)%float;
                  p_currency := Some baseCurrency; p_updatedAt := now;
                  p_createdAt := None |};
             W_SetGroupWallet groupId
               {| gw_balance := (groupBalance + numericAmount)%float;
                  gw_updatedAt := now;
                  gw_createdBy :=
                    str_or (gw_createdBy <$> groupWalletSnap) uid;
                  gw_createdAt := from_option gw_createdAt now groupWalletSnap;
                  gw_currency := baseCurrency |};
             W_SetGroupTx groupId txId
               {| gt_userId := uid; gt_username := username;
                  gt_amount := numericAmount; gt_createdAt := now;
                  gt_currency := baseCurrency |} ]
  end.

Definition depositToGroupWallet (env : Env) (auth : option string)
    (data : DepositPayload) (now : Timestamp) (txId : string) (s : Store)
  : Result string * Store :=
  match uidOrThrow auth with
  | Err c m => (Err c m, s)
  | Ok uid =>
      match str_or_null (dp_groupId data) with
      | None => (Err invalid_argument "Missing groupId", s)
      | Some groupId =>
          match dp_amount data with
          | None => (Err invalid_argument "Invalid deposit amount", s)
          | Some numericAmount =>
              if num_falsy numericAmount || is_nan numericAmount
                 || (numericAmount <=? 0)%float
              then (Err invalid_argument "Invalid deposit amount", s)
              else if negb (String.eqb (dp_method data) "wallet")
              then (Err invalid_argument "Only wallet method is supported", s)
              else
                match runTransaction
                        (depositToGroupWallet_txn uid groupId numericAmount now
                           (getBaseCurrency env) txId) s with
                | (Ok _, s') => (Ok "wallet", s')
                | (Err c m, s') => (Err c m, s')
                end
          end
      end
  end.

(** *** The operations that write a balance *)

Inductive Operation :=
| OpTransfer (auth : option string) (data : P2PTransferPayload)
    (now : Timestamp) (debitId creditId : string)
| OpWebhook (req : ITNRequest) (now : Timestamp)
| OpVerify (auth paymentId : option string) (fetch : string → string + string)
    (now : Timestamp)
| OpRide (auth rideId : option string) (now : Timestamp) (debitId creditId : string)
| OpOrder (auth : option string) (data : OrderPayload) (now : Timestamp) (orderId : string)
| OpDeposit (auth : option string) (data : DepositPayload) (now : Timestamp) (txId : string)
| OpAdminAdjust (auth : option string) (isAdmin : string → bool)
    (data : AdminAdjustPayload) (now : Timestamp) (txId : string).

(** The store after an operation; an operation that fails leaves the store
    as it was. *)
Definition run_op (env : Env) (op : Operation) (s : Store) : Store :=
  match op with
  | OpTransfer auth data now debitId creditId =>
      (transferFunds env auth data now debitId creditId s).2
  | OpWebhook req now => (payfastITN env req now s).2
  | OpVerify auth paymentId fetch now =>
      (verifyPayFastPayment env auth paymentId fetch now s).2
  | OpRide auth rideId now debitId creditId =>
      (payDriverOnComplete env auth rideId now debitId creditId s).2
  | OpOrder auth data now orderId => (payAndPlaceOrder auth data now orderId s).2
  | OpDeposit auth data now txId => (depositToGroupWallet env auth data now txId s).2
  | OpAdminAdjust auth isAdmin data now txId =>
      (adminAdjustBalance env auth isAdmin data now txId s).2
  end.

(** Every stored balance, of a wallet or of a group wallet, is
    non-negative. *)
Definition balances_nonneg (s : Store) : Prop :=
  (∀ uid w, wallets s !! uid = Some w → nonneg (w_balance w)) ∧
  (∀ gid g, groupWallets s !! gid = Some g → nonneg (gw_balance g)).

End Handlers.

(** Side conditions under which an operation keeps the balances
    non-negative: a credit of a non-negative amount, a ride whose payout to
    the driver is non-negative, an adjustment that does not take the
    balance below zero, a transfer or a deposit of a finite amount (an
    infinite amount taken from an infinite balance leaves [NaN]).  The
    order settlement needs none. *)
Definition op_side_condition `{rt : JsRuntime} (env : Env) (op : Operation) (s : Store)
  : Prop :=
  match op with
  | OpTransfer _ data _ _ _ =>
      ∀ amt, tp_amount data = Some amt → (amt <? infinity)%float = true
  | OpDeposit _ data _ _ =>
      ∀ amt, dp_amount data = Some amt → (amt <? infinity)%float = true
  | OpWebhook req _ =>
      match payfastITN_front env req with
      | ITN_Verified data =>
          match payfastITN_gate data s with
          | ITN_Proceed c => nonneg (ic_amount c)
          | ITN_Respond _ => True
          end
      | ITN_Reply _ => True
      end
  | OpVerify auth paymentId fetch _ =>
      match verifyPayFastPayment_gate env auth paymentId fetch s with
      | VG_Proceed c => nonneg (vc_amount c)
      | VG_Return _ => True
      end
  | OpRide _ rideId _ _ _ =>
      ∀ rid ride,
        rideId = Some rid → rides s !! rid = Some ride →
        nonneg (payout env (num_or (Number_of (r_estimatedFareZAR ride)) 0))
  | OpAdminAdjust _ _ data _ _ =>
      ∀ uid delta,
        aa_uid data = Some uid → aa_delta data = Some delta →
        nonneg (balanceOf (wallets s !! uid) + delta)
  | OpOrder _ _ _ _ => True
  end.

(** The uid and the payment reference id that an invocation of the credit
    path carries. *)
Definition call_uid (c : Call) : option string :=
  match c with
  | CallWebhook data _ => obj_get data "custom_str1"
  | CallVerify auth _ _ _ => auth
  end.

Definition call_paymentId (c : Call) : option string :=
  match c with
  | CallWebhook data _ => obj_get data "m_payment_id"
  | CallVerify _ paymentId _ _ => paymentId
  end.

(** ** The stores that the transactions produce *)

Section Effects.
Context `{rt : JsRuntime}.

(** The store after the four writes of a transfer. *)
Definition transfer_effects (fromUid toUid : string) (amt : float) (note : option string)
    (now : Timestamp) (base debitId creditId : string) (s : Store) : Store :=
  let fromSnap := wallets s !! fromUid in
  let toSnap := wallets s !! toUid in
  with_transactions
    (λ m, <[(toUid, creditId) := TRANSFER_IN fromUid amt base (str_or_null note) now]>
            (<[(fromUid, debitId) := TRANSFER_OUT toUid amt base (str_or_null note) now]> m))
    (with_wallets
       (λ m, <[toUid := {| w_uid := toUid; w_balance := (balanceOf toSnap + amt)%float;
                           w_currency := Some base; w_updatedAt := now;
                           w_createdAt := Some (createdAtOr toSnap now) |}]>
               (<[fromUid := {| w_uid := fromUid;
                                w_balance := (balanceOf fromSnap - amt)%float;
                                w_currency := Some base; w_updatedAt := now;
                                w_createdAt := Some (createdAtOr fromSnap now) |}]> m))
       s).

(** What [buildPayFastQueryString] keeps of a property. *)
Definition pf_kept (includeEmpty : bool) (exclude : list string) (key : string)
    (value : option (option string)) : option string :=
  match value with
  | Some (Some v) =>
      if bool_decide (key ∈ exclude) then None
      else if negb includeEmpty && String.eqb (cleanPf (Some v)) "" then None
      else Some (cleanPf (Some v))
  | _ => None
  end.


(** The store after the six writes of a ride settlement. *)
Definition ride_effects (env : Env) (riderUid rideId driverId : string) (ride : RideDoc)
    (amount : float) (now : Timestamp) (debitId creditId : string) (s : Store) : Store :=
  let riderW := wallets s !! riderUid in
  let driverW := wallets s !! driverId in
  let base := getBaseCurrency env in
  with_drivers_live
    (λ m, <[driverId := {| dl_occupied := false; dl_updatedAt := now |}]> m)
    (with_rides (λ m, <[rideId := complete_ride now ride]> m)
       (with_transactions
          (λ m, <[(driverId, creditId) :=
                    RIDE_EARN rideId riderUid (payout env amount) base
                      (platformFee env amount) now]>
                  (<[(riderUid, debitId) :=
                       RIDE_PAYMENT rideId driverId amount base
                         (platformFee env amount) (payout env amount) now]> m))
          (with_wallets
             (λ m, <[driverId := {| w_uid := driverId;
                                    w_balance :=
                                      (balanceOf driverW + payout env amount)%float;
                                    w_currency := Some base; w_updatedAt := now;
                                    w_createdAt := Some (createdAtOr driverW now) |}]>
                     (<[riderUid := {| w_uid := riderUid;
                                       w_balance := (balanceOf riderW - amount)%float;
                                       w_currency := Some base; w_updatedAt := now;
                                       w_createdAt := Some (createdAtOr riderW now) |}]> m))
             s))).
End Effects.

(** A write that stores a non-negative balance, given the store it is
    applied to. *)
Definition write_nonneg (s : Store) (w : Write) : Prop :=
  match w with
  | W_SetWallet uid p => nonneg (w_balance (merge_wallet p (wallets s !! uid)))
  | W_SetGroupWallet _ d => nonneg (gw_balance d)
  | _ => True
  end.

Fixpoint writes_nonneg (ws : list Write) (s : Store) : Prop :=
  match ws with
  | [] => True
  | w :: ws' =>
      write_nonneg s w ∧
      ∀ s1, apply_write w s = Some s1 → balances_nonneg s1 → writes_nonneg ws' s1
  end.

Section Credit.
Context `{rt : JsRuntime}.

(** What the two credit transactions write, in one shape. *)
Record CreditArgs := {
  ca_uid : string;
  ca_paymentId : string;
  ca_amount : float;
  ca_paymentMethod : string;
  ca_pf_payment_id : option string;
  ca_payment_status : option string;
  ca_patch : Timestamp → PendingPatch;
}.

Definition itn_args (c : ITNCredit) : CreditArgs :=
  {| ca_uid := ic_uid c; ca_paymentId := ic_paymentId c; ca_amount := ic_amount c;
     ca_paymentMethod := str_or (ic_payment_method c) "UNKNOWN";
     ca_pf_payment_id := str_or_null (ic_pfPaymentId c);
     ca_payment_status := str_or_null (ic_payment_status c);
     ca_patch := λ now,
       {| up_completedAt := now;
          up_pfPaymentId := Some (str_or_null (ic_pfPaymentId c));
          up_paymentMethod := Some (str_or (ic_payment_method c) "UNKNOWN") |} |}.

Definition verify_args (c : VerifyCredit) : CreditArgs :=
  {| ca_uid := vc_uid c; ca_paymentId := vc_paymentId c; ca_amount := vc_amount c;
     ca_paymentMethod := str_or (obj_get (vc_details c) "payment_method") "UNKNOWN";
     ca_pf_payment_id := str_or_null (obj_get (vc_details c) "pf_payment_id");
     ca_payment_status := str_or_null (obj_get (vc_details c) "payment_status");
     ca_patch := λ now,
       {| up_completedAt := now; up_pfPaymentId := None; up_paymentMethod := None |} |}.

(** The credit that a thread is about to run, if any. *)
Definition thread_credit (t : Thread) : option (CreditArgs * Timestamp) :=
  match t with
  | T_ITNCredit c now => Some (itn_args c, now)
  | T_VerifyCredit c now => Some (verify_args c, now)
  | _ => None
  end.

(** The TOP_UP entry of a credit. *)
Definition credit_entry (a : CreditArgs) (now : Timestamp) (base : string) : TxDoc :=
  TOP_UP (ca_paymentMethod a) (ca_amount a) base
    (ca_pf_payment_id a) (ca_payment_status a) now.

(** The store after the three writes of a credit: the balance of
    [ca_uid], the TOP_UP entry under the payment reference id, and the
    Pending Payment [d] marked COMPLETED. *)
Definition credit_effects (a : CreditArgs) (now : Timestamp) (base : string)
    (d : PendingDoc) (s : Store) : Store :=
  let wSnap := wallets s !! ca_uid a in
  with_pending (λ m, <[ca_paymentId a := update_pending (ca_patch a now) d]> m)
    (with_transactions
       (λ m, <[(ca_uid a, ca_paymentId a) := credit_entry a now base]> m)
       (with_wallets
          (λ m, <[ca_uid a := {| w_uid := ca_uid a;
                                 w_balance := (balanceOf wSnap + ca_amount a)%float;
                                 w_currency := Some base; w_updatedAt := now;
                                 w_createdAt := Some (createdAtOr wSnap now) |}]> m)
          s)).

(** The amount of a payment reaches the wallet of the uid stored in its
    Pending Payment. *)
Definition credits_owner (s s' : Store) (paymentId : string) (amount : float) : Prop :=
  ∀ d, pending_payments s !! paymentId = Some d →
       w_balance <$> wallets s' !! pp_uid d
       = Some (balanceOf (wallets s !! pp_uid d) + amount)%float.

(** The number of TOP_UP entries in the log. *)
Definition count_TOP_UP (s : Store) : nat :=
  length (filter (λ kv, is_TOP_UP kv.2 = true) (map_to_list (transactions s))).

End Credit.

(** ** Sample data *)

Definition sample_env : Env :=
  {| APP_BASE_CURRENCY := None; APP_PLATFORM_FEE_RATE := None;
     PAYFAST_MERCHANT_ID := Some "10044172"; PAYFAST_MERCHANT_KEY := Some "ugnq5eaqpbc0r";
     PAYFAST_PASSPHRASE := None; PAYFAST_ENV := None |}.

Definition empty_store : Store :=
  {| wallets := ∅; transactions := ∅; pending_payments := ∅; rides := ∅;
     drivers_live := ∅; orders := ∅; businesses := ∅; groupWallets := ∅;
     groupTransactions := ∅; users := ∅ |}.

Definition sample_wallet (uid : string) (balance : float) : WalletDoc :=
  {| w_uid := uid; w_balance := balance; w_currency := Some "ZAR";
     w_updatedAt := 0%Z; w_createdAt := Some 0%Z |}.

(** Alice holds 100, and has a Pending Payment [pay1] of 100. *)
Definition sample_store : Store :=
  with_pending
    (λ _, {[ "pay1" := {| pp_uid := "alice"; pp_amount := 100; pp_currency := "ZAR";
                          pp_status := PENDING; pp_createdAt := 1%Z;
                          pp_completedAt := None; pp_pfPaymentId := None;
                          pp_paymentMethod := None;
                          pp_payfastData_pf_payment_id := None;
                          pp_paymentData := [] |} ]})
    (with_wallets (λ _, {[ "alice" := sample_wallet "alice" 100 ]}) empty_store).

(** The fields of the gateway's notification for [pay1]. *)
Definition sample_itn_data (custom_str1 : string) : list (string * string) :=
  [("m_payment_id", "pay1"); ("pf_payment_id", "1089250");
   ("payment_status", "COMPLETE"); ("amount_gross", "100.00");
   ("custom_str1", custom_str1); ("payment_method", "cc")].

(** Alice is on a ride with the driver Dave, fare 60. *)
Definition sample_ride_store : Store :=
  with_rides
    (λ _, {[ "ride1" := {| r_userId := "alice"; r_status := "on_trip";
                           r_paymentStatus := None; r_driverId := Some "dave";
                           r_estimatedFareZAR := Some 60%float; r_updatedAt := 2%Z |} ]})
    sample_store.

(** A notification for [pay1] that reports a failed payment, with its MD5
    signature. *)
Definition sample_failed_itn : ITNRequest :=
  {| req_method := "POST";
     req_raw :=
       Some ("m_payment_id=pay1&payment_status=FAILED"
             ++ "&signature=866feba4449ee7db10828901b2953a50");
     req_body := None |}.

(** [pay1] once its gateway payment id is known, still PENDING. *)
Definition sample_store_known_pf : Store :=
  with_pending
    (λ m, <["pay1" := {| pp_uid := "alice"; pp_amount := 100; pp_currency := "ZAR";
                         pp_status := PENDING; pp_createdAt := 1%Z;
                         pp_completedAt := None; pp_pfPaymentId := Some "1089250";
                         pp_paymentMethod := None;
                         pp_payfastData_pf_payment_id := None;
                         pp_paymentData := [] |}]> m)
    sample_store.

(** A gateway that validates every query and reports the payment as
    complete. *)
Definition sample_gateway (url : string) : string + string :=
  if String.prefix "https://sandbox.payfast.co.za/eng/query/validate?" url
  then inl "VALID"
  else inl "pf_payment_id=1089250&payment_status=COMPLETE&amount_gross=100.00&payment_method=cc".


(** * Properties *)

(** ** Numbers

    Facts about doubles, proved from the specification of the primitive
    operations ([SpecFloat]). *)

Lemma iter_pos_invariant {A} (f : A → A) (P : A → Prop) :
  (∀ x, P x → P (f x)) → ∀ n x, P x → P (SpecFloat.iter_pos f n x).
Proof.
  intros Hf n. induction n as [n IH|n IH|]; intros x Hx; cbn [SpecFloat.iter_pos]; auto.
Qed.

Lemma shr_1_nonneg (mrs : shr_record) : (0 ≤ shr_m mrs)%Z → (0 ≤ shr_m (shr_1 mrs))%Z.
Proof.
  destruct mrs as [m r s]. cbn [shr_m]. intros Hm.
  destruct m as [|[p|p|]|p]; cbn; lia.
Qed.

Lemma shr_fexp_nonneg (m e : Z) (l : location) :
  (0 ≤ m)%Z → (0 ≤ shr_m (shr_fexp prec emax m e l).1)%Z.
Proof.
  intros Hm. unfold shr_fexp, shr.
  assert (0 ≤ shr_m (shr_record_of_loc m l))%Z as H0.
  { by destruct l as [|[]]. }
  destruct (_ - e)%Z as [|p|p]; cbn [fst]; [done| |done].
  apply (iter_pos_invariant shr_1 (λ r, (0 ≤ shr_m r)%Z)); [apply shr_1_nonneg | done].
Qed.

Lemma round_nearest_even_nonneg (m : Z) (l : location) :
  (0 ≤ m)%Z → (0 ≤ round_nearest_even m l)%Z.
Proof.
  intros Hm. destruct l as [|[]]; cbn; [done| |done|lia].
  destruct (Z.even m); lia.
Qed.

Lemma binary_round_aux_nonneg (m e : Z) (l : location) :
  (0 ≤ m)%Z → SFnonneg (binary_round_aux prec emax false m e l).
Proof.
  intros Hm. unfold SFnonneg, binary_round_aux.
  pose proof (shr_fexp_nonneg m e l Hm) as H1.
  destruct (shr_fexp prec emax m e l) as [mrs' e']. cbn [fst] in H1.
  pose proof (shr_fexp_nonneg _ e' loc_Exact
                (round_nearest_even_nonneg _ (loc_of_shr_record mrs') H1)) as H2.
  destruct (shr_fexp prec emax _ e' loc_Exact) as [mrs'' e'']. cbn [fst] in H2.
  destruct (shr_m mrs'') as [|p|p]; [done| |lia].
  by destruct (_ <=? _)%Z.
Qed.

Lemma binary_round_nonneg (m : positive) (e : Z) :
  SFnonneg (binary_round prec emax false m e).
Proof.
  unfold binary_round. destruct (shl_align _ _ _) as [mz ez].
  by apply binary_round_aux_nonneg.
Qed.

Lemma SFadd_nonneg (x y : spec_float) :
  SFnonneg x → SFnonneg y → SFnonneg (SF64add x y).
Proof.
  unfold SFnonneg.
  destruct x as [sx|[]| |[] mx ex], y as [sy|[]| |[] my ey]; try done.
  - by destruct sx, sy.
  - intros _ _. unfold SF64add, SFadd, binary_normalize. cbn [cond_Zopp].
    apply (binary_round_nonneg _ _).
Qed.

Lemma add_nonneg (x y : float) : nonneg x → nonneg y → nonneg (x + y).
Proof.
  unfold nonneg. rewrite !FloatAxioms.leb_spec, FloatAxioms.add_spec.
  change (Prim2SF 0) with (S754_zero false). apply SFadd_nonneg.
Qed.

Lemma digits2_pos_bounds (m : positive) :
  (2 ^ (Z.pos (digits2_pos m) - 1) ≤ Z.pos m < 2 ^ Z.pos (digits2_pos m))%Z.
Proof.
  induction m as [m IH|m IH|]; cbn [digits2_pos].
  - rewrite Pos2Z.inj_succ.
    replace (Z.succ (Z.pos (digits2_pos m)) - 1)%Z with (Z.succ (Z.pos (digits2_pos m) - 1))%Z
      by lia.
    rewrite !Z.pow_succ_r by lia. lia.
  - rewrite Pos2Z.inj_succ.
    replace (Z.succ (Z.pos (digits2_pos m)) - 1)%Z with (Z.succ (Z.pos (digits2_pos m) - 1))%Z
      by lia.
    rewrite !Z.pow_succ_r by lia. lia.
  - cbn. lia.
Qed.

Lemma iter_xO_pow (m d : positive) :
  Z.pos (Pos.iter xO m d) = (Z.pos m * 2 ^ Z.pos d)%Z.
Proof.
  induction d as [|d IH] using Pos.peano_ind.
  - cbn. lia.
  - rewrite Pos.iter_succ, Pos2Z.inj_xO, IH, Pos2Z.inj_succ, Z.pow_succ_r by lia. lia.
Qed.

(** The mantissa of a valid finite number has at most 53 digits, and
    exactly 53 unless the exponent is the least one. *)
Lemma valid_binary_digits (s : bool) (m : positive) (e : Z) :
  valid_binary (S754_finite s m e) = true →
  (SpecFloat.emin prec emax ≤ e)%Z ∧ (Z.pos (digits2_pos m) ≤ prec)%Z ∧
  (SpecFloat.emin prec emax < e → Z.pos (digits2_pos m) = prec)%Z.
Proof.
  cbn [SpecFloat.valid_binary]. unfold bounded, canonical_mantissa, fexp.
  intros [Hc _]%andb_prop. apply Z.eqb_eq in Hc. lia.
Qed.

Lemma SFsub_nonneg (x y : spec_float) :
  valid_binary x = true → valid_binary y = true →
  SFnonneg y → SFleb y x = true → y ≠ S754_infinity false →
  SFnonneg (SF64sub x y).
Proof.
  unfold SFnonneg. intros Hvx Hvy Hy Hle Hfin.
  destruct x as [sx|[]| |[] mx ex], y as [sy|[]| |[] my ey]; try done.
  - by destruct sx, sy.
  - unfold SF64sub, SFsub. cbn [cond_Zopp].
    apply valid_binary_digits in Hvx as (Hex & Hdx & Hnx).
    apply valid_binary_digits in Hvy as (Hey & Hdy & Hny).
    pose proof (digits2_pos_bounds mx) as Hbx.
    pose proof (digits2_pos_bounds my) as Hby.
    assert (Z.pos (shl_align my ey (Z.min ex ey)).1
            ≤ Z.pos (shl_align mx ex (Z.min ex ey)).1)%Z as Hm.
    { unfold SFleb, SFcompare in Hle.
      destruct (Z.compare_spec ey ex) as [->|Hlt|Hgt]; [| |done].
      - rewrite Z.min_id. unfold shl_align. rewrite Z.sub_diag. cbn [fst].
        rewrite Pos.compare_cont_spec in Hle.
        destruct (Pos.compare_spec my mx) as [->|?|?]; cbn in Hle; [lia|lia|done].
      - rewrite Z.min_r by lia. unfold shl_align. rewrite Z.sub_diag. cbn [fst].
        destruct (ey - ex)%Z as [|d|d] eqn:Hd; [lia|lia|]. cbn [fst].
        rewrite iter_xO_pow.
        rewrite Hnx in Hbx by lia.
        assert (Z.pos my < 2 ^ prec)%Z as Hmy.
        { eapply Z.lt_le_trans; [apply Hby|]. apply Z.pow_le_mono_r; lia. }
        assert (2 ^ 1 ≤ 2 ^ Z.pos d)%Z as H2 by (apply Z.pow_le_mono_r; lia).
        change (2 ^ 1)%Z with 2%Z in H2.
        change (2 ^ prec)%Z with (2 ^ (prec - 1) * 2)%Z in Hmy.
        nia. }
    clear Hbx Hby.
    destruct (Z.pos (shl_align mx ex (Z.min ex ey)).1
              - Z.pos (shl_align my ey (Z.min ex ey)).1)%Z as [|p|p] eqn:Hdiff;
      [reflexivity | apply (binary_round_nonneg _ _) | lia].
Qed.

(** Two numbers of which neither is [NaN] are comparable. *)
Lemma SFcompare_antisym (x y : spec_float) :
  SFcompare y x = CompOpp <$> SFcompare x y.
Proof.
  destruct x as [[]|[]| |[] mx ex], y as [[]|[]| |[] my ey]; try reflexivity.
  all: cbn [SFcompare fmap option_fmap option_map]; f_equal.
  all: rewrite (Z.compare_antisym ex ey); destruct (ex ?= ey)%Z; cbn [CompOpp]; try done.
  all: rewrite !Pos.compare_cont_spec; cbn [Pos.switch_Eq].
  all: rewrite (Pos.compare_antisym mx my); by destruct (mx ?= my)%positive.
Qed.

Lemma sub_nonneg (x y : float) :
  nonneg y → (y <=? x)%float = true → (y <? infinity)%float = true → nonneg (x - y).
Proof.
  unfold nonneg. rewrite !FloatAxioms.leb_spec, FloatAxioms.ltb_spec, FloatAxioms.sub_spec.
  change (Prim2SF 0) with (S754_zero false).
  change (Prim2SF infinity) with (S754_infinity false).
  intros Hy Hle Hfin. apply SFsub_nonneg; try done; try apply Prim2SF_valid.
  intros E. rewrite E in Hfin. done.
Qed.

Lemma is_nan_spec (x : float) : is_nan x = true ↔ Prim2SF x = S754_nan.
Proof.
  unfold is_nan. rewrite FloatAxioms.eqb_spec. unfold SFeqb.
  destruct (Prim2SF x) as [[]|[]| |[] m e]; cbn; try (split; by intros).
  - rewrite Z.compare_refl, Pos.compare_cont_spec, Pos.compare_refl. by split.
  - rewrite Z.compare_refl, Pos.compare_cont_spec, Pos.compare_refl. by split.
Qed.

(** Two numbers of which neither is [NaN] are comparable. *)
Lemma ltb_false_leb (x y : float) :
  is_nan x = false → is_nan y = false → (x <? y)%float = false → (y <=? x)%float = true.
Proof.
  rewrite <- !not_true_iff_false, !is_nan_spec.
  rewrite FloatAxioms.ltb_spec, FloatAxioms.leb_spec. unfold SFltb, SFleb.
  rewrite (SFcompare_antisym (Prim2SF x) (Prim2SF y)).
  destruct (Prim2SF x) as [[]|[]| |[] mx ex], (Prim2SF y) as [[]|[]| |[] my ey];
    try done; cbn [SFcompare fmap option_fmap option_map CompOpp].
  all: intros _ _; destruct (ex ?= ey)%Z; try done.
  all: by destruct (Pos.compare_cont Eq mx my).
Qed.

Lemma leb_not_nan (x y : float) :
  (x <=? y)%float = true → is_nan x = false ∧ is_nan y = false.
Proof.
  rewrite FloatAxioms.leb_spec. rewrite <- !not_true_iff_false, !is_nan_spec.
  unfold SFleb. destruct (Prim2SF x), (Prim2SF y); try done.
Qed.

Lemma ltb_not_nan (x y : float) :
  (x <? y)%float = true → is_nan x = false ∧ is_nan y = false.
Proof.
  rewrite FloatAxioms.ltb_spec. rewrite <- !not_true_iff_false, !is_nan_spec.
  unfold SFltb. destruct (Prim2SF x), (Prim2SF y); try done.
Qed.

Lemma ltb_leb (x y : float) : (x <? y)%float = true → (x <=? y)%float = true.
Proof.
  rewrite FloatAxioms.ltb_spec, FloatAxioms.leb_spec. unfold SFltb, SFleb.
  by destruct (SFcompare _ _) as [[]|].
Qed.

Lemma ltb_leb_false (x y : float) : (x <? y)%float = true → (y <=? x)%float = false.
Proof.
  rewrite FloatAxioms.ltb_spec, FloatAxioms.leb_spec. unfold SFltb, SFleb.
  rewrite (SFcompare_antisym (Prim2SF x) (Prim2SF y)).
  by destruct (SFcompare _ _) as [[]|].
Qed.

Lemma leb_false_ltb (x y : float) :
  is_nan x = false → is_nan y = false → (x <=? y)%float = false → (y <? x)%float = true.
Proof.
  rewrite <- !not_true_iff_false, !is_nan_spec.
  rewrite FloatAxioms.ltb_spec, FloatAxioms.leb_spec. unfold SFltb, SFleb.
  rewrite (SFcompare_antisym (Prim2SF x) (Prim2SF y)).
  destruct (SFcompare (Prim2SF x) (Prim2SF y)) as [[]|] eqn:E; try done.
  intros Hx Hy _. exfalso.
  destruct (Prim2SF x) as [[]|[]| |[] mx ex], (Prim2SF y) as [[]|[]| |[] my ey]; done.
Qed.

Lemma leb_ltb_false (x y : float) : (y <=? x)%float = true → (x <? y)%float = false.
Proof.
  rewrite FloatAxioms.ltb_spec, FloatAxioms.leb_spec. unfold SFltb, SFleb.
  rewrite (SFcompare_antisym (Prim2SF x) (Prim2SF y)).
  by destruct (SFcompare _ _) as [[]|].
Qed.

Lemma ltb_eqb_false (x y : float) : (x <? y)%float = true → (y =? x)%float = false.
Proof.
  rewrite FloatAxioms.ltb_spec, FloatAxioms.eqb_spec. unfold SFltb, SFeqb.
  rewrite (SFcompare_antisym (Prim2SF x) (Prim2SF y)).
  by destruct (SFcompare _ _) as [[]|].
Qed.

Lemma leb_refl (x : float) : is_nan x = false → (x <=? x)%float = true.
Proof.
  rewrite <- not_true_iff_false, is_nan_spec, FloatAxioms.leb_spec. unfold SFleb.
  destruct (Prim2SF x) as [[]|[]| |[] m e]; try done; intros _; cbn.
  all: by rewrite Z.compare_refl, Pos.compare_cont_spec, Pos.compare_refl.
Qed.

Lemma nonneg_not_nan (x : float) : nonneg x → is_nan x = false.
Proof. intros H. by apply leb_not_nan in H as [_ ?]. Qed.

Lemma SFsub_add_opp (x y : spec_float) : SF64sub x y = SF64add x (SFopp y).
Proof.
  destruct x as [[]|[]| |sx mx ex], y as [[]|[]| |sy my ey]; try reflexivity.
  unfold SF64sub, SF64add, SFsub, SFadd, SFopp. f_equal.
  destruct sx, sy; cbn [cond_Zopp negb]; lia.
Qed.

Lemma add_opp (x y : float) : (x + - y = x - y)%float.
Proof.
  apply Prim2SF_inj. by rewrite FloatAxioms.add_spec, FloatAxioms.sub_spec, FloatAxioms.opp_spec, SFsub_add_opp.
Qed.

(** ** [x || 0] *)

Lemma num_or_nonneg (b : float) : nonneg b → nonneg (num_or b 0).
Proof. intros H. unfold num_or. by destruct (num_falsy b). Qed.

Lemma num_or_not_nan (b : float) : is_nan (num_or b 0) = false.
Proof.
  unfold num_or, num_falsy. destruct (b =? 0)%float; [done|].
  cbn [orb]. by destruct (is_nan b) eqn:E.
Qed.

(** A balance that covers a positive amount is the stored number. *)
Lemma num_or_covers (b amt : float) :
  (0 <? amt)%float = true → (num_or b 0 <? amt)%float = false → num_or b 0 = b.
Proof.
  intros Hpos Hlt. unfold num_or in *. destruct (num_falsy b); [|done].
  congruence.
Qed.

(** ** Exact values *)

Lemma valid_finite (s : bool) (m : positive) (e : Z) :
  valid_binary (S754_finite s m e) = true →
  (-1074 ≤ e ≤ 971)%Z ∧ (Z.pos (digits2_pos m) ≤ 53)%Z ∧
  ((-1074 < e)%Z → Z.pos (digits2_pos m) = 53%Z).
Proof.
  cbn [SpecFloat.valid_binary]. unfold bounded, canonical_mantissa, fexp.
  change (SpecFloat.emin prec emax) with (-1074)%Z.
  change prec with 53%Z. change (emax - 53)%Z with 971%Z.
  intros [Hc He]%andb_prop. apply Z.eqb_eq in Hc. apply Z.leb_le in He. lia.
Qed.

Lemma pow2_pos (k : Z) : (0 ≤ k → 0 < 2 ^ k)%Z.
Proof. intros. by apply Z.pow_pos_nonneg. Qed.

Lemma pow2_split (a b : Z) : (0 ≤ a → 0 ≤ b → 2 ^ (a + b) = 2 ^ a * 2 ^ b)%Z.
Proof. intros. by apply Z.pow_add_r. Qed.

(** The mantissa of a valid finite number against the powers of two. *)
Lemma valid_mantissa_bounds (s : bool) (m : positive) (e : Z) :
  valid_binary (S754_finite s m e) = true →
  (Z.pos m < 2 ^ 53)%Z ∧ ((-1074 < e)%Z → (2 ^ 52 ≤ Z.pos m)%Z).
Proof.
  intros Hv. destruct (valid_finite s m e Hv) as (_ & Hd & Hn).
  pose proof (digits2_pos_bounds m) as [Hlo Hhi].
  split.
  - eapply Z.lt_le_trans; [exact Hhi|]. apply Z.pow_le_mono_r; lia.
  - intros He. rewrite (Hn He) in Hlo. exact Hlo.
Qed.

(** On valid numbers that are not negative, the order of the runtime is
    the order of the values. *)
Lemma SFcompare_value (x y : spec_float) :
  valid_binary x = true → valid_binary y = true →
  SFfinite_nonneg x = true → SFfinite_nonneg y = true →
  SFcompare x y = Some (SF2Z x ?= SF2Z y)%Z.
Proof.
  intros Hvx Hvy Hx Hy.
  destruct x as [sx| | |[] mx ex], y as [sy| | |[] my ey]; try done; cbn [SF2Z cond_Zopp].
  - cbn [SFcompare]. f_equal. symmetry. apply Z.compare_lt_iff.
    destruct (valid_finite _ _ _ Hvy) as ([? ?] & _).
    pose proof (pow2_pos (ey + 1074) ltac:(lia)). nia.
  - cbn [SFcompare]. f_equal. symmetry. apply Z.compare_gt_iff.
    destruct (valid_finite _ _ _ Hvx) as ([? ?] & _).
    pose proof (pow2_pos (ex + 1074) ltac:(lia)). nia.
  - cbn [SFcompare]. f_equal.
    destruct (valid_finite _ _ _ Hvx) as ([Hex ?] & _).
    destruct (valid_finite _ _ _ Hvy) as ([Hey ?] & _).
    destruct (valid_mantissa_bounds _ _ _ Hvx) as [Hxhi Hxlo].
    destruct (valid_mantissa_bounds _ _ _ Hvy) as [Hyhi Hylo].
    pose proof (pow2_pos (ex + 1074) ltac:(lia)) as Hpx.
    pose proof (pow2_pos (ey + 1074) ltac:(lia)) as Hpy.
    destruct (Z.compare_spec ex ey) as [->|Hlt|Hgt].
    + rewrite Pos.compare_cont_spec. cbn [Pos.switch_Eq].
      change (mx ?= my)%positive with (Z.pos mx ?= Z.pos my)%Z.
      destruct (Z.compare_spec (Z.pos mx) (Z.pos my)) as [E|E|E]; symmetry.
      * apply Z.compare_eq_iff. by rewrite E.
      * apply Z.compare_lt_iff. by apply Z.mul_lt_mono_pos_r.
      * apply Z.compare_gt_iff. by apply Z.mul_lt_mono_pos_r.
    + symmetry. apply Z.compare_lt_iff.
      replace (ey + 1074)%Z with ((ex + 1074) + (ey - ex))%Z by lia.
      rewrite (pow2_split (ex + 1074) (ey - ex)) by lia.
      assert (2 ^ 1 ≤ 2 ^ (ey - ex))%Z as H1 by (apply Z.pow_le_mono_r; lia).
      change (2 ^ 1)%Z with 2%Z in H1.
      specialize (Hylo ltac:(lia)).
      change (2 ^ 53)%Z with (2 ^ 52 * 2)%Z in Hxhi.
      apply Z.lt_le_trans with (2 ^ 52 * 2 * 2 ^ (ex + 1074))%Z;
        [by apply Z.mul_lt_mono_pos_r|].
      rewrite (Z.mul_comm (2 ^ (ex + 1074))), Z.mul_assoc.
      apply Z.mul_le_mono_nonneg_r; [lia|].
      apply Z.mul_le_mono_nonneg; lia.
    + symmetry. apply Z.compare_gt_iff.
      replace (ex + 1074)%Z with ((ey + 1074) + (ex - ey))%Z by lia.
      rewrite (pow2_split (ey + 1074) (ex - ey)) by lia.
      assert (2 ^ 1 ≤ 2 ^ (ex - ey))%Z as H1 by (apply Z.pow_le_mono_r; lia).
      change (2 ^ 1)%Z with 2%Z in H1.
      specialize (Hxlo ltac:(lia)).
      change (2 ^ 53)%Z with (2 ^ 52 * 2)%Z in Hyhi.
      apply Z.lt_le_trans with (2 ^ 52 * 2 * 2 ^ (ey + 1074))%Z;
        [by apply Z.mul_lt_mono_pos_r|].
      rewrite (Z.mul_comm (2 ^ (ey + 1074))), Z.mul_assoc.
      apply Z.mul_le_mono_nonneg_r; [lia|].
      apply Z.mul_le_mono_nonneg; lia.
Qed.

(** Two valid numbers that are not negative and have the same value,
    other than zero, are the same number. *)
Lemma SF2Z_inj (x y : spec_float) :
  valid_binary x = true → valid_binary y = true →
  SFfinite_nonneg x = true → SFfinite_nonneg y = true →
  SF2Z x = SF2Z y → (0 < SF2Z x)%Z → x = y.
Proof.
  intros Hvx Hvy Hx Hy Heq Hpos.
  pose proof (SFcompare_value x y Hvx Hvy Hx Hy) as Hc.
  rewrite Heq, Z.compare_refl in Hc.
  destruct x as [sx| | |[] mx ex], y as [sy| | |[] my ey]; try done;
    cbn [SF2Z cond_Zopp] in *; try lia.
  cbn [SFcompare] in Hc. injection Hc as Hc.
  destruct (Z.compare_spec ex ey) as [->|?|?]; [|done|done].
  rewrite Pos.compare_cont_spec in Hc.
  destruct (Pos.compare_spec mx my) as [->|?|?]; done.
Qed.

Lemma fexp_eq (k : Z) : fexp prec emax k = Z.max (k - 53) (-1074).
Proof. reflexivity. Qed.

(** The number of binary digits pins a number between two powers. *)
Lemma digits2_unique (m : positive) (d : Z) :
  (2 ^ (d - 1) ≤ Z.pos m < 2 ^ d)%Z → (1 ≤ d)%Z → Z.pos (digits2_pos m) = d.
Proof.
  intros [Hlo Hhi] Hd. pose proof (digits2_pos_bounds m) as [Hlo' Hhi'].
  destruct (Z.lt_trichotomy (Z.pos (digits2_pos m)) d) as [Hlt|[->|Hgt]]; [|done|].
  - assert (2 ^ Z.pos (digits2_pos m) ≤ 2 ^ (d - 1))%Z
      by (apply Z.pow_le_mono_r; lia). lia.
  - assert (2 ^ d ≤ 2 ^ (Z.pos (digits2_pos m) - 1))%Z
      by (apply Z.pow_le_mono_r; lia). lia.
Qed.

Lemma digits2_mul_pow (m p : positive) (k : Z) :
  (0 ≤ k)%Z → Z.pos p = (Z.pos m * 2 ^ k)%Z →
  Z.pos (digits2_pos p) = (Z.pos (digits2_pos m) + k)%Z.
Proof.
  intros Hk Hp. pose proof (digits2_pos_bounds m) as [Hlo Hhi].
  pose proof (pow2_pos k Hk) as Hpk.
  apply digits2_unique; [|lia]. rewrite Hp. split.
  - replace (Z.pos (digits2_pos m) + k - 1)%Z with ((Z.pos (digits2_pos m) - 1) + k)%Z by lia.
    rewrite (pow2_split (Z.pos (digits2_pos m) - 1) k) by lia.
    by apply Z.mul_le_mono_nonneg_r; [lia|].
  - rewrite (pow2_split (Z.pos (digits2_pos m)) k) by lia.
    by apply Z.mul_lt_mono_pos_r.
Qed.

Lemma digits2_div_pow (m p : positive) (k : Z) :
  (0 ≤ k)%Z → Z.pos p = (Z.pos m / 2 ^ k)%Z →
  Z.pos (digits2_pos p) = (Z.pos (digits2_pos m) - k)%Z.
Proof.
  intros Hk Hp. pose proof (digits2_pos_bounds m) as [Hlo Hhi].
  pose proof (pow2_pos k Hk) as Hpk.
  assert (k < Z.pos (digits2_pos m))%Z as Hkd.
  { destruct (Z.lt_ge_cases k (Z.pos (digits2_pos m))) as [|Hge]; [done|].
    assert (2 ^ Z.pos (digits2_pos m) ≤ 2 ^ k)%Z by (apply Z.pow_le_mono_r; lia).
    rewrite Z.div_small in Hp by lia. lia. }
  apply digits2_unique; [|lia]. rewrite Hp. split.
  - apply Z.div_le_lower_bound; [lia|].
    rewrite <- (pow2_split k (Z.pos (digits2_pos m) - k - 1)) by lia.
    by replace (k + (Z.pos (digits2_pos m) - k - 1))%Z with (Z.pos (digits2_pos m) - 1)%Z by lia.
  - apply Z.div_lt_upper_bound; [lia|].
    rewrite <- (pow2_split k (Z.pos (digits2_pos m) - k)) by lia.
    by replace (k + (Z.pos (digits2_pos m) - k))%Z with (Z.pos (digits2_pos m)) by lia.
Qed.

Lemma iter_pos_nat {A} (f : A → A) (p : positive) (x : A) :
  SpecFloat.iter_pos f p x = Nat.iter (Pos.to_nat p) f x.
Proof.
  revert x. induction p as [p IH|p IH|]; intros x; cbn [SpecFloat.iter_pos].
  - rewrite !IH, Pos2Nat.inj_xI.
    replace (S (2 * Pos.to_nat p)) with (Pos.to_nat p + (Pos.to_nat p + 1))%nat by lia.
    rewrite !Nat.iter_add. reflexivity.
  - rewrite !IH, Pos2Nat.inj_xO.
    replace (2 * Pos.to_nat p)%nat with (Pos.to_nat p + Pos.to_nat p)%nat by lia.
    by rewrite Nat.iter_add.
  - reflexivity.
Qed.

(** Shifting right: one step halves, and loses nothing of an even
    number. *)
Lemma shr_1_div2 (r : shr_record) :
  (0 ≤ shr_m r)%Z → shr_m (shr_1 r) = (shr_m r / 2)%Z.
Proof.
  destruct r as [[|[m|m|]|m] r s]; cbn [shr_m shr_1]; intros H; try lia;
    by rewrite <- Z.div2_div.
Qed.

Lemma shr_1_exact (r : shr_record) :
  (0 ≤ shr_m r)%Z → (shr_m r mod 2 = 0)%Z → shr_r r = false → shr_s r = false →
  shr_r (shr_1 r) = false ∧ shr_s (shr_1 r) = false.
Proof.
  destruct r as [[|[m|m|]|m] r s]; cbn [shr_m shr_r shr_s shr_1];
    intros H Hm -> ->; try done.
  rewrite Pos2Z.inj_xI in Hm.
  rewrite Z.add_comm, Z.mul_comm, Z.mod_add in Hm by lia. done.
Qed.

Lemma shr_iter (n : nat) (r : shr_record) :
  (0 ≤ shr_m r)%Z →
  shr_m (Nat.iter n shr_1 r) = (shr_m r / 2 ^ Z.of_nat n)%Z ∧
  (shr_r r = false → shr_s r = false → (shr_m r mod 2 ^ Z.of_nat n = 0)%Z →
   shr_r (Nat.iter n shr_1 r) = false ∧ shr_s (Nat.iter n shr_1 r) = false).
Proof.
  intros Hm. induction n as [|n [IHm IHx]].
  - change (Nat.iter 0 shr_1 r) with r.
    change (2 ^ Z.of_nat 0)%Z with 1%Z. by rewrite Z.div_1_r.
  - change (Nat.iter (S n) shr_1 r) with (shr_1 (Nat.iter n shr_1 r)).
    assert (0 < 2 ^ Z.of_nat n)%Z as Hp by (apply pow2_pos; lia).
    assert (0 ≤ shr_m (Nat.iter n shr_1 r))%Z as Hn.
    { rewrite IHm. apply Z.div_pos; lia. }
    rewrite Nat2Z.inj_succ, Z.pow_succ_r by lia. split.
    + rewrite shr_1_div2, IHm, Z.div_div by lia. f_equal. lia.
    + intros Hr Hs Hmod.
      assert (shr_m r mod 2 ^ Z.of_nat n = 0)%Z as Hmod'.
      { apply Z.mod_divide; [lia|]. apply Z.mod_divide in Hmod; [|lia].
        destruct Hmod as [k Hk]. exists (k * 2)%Z. lia. }
      destruct (IHx Hr Hs Hmod') as [Hr' Hs'].
      apply shr_1_exact; [done| |done|done].
      rewrite IHm. apply Z.mod_divide in Hmod; [|lia]. destruct Hmod as [k Hk].
      rewrite Hk. replace (k * (2 * 2 ^ Z.of_nat n))%Z with (k * 2 * 2 ^ Z.of_nat n)%Z by lia.
      rewrite Z.div_mul by lia. by rewrite Z.mod_mul.
Qed.

(** The first step of rounding: the mantissa is shifted right to the
    exponent of the format, and the shift is exact when it drops only
    zeros. *)
Lemma shr_fexp_spec (m E : Z) :
  (0 ≤ m)%Z →
  let fe := Z.max E (fexp prec emax (Zdigits2 m + E)) in
  ∃ r, shr_fexp prec emax m E loc_Exact = (r, fe) ∧
       shr_m r = (m / 2 ^ (fe - E))%Z ∧
       ((m mod 2 ^ (fe - E) = 0)%Z → loc_of_shr_record r = loc_Exact).
Proof.
  intros Hm fe. unfold shr_fexp, shr. cbn [shr_record_of_loc].
  destruct (fexp prec emax (Zdigits2 m + E) - E)%Z as [|p|p] eqn:Hn.
  - exists (Build_shr_record m false false). cbn [shr_m loc_of_shr_record].
    replace fe with E by (unfold fe; lia).
    rewrite Z.sub_diag. change (2 ^ 0)%Z with 1%Z. by rewrite Z.div_1_r.
  - rewrite iter_pos_nat.
    destruct (shr_iter (Pos.to_nat p) (Build_shr_record m false false) Hm) as [H1 H2].
    rewrite positive_nat_Z in H1, H2. cbn [shr_m shr_r shr_s] in H1, H2.
    replace fe with (E + Z.pos p)%Z by (unfold fe; lia).
    replace (E + Z.pos p - E)%Z with (Z.pos p) by lia.
    eexists. split; [reflexivity|]. split; [exact H1|].
    intros Hmod. destruct (H2 eq_refl eq_refl Hmod) as [Hr Hs].
    destruct (Nat.iter _ _ _) as [m' r' s']. cbn [shr_r shr_s] in Hr, Hs.
    by subst.
  - exists (Build_shr_record m false false). cbn [shr_m loc_of_shr_record].
    replace fe with E by (unfold fe; lia).
    rewrite Z.sub_diag. change (2 ^ 0)%Z with 1%Z. by rewrite Z.div_1_r.
Qed.

Lemma round_nearest_even_bounds (m : Z) (l : location) :
  (m ≤ round_nearest_even m l ≤ m + 1)%Z ∧ round_nearest_even m loc_Exact = m.
Proof.
  split; [|done]. destruct l as [|[]]; cbn [round_nearest_even]; try lia.
  destruct (Z.even m); lia.
Qed.

(** Rounding a positive mantissa, in two steps: [m2] is the mantissa at
    the exponent of the format, rounded to nearest; the second step
    renormalises it. *)
Lemma binary_round_aux_spec (s : bool) (P : positive) (E : Z) :
  let fe := Z.max E (fexp prec emax (Z.pos (digits2_pos P) + E)) in
  ∃ m2 : Z,
    (Z.pos P / 2 ^ (fe - E) ≤ m2 ≤ Z.pos P / 2 ^ (fe - E) + 1)%Z ∧
    ((Z.pos P mod 2 ^ (fe - E) = 0)%Z → m2 = (Z.pos P / 2 ^ (fe - E))%Z) ∧
    let e3 := Z.max fe (fexp prec emax (Zdigits2 m2 + fe)) in
    binary_round_aux prec emax s (Z.pos P) E loc_Exact =
      match (m2 / 2 ^ (e3 - fe))%Z with
      | Z0 => S754_zero s
      | Z.pos m => if (e3 <=? 971)%Z then S754_finite s m e3 else S754_infinity s
      | Z.neg _ => S754_nan
      end.
Proof.
  intros fe. unfold binary_round_aux.
  destruct (shr_fexp_spec (Z.pos P) E ltac:(lia)) as (r & Hr & Hm & Hx).
  cbn [Zdigits2] in Hr, Hm, Hx. fold fe in Hr, Hm, Hx. rewrite Hr.
  set (m2 := round_nearest_even (shr_m r) (loc_of_shr_record r)).
  assert (0 < 2 ^ (fe - E))%Z as Hp by (apply pow2_pos; unfold fe; lia).
  assert (0 ≤ shr_m r)%Z as Hr0 by (rewrite Hm; apply Z.div_pos; lia).
  pose proof (round_nearest_even_bounds (shr_m r) (loc_of_shr_record r)) as [Hb _].
  fold m2 in Hb.
  exists m2. split; [rewrite <- Hm; exact Hb|]. split.
  { intros Hmod. unfold m2. rewrite (Hx Hmod). cbn [round_nearest_even]. exact Hm. }
  destruct (shr_fexp_spec m2 fe ltac:(lia)) as (r3 & Hr3 & Hm3 & _).
  cbv zeta. rewrite Hr3, Hm3. reflexivity.
Qed.

Lemma digits2_same_value (p k : positive) (a b : Z) :
  (0 ≤ a)%Z → (0 ≤ b)%Z → (Z.pos p * 2 ^ a = Z.pos k * 2 ^ b)%Z →
  (Z.pos (digits2_pos p) + a = Z.pos (digits2_pos k) + b)%Z.
Proof.
  intros Ha Hb Heq.
  pose proof (pow2_pos a Ha). 
  destruct (Z.pos p * 2 ^ a)%Z as [|q|q] eqn:Hq; [lia| |lia].
  rewrite <- (digits2_mul_pow p q a Ha) by done.
  by rewrite <- (digits2_mul_pow k q b Hb).
Qed.

(** A mantissa that is already at or below the exponent of the format,
    and whose value a finite number can have, is rounded to that value. *)
Lemma binary_round_aux_value (s : bool) (P : positive) (E : Z) :
  (-1074 ≤ E)%Z → representable (Z.pos P * 2 ^ (E + 1074)) →
  (E ≤ fexp prec emax (Z.pos (digits2_pos P) + E))%Z →
  ∃ m e, binary_round_aux prec emax s (Z.pos P) E loc_Exact = S754_finite s m e ∧
         (Z.pos m * 2 ^ (e + 1074) = Z.pos P * 2 ^ (E + 1074))%Z.
Proof.
  intros HE (K & g & Hg & HK & HT) Hfx.
  pose proof (pow2_pos (E + 1074) ltac:(lia)) as HpE.
  pose proof (pow2_pos (g + 1074) ltac:(lia)) as Hpg.
  destruct K as [|k|k]; [lia| |lia].
  pose proof (digits2_same_value P k (E + 1074) (g + 1074) ltac:(lia) ltac:(lia) HT) as Hd.
  assert (Z.pos (digits2_pos k) ≤ 53)%Z as Hdk.
  { pose proof (digits2_pos_bounds k) as [Hlo _].
    destruct (Z.le_gt_cases (Z.pos (digits2_pos k)) 53) as [|Hgt]; [done|].
    assert (2 ^ 53 ≤ 2 ^ (Z.pos (digits2_pos k) - 1))%Z by (apply Z.pow_le_mono_r; lia).
    lia. }
  destruct (binary_round_aux_spec s P E) as (m2 & _ & Hm2 & Hres).
  rewrite fexp_eq in Hfx.
  set (fx := fexp prec emax (Z.pos (digits2_pos P) + E)) in *.
  assert (fx = Z.max (Z.pos (digits2_pos P) + E - 53) (-1074)) as Hfxe by apply fexp_eq.
  replace (Z.max E fx) with fx in Hm2, Hres by lia.
  assert (0 < 2 ^ (fx - E))%Z as Hpf by (apply pow2_pos; lia).
  assert (Z.pos P = Z.pos P / 2 ^ (fx - E) * 2 ^ (fx - E))%Z as Hdiv.
  { destruct (Z.eq_dec fx E) as [->|Hne].
    - rewrite Z.sub_diag. change (2 ^ 0)%Z with 1%Z. rewrite Z.div_1_r. lia.
    - assert (fx ≤ g)%Z by lia.
      assert (Z.pos P = Z.pos k * 2 ^ (g - fx) * 2 ^ (fx - E))%Z as ->.
      { rewrite <- Z.mul_assoc, <- pow2_split by lia.
        replace (g + 1074)%Z with ((g - fx + (fx - E)) + (E + 1074))%Z in HT by lia.
        rewrite (pow2_split (g - fx + (fx - E)) (E + 1074)) in HT by lia.
        rewrite Z.mul_assoc in HT. by apply Z.mul_cancel_r in HT; [|lia]. }
      by rewrite Z.div_mul by lia. }
  assert (Z.pos P mod 2 ^ (fx - E) = 0)%Z as Hmod.
  { rewrite Hdiv. by rewrite Z.mod_mul by lia. }
  specialize (Hm2 Hmod).
  destruct m2 as [|p2|p2]; [lia| |lia].
  assert (Z.pos (digits2_pos p2) = Z.pos (digits2_pos P) - (fx - E))%Z as Hd2
    by (apply digits2_div_pow; [lia|done]).
  cbn [Zdigits2] in Hres.
  assert (fexp prec emax (Z.pos (digits2_pos p2) + fx) = fx) as Hfx2.
  { rewrite fexp_eq, Hd2. lia. }
  rewrite Hfx2, Z.max_id, Z.sub_diag in Hres.
  change (2 ^ 0)%Z with 1%Z in Hres. rewrite Z.div_1_r in Hres.
  assert ((fx <=? 971)%Z = true) as Hle by (apply Z.leb_le; lia).
  rewrite Hle in Hres. exists p2, fx. split; [exact Hres|].
  rewrite Hm2. rewrite Hdiv at 2.
  replace (fx + 1074)%Z with ((fx - E) + (E + 1074))%Z by lia.
  rewrite (pow2_split (fx - E) (E + 1074)) by lia. lia.
Qed.

Lemma binary_round_value (s : bool) (P : positive) (E : Z) :
  (-1074 ≤ E)%Z → representable (Z.pos P * 2 ^ (E + 1074)) →
  ∃ m e, binary_round prec emax s P E = S754_finite s m e ∧
         (Z.pos m * 2 ^ (e + 1074) = Z.pos P * 2 ^ (E + 1074))%Z.
Proof.
  intros HE Hrep. unfold binary_round, shl_align.
  assert (fexp prec emax (Z.pos (digits2_pos P) + E) =
          Z.max (Z.pos (digits2_pos P) + E - 53) (-1074)) as Hfxe by apply fexp_eq.
  set (fx := fexp prec emax (Z.pos (digits2_pos P) + E)) in *.
  destruct (fx - E)%Z as [|d|d] eqn:Hn.
  - apply binary_round_aux_value; [done|done|]. fold fx. lia.
  - apply binary_round_aux_value; [done|done|]. fold fx. lia.
  - pose proof (iter_xO_pow P d) as Hmz.
    set (mz := Pos.iter xO P d) in *.
    assert (Z.pos mz * 2 ^ (fx + 1074) = Z.pos P * 2 ^ (E + 1074))%Z as Hval.
    { rewrite Hmz. replace (E + 1074)%Z with (Z.pos d + (fx + 1074))%Z by lia.
      rewrite (pow2_split (Z.pos d) (fx + 1074)) by lia. lia. }
    destruct (binary_round_aux_value s mz fx) as (m & e & Hr & Hv).
    + lia.
    + by rewrite Hval.
    + rewrite (digits2_mul_pow P mz (Z.pos d)) by (lia || done).
      rewrite fexp_eq. lia.
    + exists m, e. split; [done|]. by rewrite Hv.
Qed.

(** Normalising an integer at an exponent is exact when a finite number
    can have the value. *)
Lemma binary_normalize_value (S E : Z) :
  (-1074 ≤ E)%Z → representable (S * 2 ^ (E + 1074)) →
  SF2Z (binary_normalize prec emax S E false) = (S * 2 ^ (E + 1074))%Z ∧
  match binary_normalize prec emax S E false with
  | S754_zero s => s = false ∧ S = 0%Z
  | S754_finite s _ _ => s = (S <? 0)%Z
  | _ => False
  end.
Proof.
  intros HE Hrep. destruct S as [|p|p]; cbn [binary_normalize].
  - done.
  - destruct (binary_round_value false p E HE Hrep) as (m & e & -> & Hv).
    cbn [SF2Z cond_Zopp]. done.
  - destruct (binary_round_value true p E HE) as (m & e & -> & Hv).
    + destruct Hrep as (K & g & Hg & HK & HT). exists (- K)%Z, g.
      split; [done|]. split; [lia|]. lia.
    + cbn [SF2Z cond_Zopp]. split; [|done]. rewrite Hv. lia.
Qed.

Lemma shl_align_fst (m : positive) (e ez : Z) :
  (ez ≤ e)%Z → Z.pos (shl_align m e ez).1 = (Z.pos m * 2 ^ (e - ez))%Z.
Proof.
  intros Hle. unfold shl_align. destruct (ez - e)%Z as [|d|d] eqn:Hd; cbn [fst].
  - replace (e - ez)%Z with 0%Z by lia. change (2 ^ 0)%Z with 1%Z. lia.
  - lia.
  - rewrite iter_xO_pow. do 2 f_equal. lia.
Qed.

Lemma cond_Zopp_mul (s : bool) (a b : Z) : (cond_Zopp s a * b = cond_Zopp s (a * b))%Z.
Proof. destruct s; cbn [cond_Zopp]; lia. Qed.

Lemma SF2Z_aligned (s : bool) (m : positive) (e ez : Z) :
  (-1074 ≤ ez ≤ e)%Z →
  (cond_Zopp s (Z.pos (shl_align m e ez).1) * 2 ^ (ez + 1074))%Z
  = SF2Z (S754_finite s m e).
Proof.
  intros Hle. rewrite shl_align_fst by lia. cbn [SF2Z].
  rewrite cond_Zopp_mul. f_equal. rewrite <- Z.mul_assoc. f_equal.
  rewrite <- pow2_split by lia. f_equal. lia.
Qed.

(** Addition and subtraction are exact when a finite number can have the
    sum or the difference. *)
Lemma SFadd_value (x y : spec_float) :
  valid_binary x = true → valid_binary y = true →
  SFfinite x = true → SFfinite y = true →
  representable (SF2Z x + SF2Z y) →
  SF2Z (SF64add x y) = (SF2Z x + SF2Z y)%Z ∧ SFfinite (SF64add x y) = true ∧
  ((0 < SF2Z x + SF2Z y)%Z → SFfinite_nonneg (SF64add x y) = true).
Proof.
  intros Hvx Hvy Hx Hy Hrep. unfold SF64add.
  destruct x as [sx| | |sx mx ex], y as [sy| | |sy my ey]; try done.
  - destruct sx, sy; cbn; (split; [done|split; [done|lia]]).
  - cbn [SFadd]. split; [cbn [SF2Z]; lia|]. split; [done|].
    destruct sy; cbn [SF2Z cond_Zopp SFfinite_nonneg negb]; [lia|done].
  - cbn [SFadd]. split; [cbn [SF2Z]; lia|]. split; [done|].
    destruct sx; cbn [SF2Z cond_Zopp SFfinite_nonneg negb]; [lia|done].
  - cbn [SFadd].
    destruct (valid_finite _ _ _ Hvx) as ([? ?] & _).
    destruct (valid_finite _ _ _ Hvy) as ([? ?] & _).
    set (ez := Z.min ex ey).
    set (S := (cond_Zopp sx (Z.pos (shl_align mx ex ez).1) +
               cond_Zopp sy (Z.pos (shl_align my ey ez).1))%Z).
    assert (S * 2 ^ (ez + 1074) =
            SF2Z (S754_finite sx mx ex) + SF2Z (S754_finite sy my ey))%Z as HS.
    { unfold S. rewrite Z.mul_add_distr_r, !SF2Z_aligned by (unfold ez; lia). done. }
    rewrite <- HS in Hrep |- *.
    destruct (binary_normalize_value S ez ltac:(unfold ez; lia) Hrep) as [Hv Hs].
    split; [done|].
    pose proof (pow2_pos (ez + 1074) ltac:(unfold ez; lia)) as Hp.
    destruct (binary_normalize prec emax S ez false) as [s| | |s m e]; try done.
    split; [done|]. intros Hpos. cbn [SFfinite_nonneg]. subst s.
    assert (0 < S)%Z by nia. by destruct (Z.ltb_spec S 0); [lia|].
Qed.

Lemma SFsub_value (x y : spec_float) :
  valid_binary x = true → valid_binary y = true →
  SFfinite x = true → SFfinite y = true →
  representable (SF2Z x - SF2Z y) →
  SF2Z (SF64sub x y) = (SF2Z x - SF2Z y)%Z ∧ SFfinite (SF64sub x y) = true.
Proof.
  intros Hvx Hvy Hx Hy Hrep. rewrite SFsub_add_opp.
  assert (SF2Z (SFopp y) = - SF2Z y)%Z as Ho.
  { destruct y as [| | |[] m e]; cbn [SFopp SF2Z cond_Zopp negb]; lia. }
  destruct (SFadd_value x (SFopp y)) as (Hv & Hf & _); try done.
  - by destruct y as [| | |s m e].
  - by destruct y.
  - rewrite Ho. by replace (SF2Z x + - SF2Z y)%Z with (SF2Z x - SF2Z y)%Z by lia.
  - rewrite Hv, Ho. split; [lia|done].
Qed.

Lemma add_exact (x y : float) :
  SFfinite (Prim2SF x) = true → SFfinite (Prim2SF y) = true →
  representable (F2Z x + F2Z y) → F2Z (x + y) = (F2Z x + F2Z y)%Z.
Proof.
  intros Hx Hy Hrep. unfold F2Z in *. rewrite FloatAxioms.add_spec.
  by apply SFadd_value; try apply Prim2SF_valid.
Qed.

Lemma sub_exact (x y : float) :
  SFfinite (Prim2SF x) = true → SFfinite (Prim2SF y) = true →
  representable (F2Z x - F2Z y) → F2Z (x - y) = (F2Z x - F2Z y)%Z.
Proof.
  intros Hx Hy Hrep. unfold F2Z in *. rewrite FloatAxioms.sub_spec.
  by apply SFsub_value; try apply Prim2SF_valid.
Qed.

Lemma is_finite_SFfinite (x : float) :
  is_finite x = true → SFfinite (Prim2SF x) = true.
Proof.
  unfold is_finite, is_infinity. intros [Hnan Hinf]%negb_true_iff%orb_false_iff.
  apply not_true_iff_false in Hnan. rewrite is_nan_spec in Hnan.
  revert Hinf. rewrite FloatAxioms.eqb_spec, abs_spec.
  change (Prim2SF infinity) with (S754_infinity false).
  by destruct (Prim2SF x) as [[]|[]| |[] m e].
Qed.

Lemma digits2_le_pow (m : positive) (k : Z) :
  (Z.pos m < 2 ^ k)%Z → (0 ≤ k)%Z → (Z.pos (digits2_pos m) ≤ k)%Z.
Proof.
  intros Hm Hk. pose proof (digits2_pos_bounds m) as [Hlo _].
  destruct (Z.le_gt_cases (Z.pos (digits2_pos m)) k) as [|Hgt]; [done|].
  assert (2 ^ k ≤ 2 ^ (Z.pos (digits2_pos m) - 1))%Z by (apply Z.pow_le_mono_r; lia).
  lia.
Qed.

(** A product by a rate below one is not above the amount: rounding to
    nearest cannot step over a number of the format. *)
Lemma SFmul_le (ma : positive) (ea : Z) (r : spec_float) :
  valid_binary (S754_finite false ma ea) = true → valid_binary r = true →
  SFfinite_nonneg r = true → (SF2Z r < 2 ^ 1074)%Z →
  SFfinite_nonneg (SF64mul (S754_finite false ma ea) r) = true ∧
  (SF2Z (SF64mul (S754_finite false ma ea) r) ≤ SF2Z (S754_finite false ma ea))%Z.
Proof.
  intros Hva Hvr Hr Hlt1. unfold SF64mul.
  destruct (valid_finite _ _ _ Hva) as ([Hea1 Hea2] & Hda & _).
  assert (fexp prec emax (Z.pos (digits2_pos ma) + ea) = ea) as Hcan.
  { cbn [SpecFloat.valid_binary] in Hva. apply andb_prop in Hva as [Hc _].
    by apply Z.eqb_eq in Hc. }
  pose proof (pow2_pos (ea + 1074) ltac:(lia)) as Hpa.
  destruct r as [sr| | |[] mr er]; try done.
  { cbn [SFmul SFfinite_nonneg SF2Z cond_Zopp]. split; [done|lia]. }
  cbn [SFmul xorb SF2Z cond_Zopp] in *.
  destruct (valid_finite _ _ _ Hvr) as ([Her1 Her2] & _).
  set (n := (- er)%Z).
  assert (0 < n ∧ Z.pos mr < 2 ^ n)%Z as [Hn Hmr].
  { pose proof (pow2_pos (er + 1074) ltac:(lia)) as Hpr.
    assert (er < 0)%Z as Hneg.
    { destruct (Z.lt_ge_cases er 0) as [|Hge]; [done|].
      assert (2 ^ 1074 ≤ 2 ^ (er + 1074))%Z by (apply Z.pow_le_mono_r; lia). nia. }
    split; [unfold n; lia|].
    replace 1074%Z with (n + (er + 1074))%Z in Hlt1 at 2 by (unfold n; lia).
    rewrite (pow2_split n (er + 1074)) in Hlt1 by (unfold n; lia).
    by apply Z.mul_lt_mono_pos_r in Hlt1. }
  pose proof (pow2_pos n ltac:(lia)) as Hpn.
  set (P := (ma * mr)%positive). set (E := (ea + er)%Z).
  assert (Z.pos P < Z.pos ma * 2 ^ n)%Z as HP.
  { unfold P. rewrite Pos2Z.inj_mul. by apply Z.mul_lt_mono_pos_l. }
  assert (Z.pos (digits2_pos P) + E ≤ Z.pos (digits2_pos ma) + ea)%Z as HdP.
  { pose proof (digits2_pos_bounds ma) as [_ Hhi].
    assert (Z.pos (digits2_pos P) ≤ Z.pos (digits2_pos ma) + n)%Z; [|unfold E, n in *; lia].
    apply digits2_le_pow; [|lia]. rewrite (pow2_split _ n) by lia.
    eapply Z.lt_trans; [exact HP|]. by apply Z.mul_lt_mono_pos_r. }
  destruct (binary_round_aux_spec false P E) as (m2 & [Hm2lo Hm2hi] & _ & Hres).
  rewrite Hres. clear Hres.
  set (fe := Z.max E (fexp prec emax (Z.pos (digits2_pos P) + E))) in *.
  assert (-1074 ≤ fe ≤ ea)%Z as [Hfe1 Hfe2].
  { unfold fe. rewrite fexp_eq. rewrite fexp_eq in Hcan. unfold E, n in *. lia. }
  pose proof (pow2_pos (fe - E) ltac:(unfold fe; lia)) as Hpf.
  pose proof (pow2_pos (ea - fe) ltac:(lia)) as Hpaf.
  set (A := (Z.pos ma * 2 ^ (ea - fe))%Z).
  assert (0 ≤ m2 ≤ A)%Z as [Hm20 Hm2A].
  { assert (0 ≤ Z.pos P / 2 ^ (fe - E))%Z by (apply Z.div_pos; lia).
    split; [lia|].
    assert (Z.pos P / 2 ^ (fe - E) < A)%Z; [|lia].
    apply Z.div_lt_upper_bound; [lia|].
    unfold A. rewrite (Z.mul_comm (2 ^ (fe - E))), <- Z.mul_assoc, <- pow2_split
      by (unfold fe; lia).
    by replace (ea - fe + (fe - E))%Z with n by (unfold E, n; lia). }
  set (e3 := Z.max fe (fexp prec emax (Zdigits2 m2 + fe))).
  assert (fe ≤ e3 ≤ ea)%Z as [He31 He32].
  { unfold e3. split; [lia|]. apply Z.max_lub; [done|].
    destruct m2 as [|p2|p2]; [| |lia].
    - cbn [Zdigits2]. rewrite fexp_eq. lia.
    - cbn [Zdigits2]. rewrite fexp_eq. rewrite fexp_eq in Hcan.
      pose proof (digits2_pos_bounds ma) as [_ Hhi].
      assert (Z.pos (digits2_pos p2) ≤ Z.pos (digits2_pos ma) + (ea - fe))%Z; [|lia].
      apply digits2_le_pow; [|lia]. rewrite (pow2_split _ (ea - fe)) by lia.
      eapply Z.le_lt_trans; [exact Hm2A|]. unfold A.
      by apply Z.mul_lt_mono_pos_r. }
  pose proof (pow2_pos (e3 - fe) ltac:(lia)) as Hp3.
  assert (m2 / 2 ^ (e3 - fe) * 2 ^ (e3 - fe) ≤ m2)%Z as Hfloor.
  { rewrite Z.mul_comm. apply Z.mul_div_le. lia. }
  assert (0 ≤ m2 / 2 ^ (e3 - fe))%Z as Hq0 by (apply Z.div_pos; lia).
  destruct (m2 / 2 ^ (e3 - fe))%Z as [|m3|m3] eqn:Hm3; [| |lia].
  { cbn [SFfinite_nonneg SF2Z]. split; [done|lia]. }
  assert ((e3 <=? 971)%Z = true) as -> by (apply Z.leb_le; lia).
  cbn [SFfinite_nonneg SF2Z cond_Zopp negb]. split; [done|].
  replace (e3 + 1074)%Z with ((e3 - fe) + (fe + 1074))%Z by lia.
  replace (ea + 1074)%Z with ((ea - fe) + (fe + 1074))%Z by lia.
  rewrite (pow2_split (e3 - fe) (fe + 1074)), (pow2_split (ea - fe) (fe + 1074)) by lia.
  rewrite !Z.mul_assoc. apply Z.mul_le_mono_nonneg_r.
  - pose proof (pow2_pos (fe + 1074) ltac:(lia)). lia.
  - fold A. lia.
Qed.

(** ** [Math.round] *)

(** An integer below [2^53] is a number of the runtime. *)
Lemma Z2F_value (n : Z) :
  (0 < n < 2 ^ 53)%Z →
  F2Z (Z2F n) = (n * 2 ^ 1074)%Z ∧ SFfinite_nonneg (Prim2SF (Z2F n)) = true.
Proof.
  intros [Hn0 Hn]. destruct n as [|p|p]; [lia| |lia].
  unfold F2Z, Z2F. rewrite of_uint63_spec, Uint63.of_Z_spec.
  rewrite Z.mod_small by (change wB with (2 ^ 63)%Z; split; [lia|];
    eapply Z.lt_trans; [exact Hn|]; by apply Z.pow_lt_mono_r).
  destruct (binary_normalize_value (Z.pos p) 0 ltac:(lia)) as [Hv Hs].
  { exists (Z.pos p), 0%Z. split; [lia|]. split; [by rewrite Z.abs_eq by lia|done]. }
  change (0 + 1074)%Z with 1074%Z in Hv. split; [exact Hv|].
  destruct (binary_normalize prec emax (Z.pos p) 0 false) as [s| | |s m e]; try done.
  by subst s.
Qed.

(** [Math.round] of a number that is not negative and below [2^53]: a
    whole number, at most a half above, and zero below a half. *)
Lemma Math_round_value (q : float) :
  SFfinite_nonneg (Prim2SF q) = true → (F2Z q ≤ (2 ^ 53 - 1) * 2 ^ 1074)%Z →
  SFfinite_nonneg (Prim2SF (Math_round q)) = true ∧
  (∃ N : Z, (0 ≤ N)%Z ∧ F2Z (Math_round q) = (N * 2 ^ 1074)%Z) ∧
  (F2Z q - 2 ^ 1073 < F2Z (Math_round q) ≤ F2Z q + 2 ^ 1073)%Z.
Proof.
  intros Hq Hle. pose proof (Prim2SF_valid q) as Hv.
  unfold Math_round, F2Z in *.
  set (W := (2 ^ 1073)%Z) in *.
  assert (2 ^ 1074 = 2 * W)%Z as HW by (unfold W; by rewrite <- Z.pow_succ_r).
  assert (0 < W)%Z as HW0 by (by apply pow2_pos).
  rewrite HW in *.
  destruct (Prim2SF q) as [s| | |[] m e] eqn:Hsf; try done.
  { rewrite Hsf. cbn [SF2Z]. split; [done|]. split; [|lia]. exists 0%Z. lia. }
  destruct (valid_finite _ _ _ Hv) as ([He1 He2] & _).
  cbn [SF2Z cond_Zopp] in *.
  destruct (Z.leb_spec 0 e) as [He|He].
  { rewrite Hsf. cbn [SF2Z cond_Zopp SFfinite_nonneg negb]. split; [done|].
    split; [|lia]. exists (Z.pos m * 2 ^ e)%Z.
    pose proof (pow2_pos e He). split; [lia|].
    rewrite (pow2_split e 1074), HW by lia. lia. }
  set (t := (2 ^ (- e))%Z). set (u := (2 ^ (e + 1074))%Z) in *.
  assert (0 < t)%Z as Ht by (apply pow2_pos; lia).
  assert (0 < u)%Z as Hu by (apply pow2_pos; lia).
  assert (t * u = 2 * W)%Z as Htu.
  { unfold t, u. rewrite <- pow2_split, <- HW by lia. f_equal. lia. }
  replace (2 ^ (1 - e))%Z with (2 * t)%Z
    by (unfold t; rewrite <- Z.pow_succ_r by lia; f_equal; lia).
  set (X := (Z.pos m * 2 + t)%Z).
  pose proof (Z.mul_div_le X (2 * t) ltac:(lia)) as Hlo.
  pose proof (Z.mul_succ_div_gt X (2 * t) ltac:(lia)) as Hhi.
  assert (0 ≤ X / (2 * t))%Z as Hn0 by (apply Z.div_pos; lia).
  set (n := (X / (2 * t))%Z) in *.
  assert (Z.pos m ≤ (2 ^ 53 - 1) * t)%Z as Hm.
  { apply (Z.mul_le_mono_pos_r _ _ u); [done|].
    replace ((2 ^ 53 - 1) * t * u)%Z with ((2 ^ 53 - 1) * (2 * W))%Z
      by (rewrite <- Htu; ring).
    exact Hle. }
  assert (n < 2 ^ 53)%Z as Hn53.
  { change (2 ^ 53)%Z with 9007199254740992%Z in *.
    assert (2 * t * n < 2 * t * 9007199254740992)%Z; [lia|].
    by apply Z.mul_lt_mono_pos_l in H; [|lia]. }
  assert (2 * n * W ≤ Z.pos m * u + W ∧ Z.pos m * u < 2 * n * W + W)%Z as [Hb1 Hb2].
  { assert (2 * t * n * u ≤ X * u)%Z as A1
      by (by apply Z.mul_le_mono_nonneg_r; [lia|]).
    assert (X * u < 2 * t * Z.succ n * u)%Z as A2
      by (by apply Z.mul_lt_mono_pos_r).
    assert (2 * t * n * u = 4 * n * W)%Z as E1
      by (transitivity (2 * n * (t * u))%Z; [ring|rewrite Htu; ring]).
    assert (X * u = 2 * (Z.pos m * u) + 2 * W)%Z as E2
      by (unfold X; transitivity (Z.pos m * 2 * u + t * u)%Z; [ring|rewrite Htu; ring]).
    assert (2 * t * Z.succ n * u = 4 * n * W + 4 * W)%Z as E3
      by (transitivity (2 * Z.succ n * (t * u))%Z; [ring|rewrite Htu; ring]).
    lia. }
  destruct (Z.eqb_spec n 0) as [Hz|Hnz].
  { change (Prim2SF 0) with (S754_zero false). cbn [SF2Z SFfinite_nonneg].
    split; [done|]. split; [exists 0%Z; lia|]. rewrite Hz in *. lia. }
  destruct (Z2F_value n ltac:(lia)) as [Hval Hshape]. unfold F2Z in Hval.
  rewrite HW in Hval. rewrite Hval. split; [done|].
  split; [exists n; lia|]. lia.
Qed.

(** ** A whole fee out of an amount below [2^53] *)

(** Taking a whole number [f], at most a half above [a], out of a
    positive [a] below [2^53] and putting it back gives [a]. *)
Lemma SF_take_and_put_back (ma : positive) (ea : Z) (f : spec_float) (N : Z) :
  let a := S754_finite false ma ea in
  valid_binary a = true → valid_binary f = true →
  valid_binary (SF64sub a f) = true →
  valid_binary (SF64add (SF64sub a f) f) = true →
  SFfinite_nonneg f = true →
  (SF2Z a ≤ (2 ^ 53 - 1) * 2 ^ 1074)%Z →
  (0 ≤ N)%Z → SF2Z f = (N * 2 ^ 1074)%Z →
  (SF2Z f ≤ SF2Z a + 2 ^ 1073)%Z →
  ((0 < N)%Z → (2 ^ 1073 ≤ SF2Z a)%Z) →
  SF2Z (SF64sub a f) = (SF2Z a - SF2Z f)%Z ∧ SF64add (SF64sub a f) f = a.
Proof.
  intros a Hva Hvf Hvp Hvs Hf Ha HN HfN Hfa Hhalf.
  destruct (valid_finite _ _ _ Hva) as ([Hea1 Hea2] & _).
  destruct (valid_mantissa_bounds _ _ _ Hva) as [Hma _].
  pose proof (pow2_pos (ea + 1074) ltac:(lia)) as Hpa.
  destruct (Z.eq_dec N 0%Z) as [->|HN0].
  { destruct f as [s| | |s m e]; try done.
    - split; [cbn; lia|done].
    - cbn [SF2Z] in HfN. destruct s; cbn [cond_Zopp] in HfN; [done|].
      destruct (valid_finite _ _ _ Hvf) as ([? ?] & _).
      pose proof (pow2_pos (e + 1074) ltac:(lia)). lia. }
  specialize (Hhalf ltac:(lia)).
  set (W := (2 ^ 1073)%Z) in *.
  assert (2 ^ 1074 = 2 * W)%Z as HW by (unfold W; by rewrite <- Z.pow_succ_r).
  assert (0 < W)%Z as HW0 by (by apply pow2_pos).
  assert (SF2Z a = Z.pos ma * 2 ^ (ea + 1074))%Z as Hav by done.
  assert (-54 < ea)%Z as Hea.
  { destruct (Z.lt_ge_cases (-54) ea) as [|Hge]; [done|].
    assert (2 ^ (ea + 1074) * 2 ^ 53 ≤ W)%Z.
    { rewrite <- pow2_split by lia. apply Z.pow_le_mono_r; lia. }
    rewrite Hav in Hhalf.
    assert (Z.pos ma * 2 ^ (ea + 1074) < 2 ^ 53 * 2 ^ (ea + 1074))%Z
      by (by apply Z.mul_lt_mono_pos_r). lia. }
  assert (representable (SF2Z a - SF2Z f)) as Hrep.
  { set (g := Z.min ea 0).
    pose proof (pow2_pos (g + 1074) ltac:(unfold g; lia)) as Hpg.
    pose proof (pow2_pos (ea - g) ltac:(unfold g; lia)) as Hpag.
    pose proof (pow2_pos (- g) ltac:(unfold g; lia)) as Hpng.
    assert (2 ^ (ea - g) * 2 ^ (g + 1074) = 2 ^ (ea + 1074))%Z as E1.
    { rewrite <- pow2_split by (unfold g; lia). f_equal. lia. }
    assert (2 ^ (- g) * 2 ^ (g + 1074) = 2 * W)%Z as E2.
    { rewrite <- pow2_split, <- HW by (unfold g; lia). f_equal. lia. }
    exists (Z.pos ma * 2 ^ (ea - g) - N * 2 ^ (- g))%Z, g.
    split; [unfold g; lia|].
    assert ((Z.pos ma * 2 ^ (ea - g) - N * 2 ^ (- g)) * 2 ^ (g + 1074)
            = SF2Z a - SF2Z f)%Z as HK.
    { rewrite Hav, HfN, HW, <- E1, <- E2. ring. }
    split; [|by rewrite HK].
    set (K := (Z.pos ma * 2 ^ (ea - g) - N * 2 ^ (- g))%Z) in *.
    assert (Z.pos ma * 2 ^ (ea - g) < 2 ^ 53)%Z as Hup.
    { destruct (Z.le_gt_cases ea 0) as [Hle|Hgt].
      - replace (ea - g)%Z with 0%Z by (unfold g; lia).
        change (2 ^ 0)%Z with 1%Z. lia.
      - replace g with 0%Z in * by (unfold g; lia).
        rewrite Z.sub_0_r. rewrite Hav, HW in Ha.
        replace (ea + 1074)%Z with (ea + 1074)%Z in Ha by lia.
        rewrite (pow2_split ea 1074), HW, Z.mul_assoc in Ha by lia.
        apply Z.mul_le_mono_pos_r in Ha; [|lia]. lia. }
    assert (W < 2 ^ 53 * 2 ^ (g + 1074))%Z as Hlow.
    { rewrite <- pow2_split by (unfold g; lia). unfold W.
      apply Z.pow_lt_mono_r; unfold g; lia. }
    apply Z.abs_lt. split; [|unfold K; nia].
    destruct (Z.lt_ge_cases (- 2 ^ 53) K) as [|Hge]; [done|].
    assert (K * 2 ^ (g + 1074) ≤ - 2 ^ 53 * 2 ^ (g + 1074))%Z
      by (apply Z.mul_le_mono_nonneg_r; lia).
    lia. }
  assert (SFfinite f = true) as Hff by (by destruct f as [| | |[] ? ?]).
  destruct (SFsub_value a f Hva Hvf eq_refl Hff Hrep) as [Hpv Hpf].
  destruct (SFadd_value (SF64sub a f) f Hvp Hvf Hpf Hff) as (Hsv & _ & Hsn).
  { rewrite Hpv. replace (SF2Z a - SF2Z f + SF2Z f)%Z with (SF2Z a) by lia.
    exists (Z.pos ma), ea. split; [lia|]. split; [|done]. rewrite Z.abs_eq; lia. }
  rewrite Hpv in Hsv, Hsn.
  replace (SF2Z a - SF2Z f + SF2Z f)%Z with (SF2Z a) in Hsv, Hsn by lia.
  split; [done|].
  apply SF2Z_inj; try done.
  - apply Hsn. rewrite Hav. lia.
  - rewrite Hsv, Hav. lia.
Qed.

Lemma finite_positive (a : float) :
  (0 <? a)%float = true → (a <? infinity)%float = true →
  ∃ m e, Prim2SF a = S754_finite false m e.
Proof.
  rewrite !FloatAxioms.ltb_spec.
  change (Prim2SF 0) with (S754_zero false).
  change (Prim2SF infinity) with (S754_infinity false).
  destruct (Prim2SF a) as [[]|[]| |[] m e]; try done. by exists m, e.
Qed.

Lemma nonneg_finite (r b : float) :
  nonneg r → (r <=? b)%float = true → SFfinite (Prim2SF b) = true →
  SFfinite_nonneg (Prim2SF r) = true.
Proof.
  unfold nonneg. rewrite !FloatAxioms.leb_spec.
  change (Prim2SF 0) with (S754_zero false).
  destruct (Prim2SF r) as [[]|[]| |[] m e], (Prim2SF b) as [[]|[]| |[] m' e']; done.
Qed.

Lemma leb_value (x y : float) :
  SFfinite_nonneg (Prim2SF x) = true → SFfinite_nonneg (Prim2SF y) = true →
  (x <=? y)%float = true → (F2Z x ≤ F2Z y)%Z.
Proof.
  intros Hx Hy. rewrite FloatAxioms.leb_spec. unfold SFleb, F2Z.
  rewrite (SFcompare_value _ _ (Prim2SF_valid x) (Prim2SF_valid y) Hx Hy).
  destruct (Z.compare_spec (SF2Z (Prim2SF x)) (SF2Z (Prim2SF y))); [lia|lia|done].
Qed.

(** The product of a positive amount up to [Number.MAX_SAFE_INTEGER] and
    a rate between 0 and 0.95 is a number between 0 and the amount. *)
Lemma product_bounds (a r : float) :
  (0 <? a)%float = true → (a <=? 9007199254740991)%float = true →
  nonneg r → (r <=? 0.95)%float = true →
  (∃ ma ea, Prim2SF a = S754_finite false ma ea) ∧
  (F2Z a ≤ (2 ^ 53 - 1) * 2 ^ 1074)%Z ∧
  SFfinite_nonneg (Prim2SF (a * r)) = true ∧ (F2Z (a * r) ≤ F2Z a)%Z.
Proof.
  intros Hpos Hmax Hr0 Hr1.
  assert (SFfinite_nonneg (Prim2SF a) = true) as Han.
  { apply (nonneg_finite a 9007199254740991); [by apply ltb_leb|done|done]. }
  assert (SFfinite_nonneg (Prim2SF r) = true) as Hrn
    by (by apply (nonneg_finite r 0.95)).
  destruct (finite_positive a Hpos) as (ma & ea & Ha).
  { rewrite FloatAxioms.ltb_spec. rewrite FloatAxioms.leb_spec in Hmax.
    change (Prim2SF infinity) with (S754_infinity false).
    destruct (Prim2SF a) as [[]|[]| |[] ? ?]; done. }
  pose proof (leb_value a 9007199254740991 Han eq_refl Hmax) as Hamax.
  pose proof (leb_value r 0.95 Hrn eq_refl Hr1) as Hrmax.
  change (F2Z 9007199254740991) with ((2 ^ 53 - 1) * 2 ^ 1074)%Z in Hamax.
  assert (F2Z 0.95 < 2 ^ 1074)%Z as H95 by (by vm_compute).
  pose proof (Prim2SF_valid a) as Hva. pose proof (Prim2SF_valid r) as Hvr.
  split; [by exists ma, ea|]. split; [done|].
  unfold F2Z in *. rewrite FloatAxioms.mul_spec, Ha in *.
  by apply SFmul_le; [| | |lia].
Qed.

(** [Math.round] of that product is a whole number within a half of it. *)
Lemma rounded_product_whole (a r : float) :
  (0 <? a)%float = true → (a <=? 9007199254740991)%float = true →
  nonneg r → (r <=? 0.95)%float = true →
  ∃ N : Z, (0 ≤ N)%Z ∧ F2Z (Math_round (a * r)) = (N * 2 ^ 1074)%Z ∧
    (F2Z (a * r) - 2 ^ 1073 < F2Z (Math_round (a * r)) ≤ F2Z (a * r) + 2 ^ 1073)%Z.
Proof.
  intros Hpos Hmax Hr0 Hr1.
  destruct (product_bounds a r Hpos Hmax Hr0 Hr1) as (_ & Ha & Hqn & Hqa).
  destruct (Math_round_value (a * r) Hqn ltac:(lia)) as (_ & (N & HN & HfN) & Hb).
  by exists N.
Qed.

(** Taking that fee out of the amount is exact, and the fee and the
    remainder add up to the amount again. *)
Lemma fee_and_remainder (a r : float) :
  (0 <? a)%float = true → (a <=? 9007199254740991)%float = true →
  nonneg r → (r <=? 0.95)%float = true →
  F2Z (a - Math_round (a * r)) = (F2Z a - F2Z (Math_round (a * r)))%Z ∧
  (a - Math_round (a * r) + Math_round (a * r))%float = a.
Proof.
  intros Hpos Hmax Hr0 Hr1.
  destruct (product_bounds a r Hpos Hmax Hr0 Hr1) as ((ma & ea & Ha) & Hamax & Hqn & Hqa).
  destruct (Math_round_value (a * r) Hqn ltac:(lia)) as (Hfn & (N & HN & HfN) & [Hf1 Hf2]).
  set (f := Math_round (a * r)) in *.
  unfold F2Z in *. rewrite FloatAxioms.sub_spec.
  assert (2 ^ 1074 = 2 * 2 ^ 1073)%Z as HW by (by rewrite <- Z.pow_succ_r).
  assert (0 < 2 ^ 1073)%Z as HW0 by (by apply pow2_pos).
  destruct (SF_take_and_put_back ma ea (Prim2SF f) N) as [Hsub Hadd].
  - rewrite <- Ha. apply Prim2SF_valid.
  - apply Prim2SF_valid.
  - rewrite <- Ha, <- FloatAxioms.sub_spec. apply Prim2SF_valid.
  - rewrite <- Ha, <- FloatAxioms.sub_spec, <- FloatAxioms.add_spec. apply Prim2SF_valid.
  - exact Hfn.
  - rewrite <- Ha. exact Hamax.
  - exact HN.
  - exact HfN.
  - rewrite <- Ha. lia.
  - intros HN0. rewrite <- Ha. nia.
  - rewrite Ha. split; [done|].
    apply Prim2SF_inj. by rewrite FloatAxioms.add_spec, FloatAxioms.sub_spec, Ha.
Qed.

(** A positive number below a finite one is finite. *)
Lemma bounded_is_finite (a b : float) :
  (0 <? a)%float = true → (a <=? b)%float = true → is_finite b = true →
  is_finite a = true.
Proof.
  intros Hpos Hle Hb. unfold is_finite, is_infinity in *.
  destruct (ltb_not_nan _ _ Hpos) as [_ ->]. cbn [orb].
  apply negb_true_iff, orb_false_iff in Hb as [_ Hb].
  revert Hpos Hle Hb.
  rewrite FloatAxioms.ltb_spec, FloatAxioms.leb_spec, !FloatAxioms.eqb_spec, !abs_spec.
  change (Prim2SF infinity) with (S754_infinity false).
  change (Prim2SF 0) with (S754_zero false).
  by destruct (Prim2SF a) as [[]|[]| |[] m e], (Prim2SF b) as [[]|[]| |[] m' e'].
Qed.

Section Properties.
Context `{rt : JsRuntime}.

(** ** Booleans of the guards *)

Lemma truthy_true (s : string) : truthy s = true ↔ s ≠ "".
Proof.
  unfold truthy. destruct (String.eqb_spec s ""); simpl; split; congruence.
Qed.

Lemma truthy_false (s : string) : truthy s = false ↔ s = "".
Proof.
  unfold truthy. destruct (String.eqb_spec s ""); simpl; split; congruence.
Qed.

Lemma str_or_null_Some (x : option string) (s : string) :
  str_or_null x = Some s ↔ x = Some s ∧ s ≠ "".
Proof.
  destruct x as [t|]; simpl; [|split; [discriminate | intros [? _]; discriminate]].
  destruct (truthy t) eqn:Ht.
  - apply truthy_true in Ht. split.
    + intros [= ->]. done.
    + intros [[= ->] _]. done.
  - apply truthy_false in Ht. split; [discriminate|].
    intros [[= ->] Hne]. done.
Qed.

(** An amount above zero passes
    [!amount || isNaN(Number(amount)) || Number(amount) <= 0]. *)
Lemma positive_amount_passes (amt : float) :
  (0 <? amt)%float = true →
  num_falsy amt || is_nan amt || (amt <=? 0)%float = false.
Proof.
  intros H. unfold num_falsy.
  rewrite (ltb_eqb_false _ _ H), (ltb_leb_false _ _ H).
  by destruct (ltb_not_nan _ _ H) as [_ ->].
Qed.

(** And only such an amount does. *)
Lemma amount_check_positive (amt : float) :
  num_falsy amt || is_nan amt || (amt <=? 0)%float = false →
  (0 <? amt)%float = true.
Proof.
  intros H. apply orb_false_iff in H as [H Hle].
  apply orb_false_iff in H as [_ Hnan].
  by apply leb_false_ltb.
Qed.

Lemma uidOrThrow_ok (uid : string) : uid ≠ "" → uidOrThrow (Some uid) = Ok uid.
Proof. intros H. unfold uidOrThrow. by apply truthy_true in H as ->. Qed.

(** ** Transactions are all-or-nothing *)

Lemma runTransaction_cases (body : Store → Result (list Write)) (s : Store) :
  (∃ c m, runTransaction body s = (Err c m, s)) ∨
  (∃ ws s', body s = Ok ws ∧ commit ws s = Some s' ∧
            runTransaction body s = (Ok (), s')).
Proof.
  unfold runTransaction. destruct (body s) as [ws|c m]; [|left; eauto].
  destruct (commit ws s) as [s'|] eqn:Hc; [right|left]; [|eauto].
  exists ws, s'. done.
Qed.

(** ** Wallet balance *)

(** C10: for an authenticated caller without a wallet document,
    [getWalletBalance] returns balance 0 and the base currency, and the
    store is returned as it was: no wallet record is created. *)
Theorem getWalletBalance_missing_wallet (env : Env) (uid : string) (s : Store) :
  uid ≠ "" →
  wallets s !! uid = None →
  getWalletBalance env (Some uid) s = (Ok (0%float, getBaseCurrency env), s).
Proof.
  intros Huid Hnone. unfold getWalletBalance.
  rewrite (uidOrThrow_ok _ Huid). by rewrite Hnone.
Qed.

(** A call of [getWalletBalance] never changes the store. *)
Lemma getWalletBalance_read_only (env : Env) (auth : option string) (s : Store) :
  (getWalletBalance env auth s).2 = s.
Proof.
  unfold getWalletBalance.
  destruct (uidOrThrow auth); [|done]. by destruct (wallets s !! a).
Qed.


(** ** Webhook: a notification that is not COMPLETE *)

(** C9: a webhook delivery whose signature verifies and whose
    [payment_status] is not [COMPLETE] is answered with 200 [OK] and
    leaves the store (balances, transaction log, Pending Payments) as it
    was. *)
Theorem payfastITN_not_complete (env : Env) (req : ITNRequest) (now : Timestamp)
    (s : Store) (data : list (string * string)) :
  payfastITN_front env req = ITN_Verified data →
  obj_get data "payment_status" ≠ Some "COMPLETE" →
  payfastITN env req now s = ((200%Z, "OK"), s).
Proof.
  intros Hfront Hstatus. unfold payfastITN, payfastITN_process, payfastITN_gate.
  rewrite Hfront. by rewrite bool_decide_eq_false_2.
Qed.


(** ** Peer-to-peer transfer *)

(** The transaction of a transfer applies its four writes, or none. *)
Lemma transferFunds_txn_all_or_nothing (fromUid toUid : string) (amt : float)
    (note : option string) (now : Timestamp) (base debitId creditId : string)
    (s : Store) :
  runTransaction (transferFunds_txn fromUid toUid amt note now base debitId creditId) s
  = if (balanceOf (wallets s !! fromUid) <? amt)%float
    then (Err failed_precondition "Insufficient balance", s)
    else (Ok (), transfer_effects fromUid toUid amt note now base debitId creditId s).
Proof.
  unfold runTransaction, transferFunds_txn.
  destruct (balanceOf (wallets s !! fromUid) <? amt)%float; reflexivity.
Qed.

(** Whatever the request, a transfer that fails leaves the store as it
    was. *)
Lemma transferFunds_error_no_change (env : Env) (auth : option string)
    (data : P2PTransferPayload) (now : Timestamp) (debitId creditId : string)
    (s s' : Store) (c : ErrorCode) (m : string) :
  transferFunds env auth data now debitId creditId s = (Err c m, s') → s' = s.
Proof.
  unfold transferFunds.
  destruct (uidOrThrow auth) as [fromUid|]; [|by intros [= _ _ <-]].
  destruct (tp_toUid data) as [toUid|]; [|by intros [= _ _ <-]].
  destruct (negb (truthy toUid)); [by intros [= _ _ <-]|].
  destruct (String.eqb toUid fromUid); [by intros [= _ _ <-]|].
  destruct (tp_amount data) as [amt|]; [|by intros [= _ _ <-]].
  destruct (_ || _); [by intros [= _ _ <-]|].
  rewrite transferFunds_txn_all_or_nothing.
  destruct (balanceOf (wallets s !! fromUid) <? amt)%float;
    [by intros [= _ _ <-]|discriminate].
Qed.

(** A request that passes the validation of [transferFunds] runs the
    transaction. *)
Lemma transferFunds_valid (env : Env) (fromUid toUid : string) (amt : float)
    (note : option string) (now : Timestamp) (debitId creditId : string) (s : Store) :
  fromUid ≠ "" → toUid ≠ "" → fromUid ≠ toUid → (0 <? amt)%float = true →
  transferFunds env (Some fromUid)
    {| tp_toUid := Some toUid; tp_amount := Some amt; tp_note := note |}
    now debitId creditId s
  = if (balanceOf (wallets s !! fromUid) <? amt)%float
    then (Err failed_precondition "Insufficient balance", s)
    else (Ok "SUCCESS",
          transfer_effects fromUid toUid amt note now (getBaseCurrency env)
            debitId creditId s).
Proof.
  intros Hfrom Hto Hne Hpos. unfold transferFunds.
  rewrite (uidOrThrow_ok _ Hfrom). cbn [tp_toUid tp_amount tp_note].
  apply truthy_true in Hto as ->. cbn [negb].
  destruct (String.eqb_spec toUid fromUid) as [->|_]; [done|].
  rewrite (positive_amount_passes _ Hpos).
  rewrite transferFunds_txn_all_or_nothing.
  by destruct (balanceOf (wallets s !! fromUid) <? amt)%float.
Qed.

(** C3 (as amended): for [fromUid ≠ toUid], [amount > 0] and a sender
    balance of at least [amount], [transferFunds] succeeds; afterwards the
    sender's stored balance is the double [balance - amount] and the
    receiver's the double [balance + amount] (the difference and the sum as
    the runtime computes them, rounded to the nearest double; they are
    exactly the difference and the sum whenever a finite number can have
    that value), no other wallet has changed, and the log has exactly two
    new entries: a
    TRANSFER_OUT on the sender naming the receiver and a TRANSFER_IN on the
    receiver naming the sender.  The four writes are those of one
    transaction ([transferFunds_txn_all_or_nothing]).  The caller is
    authenticated, [toUid] is not empty and the two generated log ids are
    fresh. *)
Theorem transferFunds_moves_funds (env : Env) (fromUid toUid : string) (amt : float)
    (note : option string) (now : Timestamp) (debitId creditId : string) (s : Store) :
  fromUid ≠ "" → toUid ≠ "" → fromUid ≠ toUid → (0 <? amt)%float = true →
  (amt <=? balanceOf (wallets s !! fromUid))%float = true →
  transactions s !! (fromUid, debitId) = None →
  transactions s !! (toUid, creditId) = None →
  ∃ s',
    transferFunds env (Some fromUid)
      {| tp_toUid := Some toUid; tp_amount := Some amt; tp_note := note |}
      now debitId creditId s = (Ok "SUCCESS", s') ∧
    w_balance <$> wallets s' !! fromUid
      = Some (balanceOf (wallets s !! fromUid) - amt)%float ∧
    w_balance <$> wallets s' !! toUid
      = Some (balanceOf (wallets s !! toUid) + amt)%float ∧
    (is_finite (balanceOf (wallets s !! fromUid)) = true →
     representable (F2Z (balanceOf (wallets s !! fromUid)) - F2Z amt) →
     F2Z (balanceOf (wallets s !! fromUid) - amt)
     = (F2Z (balanceOf (wallets s !! fromUid)) - F2Z amt)%Z) ∧
    (is_finite (balanceOf (wallets s !! fromUid)) = true →
     is_finite (balanceOf (wallets s !! toUid)) = true →
     representable (F2Z (balanceOf (wallets s !! toUid)) + F2Z amt) →
     F2Z (balanceOf (wallets s !! toUid) + amt)
     = (F2Z (balanceOf (wallets s !! toUid)) + F2Z amt)%Z) ∧
    (∀ uid, uid ≠ fromUid → uid ≠ toUid → wallets s' !! uid = wallets s !! uid) ∧
    transactions s' !! (fromUid, debitId)
      = Some (TRANSFER_OUT toUid amt (getBaseCurrency env) (str_or_null note) now) ∧
    transactions s' !! (toUid, creditId)
      = Some (TRANSFER_IN fromUid amt (getBaseCurrency env) (str_or_null note) now) ∧
    (∀ k, k ≠ (fromUid, debitId) → k ≠ (toUid, creditId) →
          transactions s' !! k = transactions s !! k) ∧
    size (transactions s') = S (S (size (transactions s))) ∧
    pending_payments s' = pending_payments s ∧
    groupWallets s' = groupWallets s.
Proof.
  intros Hfrom Hto Hne Hpos Hbal Hd Hc.
  eexists. split.
  { rewrite transferFunds_valid by done.
    apply leb_ltb_false in Hbal. rewrite Hbal. reflexivity. }
  assert (is_finite (balanceOf (wallets s !! fromUid)) = true → is_finite amt = true)
    as Hamt by (by apply bounded_is_finite).
  unfold transfer_effects; cbn.
  assert ((fromUid, debitId) ≠ (toUid, creditId)) as Hk by congruence.
  repeat split.
  - rewrite lookup_insert_ne by done. by rewrite lookup_insert_eq.
  - by rewrite lookup_insert_eq.
  - intros Hf Hrep. apply sub_exact; [| |done]; apply is_finite_SFfinite; auto.
  - intros Hf Ht Hrep. apply add_exact; [| |done]; apply is_finite_SFfinite; auto.
  - intros uid H1 H2. by rewrite !lookup_insert_ne.
  - rewrite lookup_insert_ne by done. by rewrite lookup_insert_eq.
  - by rewrite lookup_insert_eq.
  - intros k H1 H2. by rewrite !lookup_insert_ne.
  - rewrite !map_size_insert_None; [done..|].
    by rewrite lookup_insert_ne.
Qed.

(** C4: a transfer request (authenticated caller, a receiver other than
    the caller, a positive amount) whose amount exceeds the sender's
    balance fails with FailedPrecondition, and the store it returns is the
    one it was given: both balances are unchanged and no log entry is
    written. *)
Theorem transferFunds_insufficient_balance (env : Env) (fromUid toUid : string)
    (amt : float) (note : option string) (now : Timestamp) (debitId creditId : string)
    (s : Store) :
  fromUid ≠ "" → toUid ≠ "" → fromUid ≠ toUid → (0 <? amt)%float = true →
  (balanceOf (wallets s !! fromUid) <? amt)%float = true →
  transferFunds env (Some fromUid)
    {| tp_toUid := Some toUid; tp_amount := Some amt; tp_note := note |}
    now debitId creditId s
  = (Err failed_precondition "Insufficient balance", s).
Proof.
  intros Hfrom Hto Hne Hpos Hbal.
  rewrite transferFunds_valid by done. by rewrite Hbal.
Qed.

(** ** Objects as entry lists *)

Lemma obj_get_Some_elem {V} (o : list (string * V)) (k : string) (v : V) :
  obj_get o k = Some v → (k, v) ∈ o.
Proof.
  induction o as [|[k' v'] o IH]; simpl; [done|].
  destruct (String.eqb_spec k' k) as [->|Hne].
  - intros [= ->]. apply list_elem_of_here.
  - intros H. apply list_elem_of_further. by apply IH.
Qed.

Lemma obj_get_None {V} (o : list (string * V)) (k : string) :
  obj_get o k = None ↔ k ∉ obj_keys o.
Proof.
  unfold obj_keys. induction o as [|[k' v'] o IH]; simpl.
  - split; [intros _; apply not_elem_of_nil | done].
  - rewrite not_elem_of_cons. destruct (String.eqb_spec k' k) as [->|Hne].
    + split; [discriminate | intros [? _]; done].
    + rewrite IH. split; [intros ?; split; [congruence | done] | by intros [_ ?]].
Qed.

Lemma obj_get_is_Some {V} (o : list (string * V)) (k : string) :
  is_Some (obj_get o k) ↔ k ∈ obj_keys o.
Proof.
  rewrite <- not_eq_None_Some, obj_get_None.
  split; [apply dec_stable | auto].
Qed.

Lemma obj_get_elem {V} (o : list (string * V)) (k : string) (v : V) :
  obj_wf o → (k, v) ∈ o → obj_get o k = Some v.
Proof.
  unfold obj_wf, obj_keys. induction o as [|[k' v'] o IH]; simpl.
  - intros _ H. by apply elem_of_nil in H.
  - intros Hnd H. apply NoDup_cons in Hnd as [Hnotin Hnd].
    apply elem_of_cons in H as [[= <- <-]|H].
    + by rewrite String.eqb_refl.
    + destruct (String.eqb_spec k' k) as [->|Hne]; [|by apply IH].
      exfalso. apply Hnotin. apply list_elem_of_fmap. by exists (k, v).
Qed.

(** Two well-formed objects with the same entries, in whatever order, have
    the same properties. *)
Lemma obj_get_perm {V} (o1 o2 : list (string * V)) (k : string) :
  obj_wf o1 → o1 ≡ₚ o2 → obj_get o1 k = obj_get o2 k.
Proof.
  intros Hwf1 Hp.
  assert (obj_wf o2) as Hwf2.
  { unfold obj_wf, obj_keys in *. by rewrite <- Hp. }
  destruct (obj_get o1 k) as [v|] eqn:H1.
  - symmetry. apply obj_get_elem; [done|]. rewrite <- Hp. by apply obj_get_Some_elem.
  - destruct (obj_get o2 k) as [v|] eqn:H2; [|done].
    apply obj_get_Some_elem in H2. rewrite <- Hp in H2.
    apply obj_get_elem in H2; [congruence | done].
Qed.

Lemma obj_get_set {V} (o : list (string * V)) (k k' : string) (v : V) :
  obj_get (obj_set k v o) k' = if String.eqb k k' then Some v else obj_get o k'.
Proof.
  induction o as [|[k0 v0] o IH]; simpl.
  - done.
  - destruct (String.eqb_spec k0 k) as [->|Hne]; simpl.
    + by destruct (String.eqb_spec k k').
    + rewrite IH. destruct (String.eqb_spec k0 k') as [->|?]; [|done].
      destruct (String.eqb_spec k k'); congruence.
Qed.

Lemma obj_keys_set {V} (o : list (string * V)) (k k' : string) (v : V) :
  k' ∈ obj_keys (obj_set k v o) ↔ k' = k ∨ k' ∈ obj_keys o.
Proof.
  unfold obj_keys. induction o as [|[k0 v0] o IH]; simpl.
  - rewrite elem_of_cons. done.
  - destruct (String.eqb_spec k0 k) as [->|Hne]; simpl.
    + rewrite !elem_of_cons. tauto.
    + rewrite !elem_of_cons, IH. tauto.
Qed.

Lemma obj_set_wf {V} (o : list (string * V)) (k : string) (v : V) :
  obj_wf o → obj_wf (obj_set k v o).
Proof.
  unfold obj_wf. induction o as [|[k0 v0] o IH]; simpl.
  - intros _. apply NoDup_singleton.
  - unfold obj_keys in *. simpl. intros [Hnotin Hnd]%NoDup_cons.
    destruct (String.eqb_spec k0 k) as [->|Hne]; simpl.
    + by apply NoDup_cons.
    + apply NoDup_cons. split; [|by apply IH].
      intros Hin. apply (obj_keys_set o k k0 v) in Hin as [?|?]; done.
Qed.

(** ** Canonical form of the signed fields *)

Lemma pf_filter_step_get (inc : bool) (excl : list string)
    (acc : list (string * string)) (k0 : string) (v0 : option string) (k : string) :
  obj_get (pf_filter_step inc excl acc (k0, v0)) k
  = if String.eqb k0 k
    then from_option Some (obj_get acc k) (pf_kept inc excl k0 (Some v0))
    else obj_get acc k.
Proof.
  unfold pf_filter_step, pf_kept.
  destruct v0 as [v|]; destruct (bool_decide (k0 ∈ excl)); simpl;
    try (by destruct (String.eqb_spec k0 k)).
  destruct (negb inc && String.eqb (trim v) ""); simpl.
  - by destruct (String.eqb_spec k0 k).
  - rewrite obj_get_set. by destruct (String.eqb_spec k0 k).
Qed.

Lemma pf_filter_fold_get (inc : bool) (excl : list string)
    (data : list (string * option string)) (acc : list (string * string)) (k : string) :
  obj_wf data →
  obj_get (foldl (pf_filter_step inc excl) acc data) k
  = from_option Some (obj_get acc k) (pf_kept inc excl k (obj_get data k)).
Proof.
  revert acc. induction data as [|[k0 v0] data IH]; intros acc Hwf; cbn [foldl obj_get].
  - done.
  - unfold obj_wf, obj_keys in Hwf. simpl in Hwf.
    apply NoDup_cons in Hwf as [Hnotin Hwf].
    rewrite IH by done. rewrite pf_filter_step_get.
    destruct (String.eqb_spec k0 k) as [->|Hne]; [|done].
    apply obj_get_None in Hnotin. rewrite Hnotin. done.
Qed.

Lemma pf_filter_fold_wf (inc : bool) (excl : list string)
    (data : list (string * option string)) (acc : list (string * string)) :
  obj_wf acc → obj_wf (foldl (pf_filter_step inc excl) acc data).
Proof.
  revert acc. induction data as [|[k0 v0] data IH]; intros acc Hwf; cbn [foldl]; [done|].
  apply IH. unfold pf_filter_step.
  destruct (bool_decide (k0 ∈ excl)); [done|].
  destruct v0 as [v|]; [|done].
  destruct (negb inc && String.eqb (cleanPf (Some v)) ""); [done|].
  by apply obj_set_wf.
Qed.

Lemma pf_filtered_perm (d1 d2 : list (string * option string))
    (opts : PayFastSignatureOpts) (k : string) :
  obj_wf d1 → d1 ≡ₚ d2 →
  obj_get (pf_filtered d1 opts) k = obj_get (pf_filtered d2 opts) k.
Proof.
  intros Hwf Hp. unfold pf_filtered.
  assert (obj_wf d2) as Hwf2.
  { unfold obj_wf, obj_keys in *. by rewrite <- Hp. }
  rewrite !pf_filter_fold_get by done.
  by rewrite (obj_get_perm d1 d2 k).
Qed.

(** Sorting makes the order of the keys canonical. *)
Lemma sort_keys_perm (l1 l2 : list string) :
  l1 ≡ₚ l2 → sort_keys l1 = sort_keys l2.
Proof.
  intros Hp. unfold sort_keys.
  apply (Sorted_unique String.le).
  - apply Sorted_merge_sort, _.
  - apply Sorted_merge_sort, _.
  - by rewrite !merge_sort_Permutation.
Qed.

Lemma buildPayFastQueryString_perm (d1 d2 : list (string * option string))
    (opts : PayFastSignatureOpts) :
  obj_wf d1 → d1 ≡ₚ d2 →
  buildPayFastQueryString d1 opts = buildPayFastQueryString d2 opts.
Proof.
  intros Hwf Hp. unfold buildPayFastQueryString.
  assert (sort_keys (obj_keys (pf_filtered d1 opts))
          = sort_keys (obj_keys (pf_filtered d2 opts))) as Hkeys.
  { apply sort_keys_perm. apply NoDup_Permutation.
    - apply pf_filter_fold_wf. apply NoDup_nil_2.
    - apply pf_filter_fold_wf. apply NoDup_nil_2.
    - intros k. rewrite <- !obj_get_is_Some.
      by rewrite (pf_filtered_perm d1 d2 opts k). }
  rewrite Hkeys. f_equal. f_equal.
  apply list_fmap_ext. intros _ k _. simpl.
  by rewrite (pf_filtered_perm d1 d2 opts k).
Qed.

(** C7: two field objects with the same key-value pairs, entered in
    different orders, get the same signature, for any passphrase and
    options: the keys that remain are sorted before they are joined. *)
Theorem signature_order_independent (d1 d2 : list (string * option string))
    (passphrase : string) (opts : PayFastSignatureOpts) :
  obj_wf d1 → d1 ≡ₚ d2 →
  generatePayFastSignature d1 passphrase opts
  = generatePayFastSignature d2 passphrase opts.
Proof.
  intros Hwf Hp. unfold generatePayFastSignature.
  by rewrite (buildPayFastQueryString_perm d1 d2 opts).
Qed.


(** ** Ride settlement: the fee rate *)

Lemma is_finite_not_nan (x : float) : is_finite x = true → is_nan x = false.
Proof. unfold is_finite. by destruct (is_nan x). Qed.

Lemma num_or_pos (x d : float) : (0 <? x)%float = true → num_or x d = x.
Proof.
  intros H. unfold num_or, num_falsy. rewrite (ltb_eqb_false _ _ H).
  by destruct (ltb_not_nan _ _ H) as [_ ->].
Qed.

(** Whatever the environment holds, the effective fee rate lies in
    [0, 0.95]. *)
Lemma feeRate_range (env : Env) :
  (0 <=? feeRate env)%float = true ∧ (feeRate env <=? 0.95)%float = true.
Proof.
  unfold feeRate.
  set (x := Number (str_or (APP_PLATFORM_FEE_RATE env) "0.20")).
  destruct (is_finite x) eqn:Hfin; [|done].
  apply is_finite_not_nan in Hfin.
  assert (is_nan (Math_min 0.95 x) = false ∧ (Math_min 0.95 x <=? 0.95)%float = true)
    as [Hnan Hle].
  { unfold Math_min. rewrite Hfin. change (is_nan 0.95) with false. cbn [orb].
    destruct (0.95 <? x)%float eqn:H1; [done|].
    destruct (x <? 0.95)%float eqn:H2; [by split; [|apply ltb_leb]|].
    change (get_sign 0.95) with false. cbv iota.
    split; [done|]. by apply ltb_false_leb. }
  unfold Math_max. rewrite Hnan. change (is_nan 0) with false. cbn [orb].
  destruct (0 <? Math_min 0.95 x)%float eqn:H1; [by split; [apply ltb_leb|]|].
  by destruct (Math_min 0.95 x <? 0)%float.
Qed.

(** A ride that is on trip, belongs to the caller and has a driver and a
    valid fare is settled by the transaction. *)
Lemma payDriverOnComplete_valid (env : Env) (riderUid rideId driverId : string)
    (ride : RideDoc) (amount : float) (now : Timestamp) (debitId creditId : string)
    (s : Store) :
  riderUid ≠ "" → rideId ≠ "" →
  rides s !! rideId = Some ride →
  r_paymentStatus ride ≠ Some "authorized" →
  r_status ride = "on_trip" →
  r_userId ride = riderUid →
  r_driverId ride = Some driverId → driverId ≠ "" →
  r_estimatedFareZAR ride = Some amount →
  is_finite amount = true → (0 <? amount)%float = true →
  payDriverOnComplete env (Some riderUid) (Some rideId) now debitId creditId s
  = if (balanceOf (wallets s !! riderUid) <? amount)%float
    then (Err failed_precondition "Insufficient rider balance.", s)
    else (Ok true, ride_effects env riderUid rideId driverId ride amount now
                     debitId creditId s).
Proof.
  intros Hrider Hrid Hride Hpay Hst Huser Hdrv Hdne Hfare Hfin Hpos.
  unfold payDriverOnComplete. rewrite (uidOrThrow_ok _ Hrider).
  assert (str_or_null (Some rideId) = Some rideId) as -> by (by apply str_or_null_Some).
  unfold runTransaction, payDriverOnComplete_txn. rewrite Hride.
  rewrite bool_decide_eq_false_2 by done. rewrite Hst, Huser, Hdrv, Hfare.
  change (String.eqb "on_trip" "completed") with false.
  change (String.eqb "on_trip" "on_trip") with true.
  rewrite String.eqb_refl. cbn [orb negb].
  assert (str_or_null (Some driverId) = Some driverId) as -> by (by apply str_or_null_Some).
  cbn [Number_of from_option id]. rewrite (num_or_pos _ _ Hpos), Hfin.
  rewrite (ltb_leb_false _ _ Hpos). cbn [negb orb].
  destruct (balanceOf (wallets s !! riderUid) <? amount)%float; [done|].
  unfold ride_effects. cbn [commit apply_write with_wallets with_transactions
    with_rides with_drivers_live wallets transactions rides drivers_live
    pending_payments orders businesses groupWallets groupTransactions users].
  rewrite Hride. reflexivity.
Qed.

(** ** Order settlement *)

(** An order is settled without a fee: the buyer pays the total and the
    owner of the business receives the total. *)
Lemma payAndPlaceOrder_moves_total (uid businessId ownerId item : string)
    (items : list string) (address : option string) (amount : float)
    (now : Timestamp) (orderId : string) (s : Store) :
  uid ≠ "" → businessId ≠ "" →
  businesses s !! businessId = Some (Some ownerId) → ownerId ≠ "" → ownerId ≠ uid →
  is_finite amount = true → (0 <? amount)%float = true →
  is_finite (balanceOf (wallets s !! uid)) = true →
  (amount <=? balanceOf (wallets s !! uid))%float = true →
  ∃ s',
    payAndPlaceOrder (Some uid)
      {| op_businessId := Some businessId; op_items := Some (item :: items);
         op_address := address; op_total := Some amount |}
      now orderId s = (Ok (orderId, "paid"), s') ∧
    w_balance <$> wallets s' !! uid
      = Some (balanceOf (wallets s !! uid) - amount)%float ∧
    w_balance <$> wallets s' !! ownerId
      = Some match wallets s !! ownerId with
             | Some w => (w_balance w + amount)%float
             | None => amount
             end.
Proof.
  intros Huid Hbiz Howner Hone Hneq Hfin Hpos Hbfin Hbal.
  unfold payAndPlaceOrder. cbn [op_businessId op_items op_address op_total].
  assert (str_or_null (Some uid) = Some uid) as -> by (by apply str_or_null_Some).
  assert (str_or_null (Some businessId) = Some businessId) as ->
    by (by apply str_or_null_Some).
  unfold runTransaction, payAndPlaceOrder_txn. rewrite Howner.
  assert (str_or_null (Some ownerId) = Some ownerId) as ->
    by (by apply str_or_null_Some).
  cbn [Number_of from_option id]. rewrite Hfin, Hbfin, (ltb_leb_false _ _ Hpos).
  pose proof (leb_ltb_false _ _ Hbal) as Hlt. rewrite Hlt. cbn [negb orb].
  cbn [commit apply_write with_wallets with_orders wallets].
  eexists. split; [reflexivity|]. cbn.
  split.
  - rewrite lookup_insert_ne by done. rewrite lookup_insert_eq. cbn.
    unfold balanceOf in *. destruct (wallets s !! uid) as [w|]; cbn.
    + by rewrite (num_or_covers _ _ Hpos Hlt), add_opp.
    + by rewrite Hpos in Hlt.
  - rewrite lookup_insert_eq. cbn. by rewrite lookup_insert_ne.
Qed.

(** ** Non-negative balances *)

Lemma balanceOf_nonneg (s : Store) (uid : string) :
  balances_nonneg s → nonneg (balanceOf (wallets s !! uid)).
Proof.
  intros [Hw _]. unfold balanceOf.
  destruct (wallets s !! uid) as [w|] eqn:E; [|done].
  apply num_or_nonneg. by eapply Hw.
Qed.

Lemma balanceOf_not_nan (snap : option WalletDoc) : is_nan (balanceOf snap) = false.
Proof. destruct snap; [apply num_or_not_nan | done]. Qed.

(** What is left of a balance that covers a finite positive amount is not
    negative. *)
Lemma debit_nonneg (bal amt : float) :
  is_nan bal = false → (0 <? amt)%float = true → (amt <? infinity)%float = true →
  (bal <? amt)%float = false → nonneg (bal - amt).
Proof.
  intros Hbal Hpos Hfin Hlt.
  destruct (ltb_not_nan _ _ Hpos) as [_ Hamt].
  apply sub_nonneg; [by apply ltb_leb | by apply ltb_false_leb | done].
Qed.

Lemma is_finite_lt_infinity (x : float) :
  is_finite x = true → (0 <? x)%float = true → (x <? infinity)%float = true.
Proof.
  unfold is_finite, is_infinity. intros Hfin Hpos.
  apply negb_true_iff, orb_false_iff in Hfin as [Hnan Hinf].
  apply leb_false_ltb; [done|done|].
  revert Hpos Hinf. rewrite FloatAxioms.ltb_spec, FloatAxioms.eqb_spec, abs_spec,
    FloatAxioms.leb_spec.
  change (Prim2SF infinity) with (S754_infinity false).
  change (Prim2SF 0) with (S754_zero false).
  by destruct (Prim2SF x) as [[]|[]| |[] m e].
Qed.

Lemma apply_write_nonneg (s s1 : Store) (w : Write) :
  balances_nonneg s → write_nonneg s w → apply_write w s = Some s1 →
  balances_nonneg s1.
Proof.
  intros [Hw Hg] Hok Happ. destruct w; simpl in *.
  - injection Happ as <-. split; [|done]. cbn. intros u w.
    destruct (decide (uid = u)) as [->|Hne].
    + rewrite lookup_insert_eq. by intros [= <-].
    + rewrite lookup_insert_ne by done. apply Hw.
  - injection Happ as <-. by split.
  - destruct (pending_payments s !! paymentId); [|done].
    injection Happ as <-. by split.
  - destruct (rides s !! rideId); [|done]. injection Happ as <-. by split.
  - injection Happ as <-. by split.
  - injection Happ as <-. by split.
  - injection Happ as <-. split; [done|]. cbn. intros g' w.
    destruct (decide (groupId = g')) as [->|Hne].
    + rewrite lookup_insert_eq. by intros [= <-].
    + rewrite lookup_insert_ne by done. apply Hg.
  - injection Happ as <-. by split.
Qed.

Lemma commit_nonneg (ws : list Write) (s s' : Store) :
  balances_nonneg s → writes_nonneg ws s → commit ws s = Some s' →
  balances_nonneg s'.
Proof.
  revert s. induction ws as [|w ws IH]; intros s Hs Hws Hc; simpl in *.
  - by injection Hc as <-.
  - destruct Hws as [Hw Hrest].
    destruct (apply_write w s) as [s1|] eqn:Happ; [|done].
    assert (balances_nonneg s1) as Hs1 by (by eapply apply_write_nonneg).
    eapply IH; [exact Hs1 | by apply Hrest | done].
Qed.

Lemma runTransaction_nonneg (body : Store → Result (list Write)) (s : Store) :
  balances_nonneg s →
  (∀ ws, body s = Ok ws → writes_nonneg ws s) →
  balances_nonneg (runTransaction body s).2.
Proof.
  intros Hs Hbody. unfold runTransaction.
  destruct (body s) as [ws|c m] eqn:Eb; [|done].
  destruct (commit ws s) as [s'|] eqn:Ec; [|done].
  simpl. eapply commit_nonneg; [exact Hs | by apply Hbody | done].
Qed.

(** The handlers return the store of their transaction. *)
Lemma snd_of_txn {B} (r : Result unit * Store) (f : B) (g : ErrorCode → string → B) :
  (match r with
   | (Ok _, s') => (f, s')
   | (Err c m, s') => (g c m, s')
   end).2 = r.2.
Proof. by destruct r as [[?|??] ?]. Qed.

Lemma transferFunds_nonneg (env : Env) (auth : option string)
    (data : P2PTransferPayload) (now : Timestamp) (debitId creditId : string)
    (s : Store) :
  balances_nonneg s →
  op_side_condition env (OpTransfer auth data now debitId creditId) s →
  balances_nonneg (transferFunds env auth data now debitId creditId s).2.
Proof.
  intros Hs Hside. unfold transferFunds.
  destruct (uidOrThrow auth) as [fromUid|]; [|done].
  destruct (tp_toUid data) as [toUid|]; [|done].
  destruct (negb (truthy toUid)); [done|].
  destruct (String.eqb toUid fromUid); [done|].
  destruct (tp_amount data) as [amt|] eqn:Hamt; [|done].
  destruct (_ || _) eqn:Hcheck; [done|].
  apply amount_check_positive in Hcheck.
  rewrite snd_of_txn. apply runTransaction_nonneg; [done|].
  intros ws. unfold transferFunds_txn.
  destruct (balanceOf (wallets s !! fromUid) <? amt)%float eqn:Hlt; [done|].
  intros [= <-]. cbn. repeat split; try done; cbn.
  - apply debit_nonneg; [apply balanceOf_not_nan | done | by apply (Hside amt) | done].
  - apply add_nonneg; [|by apply ltb_leb]. by apply balanceOf_nonneg.
Qed.

Lemma payfastITN_credit_nonneg (env : Env) (c : ITNCredit) (now : Timestamp) (s : Store) :
  balances_nonneg s → nonneg (ic_amount c) →
  balances_nonneg (payfastITN_credit env c now s).2.
Proof.
  intros Hs Hc. unfold payfastITN_credit.
  rewrite (snd_of_txn _ (200%Z, "OK") (λ _ _, (200%Z, "OK"))).
  apply runTransaction_nonneg; [done|].
  intros ws [= <-]. cbn. repeat split; try done; cbn.
  apply add_nonneg; [by apply balanceOf_nonneg | done].
Qed.

Lemma verifyPayFastPayment_credit_nonneg (env : Env) (c : VerifyCredit)
    (now : Timestamp) (s : Store) :
  balances_nonneg s → nonneg (vc_amount c) →
  balances_nonneg (verifyPayFastPayment_credit env c now s).2.
Proof.
  intros Hs Hc. unfold verifyPayFastPayment_credit.
  rewrite (snd_of_txn _ _ (λ _ m, Err internal ("PayFast verification failed: " ++ m))).
  apply runTransaction_nonneg; [done|].
  intros ws [= <-]. cbn. repeat split; try done; cbn.
  apply add_nonneg; [by apply balanceOf_nonneg | done].
Qed.

Lemma payDriverOnComplete_nonneg (env : Env) (auth rideId : option string)
    (now : Timestamp) (debitId creditId : string) (s : Store) :
  balances_nonneg s →
  op_side_condition env (OpRide auth rideId now debitId creditId) s →
  balances_nonneg (payDriverOnComplete env auth rideId now debitId creditId s).2.
Proof.
  intros Hs Hside. unfold payDriverOnComplete.
  destruct (uidOrThrow auth) as [riderUid|]; [|done].
  destruct (str_or_null rideId) as [rid|] eqn:Hrid; [|done].
  apply str_or_null_Some in Hrid as [-> _].
  rewrite snd_of_txn. apply runTransaction_nonneg; [done|].
  intros ws. unfold payDriverOnComplete_txn.
  destruct (rides s !! rid) as [ride|] eqn:Hride; [|done].
  destruct (_ || _).
  { destruct (str_or_null (r_driverId ride)); intros [= <-]; simpl; done. }
  destruct (negb (String.eqb (r_userId ride) riderUid)); [done|].
  destruct (negb (String.eqb (r_status ride) "on_trip")); [done|].
  destruct (str_or_null (r_driverId ride)) as [driverId|]; [|done].
  pose proof (Hside rid ride eq_refl Hride) as Hpayout.
  set (amount := num_or (Number_of (r_estimatedFareZAR ride)) 0) in *.
  destruct (negb (is_finite amount) || (amount <=? 0)%float) eqn:Hcheck; [done|].
  apply orb_false_iff in Hcheck as [Hfin%negb_false_iff Hle].
  assert (0 <? amount)%float as Hpos.
  { apply Is_true_true. apply leb_false_ltb; [by apply is_finite_not_nan|done|done]. }
  apply Is_true_true in Hpos.
  destruct (balanceOf (wallets s !! riderUid) <? amount)%float eqn:Hlt; [done|].
  intros [= <-]. cbn. repeat split; try done; cbn.
  - apply debit_nonneg;
      [apply balanceOf_not_nan | done | by apply is_finite_lt_infinity | done].
  - apply add_nonneg; [by apply balanceOf_nonneg | done].
Qed.

Lemma payAndPlaceOrder_nonneg (auth : option string) (data : OrderPayload)
    (now : Timestamp) (orderId : string) (s : Store) :
  balances_nonneg s →
  balances_nonneg (payAndPlaceOrder auth data now orderId s).2.
Proof.
  intros Hs. unfold payAndPlaceOrder.
  destruct (str_or_null auth) as [uid|]; [|done].
  destruct (str_or_null (op_businessId data)) as [businessId|]; [|done].
  destruct (op_items data) as [[|item items]|]; [done| |done].
  rewrite snd_of_txn. apply runTransaction_nonneg; [done|].
  intros ws. unfold payAndPlaceOrder_txn.
  destruct (businesses s !! businessId) as [owner|]; [|done].
  destruct (str_or_null owner) as [ownerId|]; [|done].
  set (amount := Number_of (op_total data)).
  destruct (negb (is_finite amount) || (amount <=? 0)%float) eqn:Hcheck; [done|].
  apply orb_false_iff in Hcheck as [Hfin%negb_false_iff Hle].
  assert (0 <? amount)%float as Hpos.
  { apply Is_true_true. apply leb_false_ltb; [by apply is_finite_not_nan|done|done]. }
  apply Is_true_true in Hpos.
  destruct (negb (is_finite (balanceOf (wallets s !! uid)))); [done|].
  destruct (balanceOf (wallets s !! uid) <? amount)%float eqn:Hlt; [done|].
  intros [= <-]. cbn. split.
  - unfold balanceOf in Hlt. destruct (wallets s !! uid) as [w|]; cbn.
    + pose proof (num_or_covers _ _ Hpos Hlt) as Hb. rewrite add_opp.
      apply debit_nonneg;
        [rewrite <- Hb; apply num_or_not_nan | done
        |by apply is_finite_lt_infinity | by rewrite <- Hb].
    + congruence.
  - intros s1 _ Hs1. split; [|done]. cbn.
    destruct (wallets s1 !! ownerId) as [w|] eqn:Ew; cbn.
    + apply add_nonneg; [|by apply ltb_leb]. destruct Hs1 as [Hw1 _]. by eapply Hw1.
    + by apply ltb_leb.
Qed.

Lemma depositToGroupWallet_nonneg (env : Env) (auth : option string)
    (data : DepositPayload) (now : Timestamp) (txId : string) (s : Store) :
  balances_nonneg s →
  op_side_condition env (OpDeposit auth data now txId) s →
  balances_nonneg (depositToGroupWallet env auth data now txId s).2.
Proof.
  intros Hs Hside. unfold depositToGroupWallet.
  destruct (uidOrThrow auth) as [uid|]; [|done].
  destruct (str_or_null (dp_groupId data)) as [groupId|]; [|done].
  destruct (dp_amount data) as [amt|] eqn:Hamt; [|done].
  destruct (_ || _) eqn:Hcheck; [done|].
  apply amount_check_positive in Hcheck.
  destruct (negb (String.eqb (dp_method data) "wallet")); [done|].
  rewrite snd_of_txn. apply runTransaction_nonneg; [done|].
  intros ws. unfold depositToGroupWallet_txn.
  destruct (wallets s !! uid) as [w|]; [|done].
  destruct (num_or (w_balance w) 0 <? amt)%float eqn:Hlt; [done|].
  intros [= <-]. cbn. repeat split; try done; cbn.
  - apply debit_nonneg; [apply num_or_not_nan | done | by apply (Hside amt) | done].
  - apply add_nonneg; [|by apply ltb_leb].
    destruct (groupWallets s !! groupId) as [g|] eqn:Eg; [|done].
    apply num_or_nonneg. destruct Hs as [_ Hg]. by eapply Hg.
Qed.

Lemma adminAdjustBalance_nonneg (env : Env) (auth : option string)
    (isAdmin : string → bool) (data : AdminAdjustPayload) (now : Timestamp)
    (txId : string) (s : Store) :
  balances_nonneg s →
  op_side_condition env (OpAdminAdjust auth isAdmin data now txId) s →
  balances_nonneg (adminAdjustBalance env auth isAdmin data now txId s).2.
Proof.
  intros Hs Hside. unfold adminAdjustBalance.
  destruct (uidOrThrow auth) as [caller|]; [|done].
  destruct (negb (isAdmin caller)); [done|].
  destruct (aa_uid data) as [uid|] eqn:Huid; [|done].
  destruct (negb (truthy uid)); [done|].
  destruct (aa_delta data) as [delta|] eqn:Hdelta; [|done].
  destruct (is_nan delta); [done|].
  rewrite snd_of_txn. apply runTransaction_nonneg; [done|].
  intros ws [= <-]. pose proof (Hside uid delta Huid Hdelta).
  simpl. repeat split; done.
Qed.

(** C5 (as amended): from a store in which every balance is non-negative,
    the order settlement leads to such a store; so do [transferFunds] and
    the group-wallet deposit when the amount is finite, the atomic credit
    when the credited amount is not negative, the ride settlement when the
    driver's payout is not negative, and [adminAdjustBalance] when balance
    plus delta is not negative ([op_side_condition]). *)
Theorem operations_keep_balances_nonneg (env : Env) (op : Operation) (s : Store) :
  balances_nonneg s →
  op_side_condition env op s →
  balances_nonneg (run_op env op s).
Proof.
  intros Hs Hside. destruct op; simpl in *.
  - by apply transferFunds_nonneg.
  - unfold payfastITN, payfastITN_process.
    destruct (payfastITN_front env req); [done|].
    destruct (payfastITN_gate data s); [done|].
    by apply payfastITN_credit_nonneg.
  - unfold verifyPayFastPayment.
    destruct (verifyPayFastPayment_gate env auth paymentId fetch s); simpl; [done|].
    by apply verifyPayFastPayment_credit_nonneg.
  - by apply payDriverOnComplete_nonneg.
  - by apply payAndPlaceOrder_nonneg.
  - by apply depositToGroupWallet_nonneg.
  - by apply adminAdjustBalance_nonneg.
Qed.

(** ** The atomic credit *)

(** Each credit transaction applies its three writes when the Pending
    Payment exists, and nothing otherwise. *)
Lemma payfastITN_credit_all_or_nothing (env : Env) (c : ITNCredit) (now : Timestamp)
    (s : Store) :
  (payfastITN_credit env c now s).2
  = match pending_payments s !! ic_paymentId c with
    | Some d => credit_effects (itn_args c) now (getBaseCurrency env) d s
    | None => s
    end.
Proof.
  unfold payfastITN_credit, runTransaction, payfastITN_txn.
  cbn [commit apply_write with_wallets with_transactions with_pending
    wallets transactions pending_payments].
  by destruct (pending_payments s !! ic_paymentId c).
Qed.

Lemma verifyPayFastPayment_credit_all_or_nothing (env : Env) (c : VerifyCredit)
    (now : Timestamp) (s : Store) :
  (verifyPayFastPayment_credit env c now s).2
  = match pending_payments s !! vc_paymentId c with
    | Some d => credit_effects (verify_args c) now (getBaseCurrency env) d s
    | None => s
    end.
Proof.
  unfold verifyPayFastPayment_credit, runTransaction, verifyPayFastPayment_txn.
  cbn [commit apply_write with_wallets with_transactions with_pending
    wallets transactions pending_payments].
  by destruct (pending_payments s !! vc_paymentId c).
Qed.

(** What a webhook that proceeds to the credit has read. *)
Lemma payfastITN_gate_proceed (data : list (string * string)) (s : Store) (c : ITNCredit) :
  payfastITN_gate data s = ITN_Proceed c →
  obj_get data "custom_str1" = Some (ic_uid c) ∧
  obj_get data "m_payment_id" = Some (ic_paymentId c) ∧
  ic_payment_method c = obj_get data "payment_method" ∧
  ∃ d, pending_payments s !! ic_paymentId c = Some d ∧ pp_status d = PENDING.
Proof.
  unfold payfastITN_gate.
  destruct (negb _); [done|].
  destruct (obj_get data "m_payment_id") as [pid|]; [|done].
  destruct (obj_get data "custom_str1") as [uid|]; [|done].
  destruct (_ || _); [done|].
  destruct (pending_payments s !! pid) as [d|] eqn:Hd; [|done].
  destruct (pp_status d) eqn:Hst; [|done].
  intros [= <-]. simpl. eauto 10.
Qed.

(** What a verify call that proceeds to the credit has read. *)
Lemma verifyPayFastPayment_gate_proceed (env : Env) (auth paymentId : option string)
    (fetch : string → string + string) (s : Store) (c : VerifyCredit) :
  verifyPayFastPayment_gate env auth paymentId fetch s = VG_Proceed c →
  auth = Some (vc_uid c) ∧ paymentId = Some (vc_paymentId c) ∧
  ∃ d, pending_payments s !! vc_paymentId c = Some d ∧ pp_status d = PENDING.
Proof.
  unfold verifyPayFastPayment_gate.
  destruct auth as [uid|]; simpl; [|done].
  destruct (truthy uid); [|done].
  destruct (str_or_null paymentId) as [pid|] eqn:Hpid; [|done].
  apply str_or_null_Some in Hpid as [-> _].
  destruct (_ || _); [done|].
  destruct (pending_payments s !! pid) as [d|] eqn:Hd; [|done].
  destruct (pp_status d) eqn:Hst; [|done].
  destruct (str_or_null _); [|done].
  destruct (fetch _) as [result|]; [|done].
  destruct (negb _); [done|].
  destruct (fetch _) as [detailsText|]; [|done].
  destruct (parse_details detailsText) as [details|]; [|done].
  destruct (negb _); [done|].
  intros [= <-]. simpl. eauto 10.
Qed.

(** The writes of the atomic credit.  An execution reads and credits the
    Account Balance of the uid that the request carries -- the
    [custom_str1] field on the webhook path, the authenticated caller on
    the verify path -- for a Pending Payment that it has read as PENDING;
    whatever the store [s2] on which its transaction then runs, the
    updated balance, the TOP_UP entry with the gateway's payment-method
    metadata and the COMPLETED mark are written together, or nothing is
    written.  The uid stored in the Pending Payment is not read. *)
Lemma credit_atomic_for_request_uid (env : Env) (call : Call) (s : Store)
    (t : Thread) (a : CreditArgs) (now : Timestamp) :
  (thread_step env (T_Start call) s).1 = t →
  thread_credit t = Some (a, now) →
  call_uid call = Some (ca_uid a) ∧
  call_paymentId call = Some (ca_paymentId a) ∧
  (∃ d, pending_payments s !! ca_paymentId a = Some d ∧ pp_status d = PENDING) ∧
  (∀ data now', call = CallWebhook data now' →
     ca_paymentMethod a = str_or (obj_get data "payment_method") "UNKNOWN") ∧
  ∀ s2,
    (thread_step env t s2).2
    = match pending_payments s2 !! ca_paymentId a with
      | Some d => credit_effects a now (getBaseCurrency env) d s2
      | None => s2
      end ∧
    ∀ d, pending_payments s2 !! ca_paymentId a = Some d →
         wallets (thread_step env t s2).2 !! ca_uid a
           = Some {| w_uid := ca_uid a;
                     w_balance :=
                       (balanceOf (wallets s2 !! ca_uid a) + ca_amount a)%float;
                     w_currency := Some (getBaseCurrency env);
                     w_updatedAt := now;
                     w_createdAt := Some (createdAtOr (wallets s2 !! ca_uid a) now) |} ∧
         transactions (thread_step env t s2).2 !! (ca_uid a, ca_paymentId a)
           = Some (TOP_UP (ca_paymentMethod a) (ca_amount a) (getBaseCurrency env)
                     (ca_pf_payment_id a) (ca_payment_status a) now) ∧
         (pp_status <$> pending_payments (thread_step env t s2).2 !! ca_paymentId a)
           = Some COMPLETED.
Proof.
  intros Hstep Hcredit.
  assert (∀ s2 d, pending_payments s2 !! ca_paymentId a = Some d →
            let s' := credit_effects a now (getBaseCurrency env) d s2 in
            wallets s' !! ca_uid a
              = Some {| w_uid := ca_uid a;
                        w_balance :=
                          (balanceOf (wallets s2 !! ca_uid a) + ca_amount a)%float;
                        w_currency := Some (getBaseCurrency env);
                        w_updatedAt := now;
                        w_createdAt := Some (createdAtOr (wallets s2 !! ca_uid a) now) |} ∧
            transactions s' !! (ca_uid a, ca_paymentId a)
              = Some (credit_entry a now (getBaseCurrency env)) ∧
            (pp_status <$> pending_payments s' !! ca_paymentId a) = Some COMPLETED)
    as Heffects.
  { intros s2 d Hd. unfold credit_effects; cbn.
    rewrite !lookup_insert_eq. repeat split. }
  destruct call as [data now0|auth paymentId fetch now0]; simpl in Hstep.
  - destruct (payfastITN_gate data s) as [r|c] eqn:Hgate; simpl in Hstep; subst t;
      [done|]. injection Hcredit as <- <-.
    apply payfastITN_gate_proceed in Hgate as (Huid & Hpid & Hmethod & Hpending).
    split; [done|]. split; [done|]. split; [done|]. split.
    { intros data' now' [= <- <-]. simpl. by rewrite Hmethod. }
    intros s2. cbn [thread_step]. rewrite payfastITN_credit_all_or_nothing.
    split; [done|]. intros d Hd. simpl in Hd. rewrite Hd. by apply Heffects.
  - destruct (verifyPayFastPayment_gate env auth paymentId fetch s) as [r|c] eqn:Hgate;
      simpl in Hstep; subst t; [done|]. injection Hcredit as <- <-.
    apply verifyPayFastPayment_gate_proceed in Hgate as (Huid & Hpid & Hpending).
    split; [done|]. split; [done|]. split; [done|]. split; [done|].
    intros s2. cbn [thread_step]. rewrite verifyPayFastPayment_credit_all_or_nothing.
    split; [done|]. intros d Hd. simpl in Hd. rewrite Hd. by apply Heffects.
Qed.

(** ** Repeated invocations of the credit path *)

(** An invocation that runs without interruption is the handler. *)
Lemma run_call_webhook (env : Env) (data : list (string * string)) (now : Timestamp)
    (s : Store) :
  run_call env (CallWebhook data now) s = (payfastITN_process env data now s).2.
Proof.
  unfold run_call, payfastITN_process. cbn [thread_step].
  by destruct (payfastITN_gate data s).
Qed.

Lemma run_call_verify (env : Env) (auth paymentId : option string)
    (fetch : string → string + string) (now : Timestamp) (s : Store) :
  run_call env (CallVerify auth paymentId fetch now) s
  = (verifyPayFastPayment env auth paymentId fetch now s).2.
Proof.
  unfold run_call, verifyPayFastPayment. cbn [thread_step].
  by destruct (verifyPayFastPayment_gate env auth paymentId fetch s).
Qed.

(** A credit leaves the Pending Payment COMPLETED. *)
Lemma credit_effects_completed (a : CreditArgs) (now : Timestamp) (base : string)
    (d : PendingDoc) (s : Store) :
  ∃ d', pending_payments (credit_effects a now base d s) !! ca_paymentId a = Some d' ∧
        pp_status d' = COMPLETED.
Proof.
  eexists. unfold credit_effects; cbn. by rewrite lookup_insert_eq.
Qed.

(** One invocation, run without interruption, either leaves the store as
    it was or performs the credit of a payment that was PENDING. *)
Lemma run_call_cases (env : Env) (call : Call) (s : Store) :
  run_call env call s = s ∨
  ∃ a now d,
    call_paymentId call = Some (ca_paymentId a) ∧
    pending_payments s !! ca_paymentId a = Some d ∧ pp_status d = PENDING ∧
    run_call env call s = credit_effects a now (getBaseCurrency env) d s.
Proof.
  unfold run_call. destruct call as [data now|auth paymentId fetch now]; simpl.
  - destruct (payfastITN_gate data s) as [r|c] eqn:Hgate; [by left|].
    apply payfastITN_gate_proceed in Hgate as (_ & Hpid & _ & d & Hd & Hst).
    right. exists (itn_args c), now, d. cbn [thread_step].
    rewrite payfastITN_credit_all_or_nothing, Hd. done.
  - destruct (verifyPayFastPayment_gate env auth paymentId fetch s) as [r|c] eqn:Hgate;
      [by left|].
    apply verifyPayFastPayment_gate_proceed in Hgate as (_ & Hpid & d & Hd & Hst).
    right. exists (verify_args c), now, d. cbn [thread_step].
    rewrite verifyPayFastPayment_credit_all_or_nothing, Hd. done.
Qed.

(** An invocation for a payment that is already COMPLETED is a no-op. *)
Lemma run_call_completed_noop (env : Env) (call : Call) (s : Store)
    (pid : string) (d : PendingDoc) :
  call_paymentId call = Some pid →
  pending_payments s !! pid = Some d → pp_status d = COMPLETED →
  run_call env call s = s.
Proof.
  intros Hpid Hd Hst.
  destruct (run_call_cases env call s) as [?|(a & now & d' & Hpid' & Hd' & Hst' & _)];
    [done|].
  rewrite Hpid in Hpid'. injection Hpid' as ->. congruence.
Qed.

(** Invocations run one after the other, in any number and through either
    entry point, credit a payment at most once: the final store is the
    initial one, or the initial one after the three writes of one credit.
    Every invocation after the one that credits is a no-op. *)
Lemma sequential_calls_credit_once (env : Env) (pid : string) (calls : list Call)
    (s : Store) :
  Forall (λ c, call_paymentId c = Some pid) calls →
  foldl (λ st c, run_call env c st) s calls = s ∨
  ∃ a now d,
    ca_paymentId a = pid ∧
    pending_payments s !! pid = Some d ∧ pp_status d = PENDING ∧
    foldl (λ st c, run_call env c st) s calls
      = credit_effects a now (getBaseCurrency env) d s.
Proof.
  intros Hall. revert s.
  induction Hall as [|c calls Hc Hall IH]; intros s; cbn [foldl]; [by left|].
  destruct (run_call_cases env c s) as [->|(a & now & d & Hpid & Hd & Hst & ->)].
  { apply IH. }
  rewrite Hc in Hpid. injection Hpid as ->.
  right. exists a, now, d. repeat (split; [done|]).
  destruct (credit_effects_completed a now (getBaseCurrency env) d s)
    as (d' & Hd' & Hst').
  generalize dependent (credit_effects a now (getBaseCurrency env) d s).
  intros s1 Hd1. clear IH Hc.
  induction Hall as [|c' calls' Hc' Hall' IH']; cbn [foldl]; [done|].
  by rewrite (run_call_completed_noop env c' s1 (ca_paymentId a) d').
Qed.

(** Two deliveries of one notification whose reads of the Pending
    Payment both come before the two transactions are both credited,
    whatever the store and the notification. *)
Lemma interleaved_deliveries_credit_twice (env : Env) (data : list (string * string))
    (now1 now2 : Timestamp) (s : Store) (c : ITNCredit) :
  payfastITN_gate data s = ITN_Proceed c →
  let r := run_schedule env [0; 1; 0; 1]%nat
             [T_Start (CallWebhook data now1); T_Start (CallWebhook data now2)] s in
  r.1 = [T_Done; T_Done] ∧
  w_balance <$> wallets r.2 !! ic_uid c
  = Some (num_or (balanceOf (wallets s !! ic_uid c) + ic_amount c) 0
          + ic_amount c)%float.
Proof.
  intros Hgate.
  destruct (payfastITN_gate_proceed data s c Hgate) as (_ & _ & _ & d & Hd & _).
  cbn [run_schedule].
  change ([T_Start (CallWebhook data now1); T_Start (CallWebhook data now2)] !! 0%nat)
    with (Some (T_Start (CallWebhook data now1))).
  cbn [thread_step]. rewrite Hgate.
  change (<[0%nat := T_ITNCredit c now1]>
            [T_Start (CallWebhook data now1); T_Start (CallWebhook data now2)])
    with [T_ITNCredit c now1; T_Start (CallWebhook data now2)].
  change ([T_ITNCredit c now1; T_Start (CallWebhook data now2)] !! 1%nat)
    with (Some (T_Start (CallWebhook data now2))).
  cbn [thread_step]. rewrite Hgate.
  change (<[1%nat := T_ITNCredit c now2]>
            [T_ITNCredit c now1; T_Start (CallWebhook data now2)])
    with [T_ITNCredit c now1; T_ITNCredit c now2].
  change ([T_ITNCredit c now1; T_ITNCredit c now2] !! 0%nat)
    with (Some (T_ITNCredit c now1)).
  cbn [thread_step]. rewrite payfastITN_credit_all_or_nothing, Hd.
  change (<[0%nat := T_Done]> [T_ITNCredit c now1; T_ITNCredit c now2])
    with [T_Done; T_ITNCredit c now2].
  change ([T_Done; T_ITNCredit c now2] !! 1%nat) with (Some (T_ITNCredit c now2)).
  cbn [thread_step]. rewrite payfastITN_credit_all_or_nothing.
  destruct (credit_effects_completed (itn_args c) now1 (getBaseCurrency env) d s)
    as (d1 & Hd1 & _).
  change (ca_paymentId (itn_args c)) with (ic_paymentId c) in Hd1. rewrite Hd1.
  split; [reflexivity|].
  unfold credit_effects; cbn. rewrite !lookup_insert_eq. reflexivity.
Qed.

(** The signature does not depend on a [signature] field among the
    fields: signing the fields as received, signature included, gives the
    signature of the fields without it. *)
Lemma pf_filter_fold_set_excluded (inc : bool) (excl : list string) (key : string)
    (v : option string) (data : list (string * option string))
    (acc : list (string * string)) :
  key ∈ excl →
  foldl (pf_filter_step inc excl) acc (obj_set key v data)
  = foldl (pf_filter_step inc excl) acc data.
Proof.
  intros Hin. revert acc.
  assert (∀ acc w, pf_filter_step inc excl acc (key, w) = acc) as Hskip.
  { intros acc w. unfold pf_filter_step. by rewrite bool_decide_eq_true_2. }
  induction data as [|[k0 v0] data IH]; intros acc; cbn [obj_set foldl].
  - apply Hskip.
  - destruct (String.eqb_spec k0 key) as [->|Hne]; cbn [foldl].
    + by rewrite !Hskip.
    + apply IH.
Qed.

Lemma generatePayFastSignature_ignores_signature (data : list (string * option string))
    (passphrase signature : string) (opts : PayFastSignatureOpts) :
  excludeKeys opts = None →
  generatePayFastSignature (obj_set "signature" (Some signature) data) passphrase opts
  = generatePayFastSignature data passphrase opts.
Proof.
  intros Hex. unfold generatePayFastSignature, buildPayFastQueryString, pf_filtered.
  rewrite Hex. cbn [from_option id].
  rewrite pf_filter_fold_set_excluded; [done|]. apply list_elem_of_singleton. done.
Qed.

(** ** The signature check of the webhook *)

Lemma has_prefix_ci_app_amp (p base rest : string) :
  Forall (λ a, Ascii.eqb (ascii_lower a) "&"%char = false) (list_ascii_of_string p) →
  has_prefix_ci p base = false →
  has_prefix_ci p (base ++ String "&"%char rest) = false.
Proof.
  revert base. induction p as [|a p IH]; intros base Hp Hno; [done|].
  apply Forall_cons in Hp as [Ha Hp].
  destruct base as [|b base]; simpl in *.
  - change (ascii_lower "&"%char) with "&"%char. by rewrite Ha.
  - destruct (Ascii.eqb (ascii_lower a) (ascii_lower b)); [|done].
    by apply IH.
Qed.

Lemma signature_pattern_amp_free :
  Forall (λ a, Ascii.eqb (ascii_lower a) "&"%char = false)
         (list_ascii_of_string "signature=").
Proof. repeat constructor. Qed.

Lemma skip_to_amp_value (sig post : string) :
  no_amp sig = true → at_param_boundary post = true →
  skip_to_amp (sig ++ post) = post.
Proof.
  intros Hsig Hpost. induction sig as [|c sig IH]; simpl in *.
  - destruct post as [|c r]; [done|]. simpl in Hpost.
    apply Ascii.eqb_eq in Hpost as ->. done.
  - apply andb_true_iff in Hsig as [Hc Hsig]. apply negb_true_iff in Hc.
    apply Ascii.eqb_neq in Hc. rewrite IH by done.
    destruct c as [[] [] [] [] [] [] [] []]; try done.
Qed.

Lemma remove_amp_signature_first (pre sig post : string) :
  has_amp_signature pre = false → no_amp sig = true →
  at_param_boundary post = true →
  remove_amp_signature (pre ++ "&signature=" ++ sig ++ post) = pre ++ post.
Proof.
  intros Hpre Hsig Hpost. induction pre as [|c pre IH].
  - change ("" ++ "&signature=" ++ sig ++ post)
      with (String "&"%char ("signature=" ++ sig ++ post)).
    cbn [remove_amp_signature]. rewrite Ascii.eqb_refl. cbn [andb].
    assert (has_prefix_ci "signature=" ("signature=" ++ sig ++ post) = true) as ->
      by reflexivity.
    change (string_drop 10 ("signature=" ++ sig ++ post)) with (sig ++ post).
    by apply skip_to_amp_value.
  - cbn [has_amp_signature] in Hpre. apply orb_false_iff in Hpre as [Hc Hpre].
    change (String c pre ++ "&signature=" ++ sig ++ post)
      with (String c (pre ++ "&signature=" ++ sig ++ post)).
    cbn [remove_amp_signature].
    assert (Ascii.eqb c "&"%char
            && has_prefix_ci "signature=" (pre ++ "&signature=" ++ sig ++ post)
            = false) as ->.
    { destruct (Ascii.eqb c "&"%char); [|done]. cbn [andb] in *.
      change (pre ++ "&signature=" ++ sig ++ post)
        with (pre ++ String "&"%char ("signature=" ++ sig ++ post)).
      apply has_prefix_ci_app_amp; [apply signature_pattern_amp_free | done]. }
    rewrite IH by done. done.
Qed.

(** On a raw body the webhook signs what is left of the body when the
    signature parameter is cut out: for a body [pre&signature=sig post],
    where [pre] holds no signature parameter, [sig] no [&], and [post] is
    empty or starts with [&], the signing string is [pre post] without one
    leading and one trailing [&]; the parsed fields play no part. *)
Lemma itn_signing_string_of_raw_body (env : Env) (data : list (string * string))
    (pre sig post : string) :
  mentions_signature pre = false → no_amp sig = true →
  at_param_boundary post = true →
  let raw := pre ++ "&signature=" ++ sig ++ post in
  let body := strip_trailing_amp (strip_leading_amp (pre ++ post)) in
  let passphrase := cleanPf (Some (str_or (PAYFAST_PASSPHRASE env) "")) in
  itn_signing_string data raw = body ∧
  itn_signature_check env data raw sig
  = String.eqb sig
      (md5hex (if truthy passphrase then body ++ "&passphrase=" ++ passphrase
               else body)).
Proof.
  intros Hpre Hsig Hpost. cbv zeta.
  apply orb_false_iff in Hpre as [Hstart Hamp].
  assert (itn_signing_string data (pre ++ "&signature=" ++ sig ++ post)
          = strip_trailing_amp (strip_leading_amp (pre ++ post))) as Hs.
  { unfold itn_signing_string.
    assert (truthy (pre ++ "&signature=" ++ sig ++ post) = true) as ->.
    { apply truthy_true. by destruct pre. }
    unfold remove_signature_param.
    assert (has_prefix_ci "signature=" (pre ++ "&signature=" ++ sig ++ post) = false)
      as ->.
    { change (pre ++ "&signature=" ++ sig ++ post)
        with (pre ++ String "&"%char ("signature=" ++ sig ++ post)).
      apply has_prefix_ci_app_amp; [apply signature_pattern_amp_free | done]. }
    by rewrite remove_amp_signature_first. }
  split; [done|]. unfold itn_signature_check. by rewrite Hs.
Qed.


Lemma append_empty_r (s : string) : s ++ "" = s.
Proof.
  induction s as [|c s IH]; [done|].
  change (String c (s ++ "") = String c s). by rewrite IH.
Qed.

(** C6 (as amended): the check of the webhook accepts the output of the
    signing function on the body that the signing function serialises.  For
    every field set, passphrase (the empty one too) and option set, let
    [qs] be the canonical query string of the fields (sorted by key, values
    trimmed, empty ones dropped unless the options keep them, encoded) and
    [sig] their signature; a request whose raw body is [qs&signature=sig]
    passes the check under that passphrase.  The query string holds no
    signature parameter and neither begins nor ends with [&], and the
    digest holds no [&]. *)
Theorem webhook_accepts_generated_signature (env : Env)
    (fields : list (string * option string)) (passphrase : string)
    (opts : PayFastSignatureOpts) (data : list (string * string)) :
  str_or (PAYFAST_PASSPHRASE env) "" = passphrase →
  let qs := (buildPayFastQueryString fields opts).1 in
  let sig := generatePayFastSignature fields passphrase opts in
  mentions_signature qs = false →
  strip_trailing_amp (strip_leading_amp qs) = qs →
  no_amp sig = true →
  itn_signature_check env data (qs ++ "&signature=" ++ sig) sig = true.
Proof.
  intros Hpass qs sig Hqs Hstrip Hsig.
  destruct (itn_signing_string_of_raw_body env data qs sig "" Hqs Hsig eq_refl)
    as [_ Hcheck].
  rewrite !append_empty_r in Hcheck. rewrite Hcheck, Hstrip, Hpass.
  apply String.eqb_eq. reflexivity.
Qed.

(** ** The fee split of a ride *)

(** C8 (as amended): a ride with a positive fare up to
    [Number.MAX_SAFE_INTEGER] ([2^53 - 1]), paid by a rider who is not the
    driver and whose balance covers the fare.  The effective fee rate lies
    in [0, 0.95]; the platform fee is [Math.round(amount * feeRate)], a
    whole number within a half of the product the runtime computes; the
    payout is exactly the fare less the fee, and payout plus fee is the
    fare again, both as exact values and as the runtime adds them.  The
    rider's stored balance becomes the double [balance - amount], the
    driver's the double [balance + payout], and the two log entries record
    the fare, the fee and the payout. *)
Theorem payDriverOnComplete_fee_split (env : Env) (riderUid rideId driverId : string)
    (ride : RideDoc) (amount : float) (now : Timestamp) (debitId creditId : string)
    (s : Store) :
  riderUid ≠ "" → rideId ≠ "" →
  rides s !! rideId = Some ride →
  r_paymentStatus ride ≠ Some "authorized" →
  r_status ride = "on_trip" →
  r_userId ride = riderUid →
  r_driverId ride = Some driverId → driverId ≠ "" → driverId ≠ riderUid →
  r_estimatedFareZAR ride = Some amount →
  (0 <? amount)%float = true → (amount <=? 9007199254740991)%float = true →
  (amount <=? balanceOf (wallets s !! riderUid))%float = true →
  (0 <=? feeRate env)%float = true ∧ (feeRate env <=? 0.95)%float = true ∧
  platformFee env amount = Math_round (amount * feeRate env) ∧
  (∃ N : Z, (0 ≤ N)%Z ∧ F2Z (platformFee env amount) = (N * 2 ^ 1074)%Z ∧
     (F2Z (amount * feeRate env) - 2 ^ 1073 < F2Z (platformFee env amount)
      ≤ F2Z (amount * feeRate env) + 2 ^ 1073)%Z) ∧
  (F2Z (payout env amount) + F2Z (platformFee env amount) = F2Z amount)%Z ∧
  (payout env amount + platformFee env amount)%float = amount ∧
  ∃ s',
    payDriverOnComplete env (Some riderUid) (Some rideId) now debitId creditId s
      = (Ok true, s') ∧
    w_balance <$> wallets s' !! riderUid
      = Some (balanceOf (wallets s !! riderUid) - amount)%float ∧
    w_balance <$> wallets s' !! driverId
      = Some (balanceOf (wallets s !! driverId) + payout env amount)%float ∧
    transactions s' !! (riderUid, debitId)
      = Some (RIDE_PAYMENT rideId driverId amount (getBaseCurrency env)
                (platformFee env amount) (payout env amount) now) ∧
    transactions s' !! (driverId, creditId)
      = Some (RIDE_EARN rideId riderUid (payout env amount) (getBaseCurrency env)
                (platformFee env amount) now).
Proof.
  intros Hrider Hrid Hride Hpay Hst Huser Hdrv Hdne Hneq Hfare Hpos Hmax Hbal.
  destruct (feeRate_range env) as [H0 H1].
  destruct (fee_and_remainder amount (feeRate env) Hpos Hmax H0 H1) as [Hsub Hadd].
  split; [done|]. split; [done|]. split; [done|].
  split; [by apply rounded_product_whole|].
  split; [unfold payout, platformFee; rewrite Hsub; lia|].
  split; [exact Hadd|].
  eexists. split.
  { rewrite (payDriverOnComplete_valid env riderUid rideId driverId ride amount)
      by (done || by apply (bounded_is_finite _ 9007199254740991)).
    apply leb_ltb_false in Hbal. rewrite Hbal. reflexivity. }
  unfold ride_effects; cbn.
  assert ((riderUid, debitId) ≠ (driverId, creditId)) as Hk by congruence.
  repeat split.
  - rewrite lookup_insert_ne by done. by rewrite lookup_insert_eq.
  - by rewrite lookup_insert_eq.
  - rewrite lookup_insert_ne by done. by rewrite lookup_insert_eq.
  - by rewrite lookup_insert_eq.
Qed.

End Properties.

(** * The statements on sample inputs *)

#[local] Existing Instance sample_runtime.

Lemma sample_store_nonneg : balances_nonneg sample_store.
Proof.
  split; cbn; intros k w.
  - destruct (decide (k = "alice")) as [->|Hne].
    + rewrite lookup_singleton_eq. by intros [= <-].
    + by rewrite lookup_singleton_ne.
  - by rewrite lookup_empty.
Qed.

(** Bob has no wallet: his balance reads as 0 ZAR and the store is as
    before. *)
Lemma getWalletBalance_missing_wallet_witness :
  getBaseCurrency sample_env = "ZAR" ∧
  getWalletBalance sample_env (Some "bob") sample_store
  = (Ok (0%float, getBaseCurrency sample_env), sample_store).
Proof.
  split; [reflexivity|].
  apply (getWalletBalance_missing_wallet sample_env "bob" sample_store).
  - discriminate.
  - reflexivity.
Defined.

(** A signed notification with status FAILED is acknowledged and
    ignored. *)
Lemma payfastITN_not_complete_witness :
  payfastITN sample_env sample_failed_itn 7%Z sample_store
  = ((200%Z, "OK"), sample_store).
Proof.
  apply (payfastITN_not_complete sample_env sample_failed_itn 7%Z sample_store
           [("m_payment_id", "pay1"); ("payment_status", "FAILED");
            ("signature", "866feba4449ee7db10828901b2953a50")]).
  - vm_compute. reflexivity.
  - vm_compute. discriminate.
Defined.

(** Alice (100) sends 50 to Bob (no wallet yet): 50 each, two entries. *)
Lemma transferFunds_moves_funds_witness :
  ∃ s',
    transferFunds sample_env (Some "alice")
      {| tp_toUid := Some "bob"; tp_amount := Some 50%float; tp_note := None |}
      7%Z "debit1" "credit1" sample_store = (Ok "SUCCESS", s') ∧
    w_balance <$> wallets s' !! "alice" = Some 50%float ∧
    w_balance <$> wallets s' !! "bob" = Some 50%float ∧
    size (transactions s') = 2%nat.
Proof.
  destruct (transferFunds_moves_funds sample_env "alice" "bob" 50%float None 7%Z
              "debit1" "credit1" sample_store)
    as (s' & Hrun & Hfrom & Hto & _ & _ & _ & _ & _ & _ & Hsize & _).
  - discriminate.
  - discriminate.
  - discriminate.
  - reflexivity.
  - reflexivity.
  - reflexivity.
  - reflexivity.
  - exists s'. split; [exact Hrun|]. rewrite Hfrom, Hto, Hsize.
    repeat split; reflexivity.
Defined.

(** C3, counterexample: Bob holds 0.1 and receives 0.2 from Alice.  The
    transfer succeeds and Bob's stored balance is 0.30000000000000004: its
    value is not the value of 0.1 plus the value of 0.2, and it is not the
    number 0.3. *)
Lemma transferFunds_sum_is_rounded :
  let s :=
    with_wallets (λ _, {[ "alice" := sample_wallet "alice" 10;
                          "bob" := sample_wallet "bob" 0.1 ]}) empty_store in
  ∃ s',
    transferFunds sample_env (Some "alice")
      {| tp_toUid := Some "bob"; tp_amount := Some 0.2%float; tp_note := None |}
      7%Z "debit1" "credit1" s = (Ok "SUCCESS", s') ∧
    w_balance <$> wallets s !! "bob" = Some 0.1%float ∧
    w_balance <$> wallets s' !! "bob" = Some 0.30000000000000004%float ∧
    F2Z 0.30000000000000004 ≠ (F2Z 0.1 + F2Z 0.2)%Z ∧
    0.30000000000000004%float ≠ 0.3%float.
Proof.
  eexists. split; [vm_compute; reflexivity|].
  split; [vm_compute; reflexivity|]. split; [vm_compute; reflexivity|].
  split; [by vm_compute|].
  intros H. apply (f_equal Prim2SF) in H. vm_compute in H. discriminate.
Qed.

(** Alice (100) cannot send 150. *)
Lemma transferFunds_insufficient_balance_witness :
  transferFunds sample_env (Some "alice")
    {| tp_toUid := Some "bob"; tp_amount := Some 150%float; tp_note := None |}
    7%Z "debit1" "credit1" sample_store
  = (Err failed_precondition "Insufficient balance", sample_store).
Proof.
  apply (transferFunds_insufficient_balance sample_env "alice" "bob" 150%float None 7%Z
           "debit1" "credit1" sample_store).
  - discriminate.
  - discriminate.
  - discriminate.
  - reflexivity.
  - reflexivity.
Defined.

(** The same two fields, entered in the two possible orders. *)
Lemma signature_order_independent_witness :
  generatePayFastSignature
    [("merchant_id", Some "10044172"); ("amount", Some "100.00")] "secret"
    {| includeEmpty := None; excludeKeys := None |}
  = generatePayFastSignature
      [("amount", Some "100.00"); ("merchant_id", Some "10044172")] "secret"
      {| includeEmpty := None; excludeKeys := None |}.
Proof.
  apply signature_order_independent.
  - unfold obj_wf, obj_keys. simpl. apply NoDup_cons. split.
    + intros H%list_elem_of_singleton. discriminate.
    + apply NoDup_singleton.
  - apply perm_swap.
Defined.

(** A fare of 50 at the configured rate 0.29.  The runtime reads 0.29 as
    0.28999999999999998 and computes 50 * 0.29 = 14.499999999999998: the
    fee is 14 and the payout 36.  Alice goes from 100 to 50 and Dave from
    nothing to 36. *)
Lemma payDriverOnComplete_fee_split_witness :
  let env :=
    {| APP_BASE_CURRENCY := None; APP_PLATFORM_FEE_RATE := Some "0.29";
       PAYFAST_MERCHANT_ID := None; PAYFAST_MERCHANT_KEY := None;
       PAYFAST_PASSPHRASE := None; PAYFAST_ENV := None |} in
  let ride :=
    {| r_userId := "alice"; r_status := "on_trip"; r_paymentStatus := None;
       r_driverId := Some "dave"; r_estimatedFareZAR := Some 50%float;
       r_updatedAt := 2%Z |} in
  let s := with_rides (λ _, {[ "ride1" := ride ]}) sample_store in
  feeRate env = 0.28999999999999998%float ∧
  (50 * feeRate env)%float = 14.499999999999998%float ∧
  platformFee env 50 = 14%float ∧ payout env 50 = 36%float ∧
  ∃ s',
    payDriverOnComplete env (Some "alice") (Some "ride1") 7%Z "debit1" "credit1" s
      = (Ok true, s') ∧
    w_balance <$> wallets s' !! "alice" = Some 50%float ∧
    w_balance <$> wallets s' !! "dave" = Some 36%float ∧
    transactions s' !! ("alice", "debit1")
      = Some (RIDE_PAYMENT "ride1" "dave" 50 "ZAR" 14 36 7%Z) ∧
    transactions s' !! ("dave", "credit1")
      = Some (RIDE_EARN "ride1" "alice" 36 "ZAR" 14 7%Z).
Proof.
  intros env ride s.
  destruct (payDriverOnComplete_fee_split env "alice" "ride1" "dave" ride
              50%float 7%Z "debit1" "credit1" s)
    as (_ & _ & _ & _ & _ & _ & s' & Hrun & Hrider & Hdriver & Hout & Hin).
  - discriminate.
  - discriminate.
  - reflexivity.
  - discriminate.
  - reflexivity.
  - reflexivity.
  - reflexivity.
  - discriminate.
  - discriminate.
  - reflexivity.
  - reflexivity.
  - reflexivity.
  - reflexivity.
  - split; [vm_compute; reflexivity|]. split; [vm_compute; reflexivity|].
    split; [vm_compute; reflexivity|]. split; [vm_compute; reflexivity|].
    exists s'. split; [exact Hrun|]. rewrite Hrider, Hdriver, Hout, Hin.
    repeat split; vm_compute; reflexivity.
Defined.

(** C8, counterexample: a fare of 12000000000000002 at the default rate
    0.20, paid by Alice, who holds 20000000000000000, to Dave.  The fee is
    2400000000000001 and the payout 9600000000000000; their sum is
    12000000000000001 as a value and 12000000000000000 as the runtime adds
    them, not the fare.  The ride is settled with these numbers. *)
Lemma payDriverOnComplete_split_loses_a_unit :
  let amount := 12000000000000002%float in
  let ride :=
    {| r_userId := "alice"; r_status := "on_trip"; r_paymentStatus := None;
       r_driverId := Some "dave"; r_estimatedFareZAR := Some amount;
       r_updatedAt := 2%Z |} in
  let s :=
    with_rides (λ _, {[ "ride1" := ride ]})
      (with_wallets (λ _, {[ "alice" := sample_wallet "alice" 20000000000000000 ]})
         empty_store) in
  feeRate sample_env = 0.2%float ∧
  platformFee sample_env amount = 2400000000000001%float ∧
  payout sample_env amount = 9600000000000000%float ∧
  (F2Z (payout sample_env amount) + F2Z (platformFee sample_env amount))%Z
    ≠ F2Z amount ∧
  (payout sample_env amount + platformFee sample_env amount)%float
    = 12000000000000000%float ∧
  (payout sample_env amount + platformFee sample_env amount)%float ≠ amount ∧
  ∃ s',
    payDriverOnComplete sample_env (Some "alice") (Some "ride1") 7%Z
      "debit1" "credit1" s = (Ok true, s') ∧
    w_balance <$> wallets s' !! "alice" = Some 7999999999999998%float ∧
    w_balance <$> wallets s' !! "dave" = Some 9600000000000000%float.
Proof.
  cbv zeta.
  split; [vm_compute; reflexivity|]. split; [vm_compute; reflexivity|].
  split; [vm_compute; reflexivity|]. split; [by vm_compute|].
  split; [vm_compute; reflexivity|]. split.
  { intros H. apply (f_equal Prim2SF) in H. vm_compute in H. discriminate. }
  eexists. split; [vm_compute; reflexivity|].
  split; vm_compute; reflexivity.
Qed.

(** A ride whose driver is its rider: Alice holds 100 and the fare is 60.
    The write of the driver's wallet replaces the write of the rider's, and
    Alice's balance is 148. *)
Lemma payDriverOnComplete_self_ride :
  let ride :=
    {| r_userId := "alice"; r_status := "on_trip"; r_paymentStatus := None;
       r_driverId := Some "alice"; r_estimatedFareZAR := Some 60%float;
       r_updatedAt := 2%Z |} in
  let s := with_rides (λ _, {[ "ride1" := ride ]}) sample_store in
  ∃ s',
    payDriverOnComplete sample_env (Some "alice") (Some "ride1") 7%Z
      "debit1" "credit1" s = (Ok true, s') ∧
    w_balance <$> wallets s !! "alice" = Some 100%float ∧
    w_balance <$> wallets s' !! "alice" = Some 148%float.
Proof.
  cbv zeta. eexists. split; [vm_compute; reflexivity|].
  split; vm_compute; reflexivity.
Qed.

(** An adjustment of -30 on Alice's 100 keeps the balances
    non-negative. *)
Lemma operations_keep_balances_nonneg_witness :
  balances_nonneg
    (run_op sample_env
       (OpAdminAdjust (Some "root") (λ _, true)
          {| aa_uid := Some "alice"; aa_delta := Some (-30)%float; aa_reason := None |}
          7%Z "tx1")
       sample_store).
Proof.
  apply operations_keep_balances_nonneg.
  - exact sample_store_nonneg.
  - intros uid delta [= <-] [= <-]. reflexivity.
Defined.

(** C5, counterexample: an adjustment of -150 on Alice's 100 is applied
    and leaves her balance at -50. *)
Lemma adminAdjustBalance_negative_balance :
  balances_nonneg sample_store ∧
  ¬ balances_nonneg
      (run_op sample_env
         (OpAdminAdjust (Some "root") (λ _, true)
            {| aa_uid := Some "alice"; aa_delta := Some (-150)%float;
               aa_reason := None |}
            7%Z "tx1")
         sample_store).
Proof.
  split; [exact sample_store_nonneg|].
  intros [Hw _].
  specialize (Hw "alice" _ eq_refl). vm_compute in Hw. discriminate.
Qed.

(** An infinite amount taken from an infinite balance: the transfer is
    carried out and the sender's balance is [NaN]. *)
Lemma transferFunds_infinite_amount :
  let s :=
    with_wallets (λ _, {[ "alice" := sample_wallet "alice" infinity ]}) empty_store in
  balances_nonneg s ∧
  ∃ s',
    transferFunds sample_env (Some "alice")
      {| tp_toUid := Some "bob"; tp_amount := Some infinity; tp_note := None |}
      7%Z "debit1" "credit1" s = (Ok "SUCCESS", s') ∧
    is_nan <$> (w_balance <$> wallets s' !! "alice") = Some true ∧
    ¬ balances_nonneg s'.
Proof.
  cbv zeta. split.
  { split; cbn; intros k w.
    - destruct (decide (k = "alice")) as [->|Hne].
      + rewrite lookup_singleton_eq. by intros [= <-].
      + by rewrite lookup_singleton_ne.
    - by rewrite lookup_empty. }
  eexists. split; [vm_compute; reflexivity|].
  split; [vm_compute; reflexivity|].
  intros [Hw _]. specialize (Hw "alice" _ eq_refl). vm_compute in Hw. discriminate.
Qed.

(** The fields [b = 1] and [a = 2], no passphrase: the signing function
    signs [a=2&b=1], and the webhook accepts the body
    [a=2&b=1&signature=...] with that signature: its check passes and the
    request is verified. *)
Lemma webhook_accepts_generated_signature_witness :
  let fields := [("b", Some "1"); ("a", Some "2")] in
  let opts := {| includeEmpty := None; excludeKeys := None |} in
  (buildPayFastQueryString fields opts).1 = "a=2&b=1" ∧
  generatePayFastSignature fields "" opts = "b33b063ed6ac78b448048a5a3b1e1db1" ∧
  itn_signature_check sample_env []
    ((buildPayFastQueryString fields opts).1 ++ "&signature="
       ++ generatePayFastSignature fields "" opts)
    (generatePayFastSignature fields "" opts) = true ∧
  payfastITN_front sample_env
    {| req_method := "POST";
       req_raw := Some "a=2&b=1&signature=b33b063ed6ac78b448048a5a3b1e1db1";
       req_body := None |}
  = ITN_Verified
      [("a", "2"); ("b", "1"); ("signature", "b33b063ed6ac78b448048a5a3b1e1db1")].
Proof.
  intros fields opts.
  split; [vm_compute; reflexivity|]. split; [vm_compute; reflexivity|].
  split; [|vm_compute; reflexivity].
  apply (webhook_accepts_generated_signature sample_env fields "" opts []).
  - reflexivity.
  - vm_compute. reflexivity.
  - vm_compute. reflexivity.
  - vm_compute. reflexivity.
Defined.

(** C6, counterexample: the same fields and the same signature, in a body
    that lists the fields as they were entered, [b] before [a].  The
    webhook recomputes the digest over [b=1&a=2], which is another one, and
    answers 400. *)
Lemma webhook_rejects_generated_signature :
  let fields := [("b", Some "1"); ("a", Some "2")] in
  let opts := {| includeEmpty := None; excludeKeys := None |} in
  let sig := generatePayFastSignature fields "" opts in
  let req :=
    {| req_method := "POST"; req_raw := Some ("b=1&a=2&signature=" ++ sig);
       req_body := None |} in
  sig = "b33b063ed6ac78b448048a5a3b1e1db1" ∧
  itn_signature_check sample_env [("b", "1"); ("a", "2"); ("signature", sig)]
    ("b=1&a=2&signature=" ++ sig) sig = false ∧
  payfastITN_front sample_env req = ITN_Reply (400%Z, "Invalid signature") ∧
  ∀ now s, payfastITN sample_env req now s = ((400%Z, "Invalid signature"), s).
Proof.
  cbv zeta. split; [vm_compute; reflexivity|]. split; [vm_compute; reflexivity|].
  assert (payfastITN_front sample_env
            {| req_method := "POST";
               req_raw := Some ("b=1&a=2&signature=" ++
                 generatePayFastSignature [("b", Some "1"); ("a", Some "2")] ""
                   {| includeEmpty := None; excludeKeys := None |});
               req_body := None |}
          = ITN_Reply (400%Z, "Invalid signature")) as H
    by (vm_compute; reflexivity).
  split; [exact H|]. intros now s. unfold payfastITN. by rewrite H.
Qed.

(** C2, the failing input: the Pending Payment [pay1] belongs to Alice.  A
    notification for it whose [custom_str1] is [bob], signed as the webhook
    expects, is answered with 200; it marks [pay1] COMPLETED and credits
    Bob, and Alice's wallet is as before. *)
Lemma credit_of_non_owner :
  let req :=
    {| req_method := "POST";
       req_raw :=
         Some ("m_payment_id=pay1&pf_payment_id=1089250&payment_status=COMPLETE"
               ++ "&amount_gross=100.00&custom_str1=bob&payment_method=cc"
               ++ "&signature=cef3a11e86389b793fe7a36aa609df8f");
       req_body := None |} in
  let r := payfastITN sample_env req 7%Z sample_store in
  r.1 = (200%Z, "OK") ∧
  (pp_uid <$> pending_payments sample_store !! "pay1") = Some "alice" ∧
  (pp_status <$> pending_payments r.2 !! "pay1") = Some COMPLETED ∧
  wallets r.2 !! "alice" = wallets sample_store !! "alice" ∧
  wallets sample_store !! "bob" = None ∧
  w_balance <$> wallets r.2 !! "bob" = Some 100%float ∧
  ¬ credits_owner sample_store r.2 "pay1" 100.
Proof.
  cbv zeta. split; [vm_compute; reflexivity|]. split; [reflexivity|].
  split; [vm_compute; reflexivity|]. split; [vm_compute; reflexivity|].
  split; [reflexivity|]. split; [vm_compute; reflexivity|].
  intros H. specialize (H _ eq_refl). vm_compute in H. discriminate.
Qed.

(** The verify handler credits its caller: Mallory verifies Alice's
    payment [pay1] and receives its amount. *)
Lemma verify_credits_caller :
  ∃ s',
    verifyPayFastPayment sample_env (Some "mallory") (Some "pay1") sample_gateway 7%Z
      sample_store_known_pf
    = (Ok (VR_SUCCESS 100 "ZAR" (Some "cc")), s') ∧
    (pp_uid <$> pending_payments sample_store_known_pf !! "pay1") = Some "alice" ∧
    (pp_status <$> pending_payments s' !! "pay1") = Some COMPLETED ∧
    wallets s' !! "alice" = wallets sample_store_known_pf !! "alice" ∧
    w_balance <$> wallets s' !! "mallory" = Some 100%float.
Proof.
  eexists. split; [vm_compute; reflexivity|].
  repeat split; vm_compute; reflexivity.
Qed.

(** C1, the failing input: two deliveries of the same notification for
    [pay1] (amount 100, Alice holds 100), each reading the Pending Payment
    before either runs its transaction.  Both transactions commit: the
    balance is 300, not 200, with a single TOP_UP entry.  Run one after the
    other the same two deliveries give 200. *)
Lemma concurrent_webhooks_credit_twice :
  let call := CallWebhook (sample_itn_data "alice") 7%Z in
  let interleaved :=
    run_schedule sample_env [0; 1; 0; 1]%nat [T_Start call; T_Start call] sample_store in
  let sequential :=
    run_schedule sample_env [0; 0; 1; 1]%nat [T_Start call; T_Start call] sample_store in
  interleaved.1 = [T_Done; T_Done] ∧
  w_balance <$> wallets interleaved.2 !! "alice" = Some 300%float ∧
  count_TOP_UP interleaved.2 = 1%nat ∧
  sequential.1 = [T_Done; T_Done] ∧
  w_balance <$> wallets sequential.2 !! "alice" = Some 200%float ∧
  count_TOP_UP sequential.2 = 1%nat.
Proof. vm_compute. repeat split; reflexivity. Qed.
